(** * PeezyAgent core: configuration loading and the two domain records

    A shallow embedding of [src/core/config.py] and [src/core/models.py].

    - Python [str] values are [string]s; a character stands for a code point
      below 256.  [upper] and [lower] act on the ASCII letters (Python maps
      the remaining letters to characters that are again outside the
      alphabets the code tests for).
    - Python [float] is IEEE binary64: a finite float carries its exact
      rational value, every arithmetic operation rounds the exact result to
      the nearest representable number (ties to even) and overflows to an
      infinity.  Signed zeros are not distinguished.
    - Python objects are attribute dictionaries ([gmap string pyval]); an
      attribute write goes through the class's [__setattr__].
    - Exceptions are values of [exn]; fallible code lives in the [except]
      monad. *)

From Stdlib Require Import ZArith QArith Qround Qabs Qpower Lia Lqa.
From Stdlib Require Qcanon.
From Stdlib Require Import String Ascii List.
From stdpp Require Import base gmap strings.

Local Open Scope Z_scope.

(* ================================================================== *)
(** * Part I: definitions                                              *)
(* ================================================================== *)

(** ** Python strings *)

Definition code (c : ascii) : Z := Z.of_N (N_of_ascii c).
Definition chr (z : Z) : ascii := ascii_of_N (Z.to_N z).

Definition is_digit (c : ascii) : bool := (48 <=? code c) && (code c <=? 57).
Definition digit_val (c : ascii) : Z := code c - 48.

(** [str.isspace] on the code points below 256. *)
Definition is_space (c : ascii) : bool :=
  let n := code c in
  ((9 <=? n) && (n <=? 13)) || ((28 <=? n) && (n <=? 32)) || (n =? 133) || (n =? 160).

Definition upper_char (c : ascii) : ascii :=
  if (97 <=? code c) && (code c <=? 122) then chr (code c - 32) else c.

Definition lower_char (c : ascii) : ascii :=
  if (65 <=? code c) && (code c <=? 90) then chr (code c + 32) else c.

Fixpoint str_map (f : ascii -> ascii) (s : string) : string :=
  match s with
  | EmptyString => EmptyString
  | String c s' => String (f c) (str_map f s')
  end.

Definition upper (s : string) : string := str_map upper_char s.
Definition lower (s : string) : string := str_map lower_char s.

(** [len(s)] *)
Definition len (s : string) : Z := Z.of_nat (String.length s).

Fixpoint lstrip (s : string) : string :=
  match s with
  | String c s' => if is_space c then lstrip s' else s
  | EmptyString => EmptyString
  end.

Fixpoint rstrip (s : string) : string :=
  match s with
  | EmptyString => EmptyString
  | String c s' =>
      match rstrip s' with
      | EmptyString => if is_space c then EmptyString else String c EmptyString
      | r => String c r
      end
  end.

(** [s.strip()] *)
Definition strip (s : string) : string := lstrip (rstrip s).

(** [s.startswith(p)] *)
Fixpoint startswith (s p : string) : bool :=
  match p, s with
  | EmptyString, _ => true
  | String a p', String b s' => if Ascii.eqb a b then startswith s' p' else false
  | String _ _, EmptyString => false
  end.

(** [sub in s] *)
Fixpoint contains (sub s : string) : bool :=
  startswith s sub ||
  match s with
  | EmptyString => false
  | String _ s' => contains sub s'
  end.

(** [s.endswith(p)] *)
Fixpoint endswith (s p : string) : bool :=
  String.eqb s p ||
  match s with
  | EmptyString => false
  | String _ s' => endswith s' p
  end.

(** [s.replace(old, new)] for a one-character [old]. *)
Fixpoint replace_char (old : ascii) (new : string) (s : string) : string :=
  match s with
  | EmptyString => EmptyString
  | String c s' =>
      if Ascii.eqb c old then new +:+ replace_char old new s'
      else String c (replace_char old new s')
  end.

(** [bool(s)] *)
Definition nonempty (s : string) : bool :=
  match s with EmptyString => false | _ => true end.

(** ** Regular expressions ([re.match])

    The constructs used by the two patterns of [config.py].  Repetition is
    only ever applied to a character class there, so [Many1] takes a class.
    The matcher is a backtracking one: it lists every way to match, the
    preferred (greedy) one first, and [re.match] takes the first. *)

Inductive regex : Type :=
| Cls (p : ascii -> bool)        (* one character of a class: \d, [KMGT], B, \. *)
| Many1 (p : ascii -> bool)      (* p+ , greedy *)
| Seq (r1 r2 : regex)
| Opt (r : regex)                (* r? , greedy *)
| Group (r : regex)              (* ( r ) , capturing *)
| Bol                            (* ^ *)
| Eol.                           (* $ *)

(** A matcher position: how many characters have been consumed and what
    is left. *)
Definition cursor : Type := nat * string.

(** Every suffix reachable by consuming zero or more characters of class
    [p], longest match first. *)
Fixpoint many (p : ascii -> bool) (i : nat) (s : string) : list cursor :=
  match s with
  | String c s' => if p c then many p (S i) s' ++ [(i, s)] else [(i, s)]
  | EmptyString => [(i, s)]
  end.

Definition take (n : nat) (s : string) : string := String.substring 0 n s.

Fixpoint run (r : regex) (caps : list string) (cur : cursor) : list (list string * cursor) :=
  let '(i, s) := cur in
  match r with
  | Cls p =>
      match s with
      | String c s' => if p c then [(caps, (S i, s'))] else []
      | EmptyString => []
      end
  | Many1 p =>
      match s with
      | String c s' => if p c then map (pair caps) (many p (S i) s') else []
      | EmptyString => []
      end
  | Seq r1 r2 =>
      flat_map (fun '(caps', cur') => run r2 caps' cur') (run r1 caps cur)
  | Opt r' => run r' caps cur ++ [(caps, cur)]
  | Group r' =>
      map (fun '(caps', (j, s')) => (caps' ++ [take (j - i) s], (j, s'))) (run r' caps cur)
  | Bol => if Nat.eqb i 0 then [(caps, cur)] else []
  | Eol =>
      match s with
      | EmptyString => [(caps, cur)]
      | String c EmptyString => if Ascii.eqb c "010" then [(caps, cur)] else []
      | _ => []
      end
  end.

(** [re.match(r, s)]: [None], or the captured groups of the first match. *)
Definition re_match (r : regex) (s : string) : option (list string) :=
  match run r [] (0%nat, s) with
  | [] => None
  | (caps, _) :: _ => Some caps
  end.

Definition char_is (a : ascii) (c : ascii) : bool := Ascii.eqb c a.
Definition one_of (cs : string) (c : ascii) : bool :=
  existsb (Ascii.eqb c) (list_ascii_of_string cs).

(** [r'^\d+(?:\.\d+)?[KMGT]?B$'] *)
Definition size_pattern : regex :=
  Seq Bol (Seq (Many1 is_digit)
          (Seq (Opt (Seq (Cls (char_is ".")) (Many1 is_digit)))
          (Seq (Opt (Cls (one_of "KMGT")))
          (Seq (Cls (char_is "B")) Eol)))).

(** [r'(\d+(?:\.\d+)?)([KMGT]?B)'] *)
Definition size_groups_pattern : regex :=
  Seq (Group (Seq (Many1 is_digit) (Opt (Seq (Cls (char_is ".")) (Many1 is_digit)))))
      (Group (Seq (Opt (Cls (one_of "KMGT"))) (Cls (char_is "B")))).

(** ** IEEE binary64 ([float]) *)

Local Open Scope Q_scope.

Inductive float : Type :=
| Finite (q : Q)
| Infinity (negative : bool)
| NaN.

(** [floor (log2 a)] for a positive rational. *)
Definition ilog2 (a : Q) : Z :=
  let k := (Z.log2 (Qnum a) - Z.log2 (Z.pos (Qden a)))%Z in
  if Qle_bool (2 ^ k) a then k else (k - 1)%Z.

(** Nearest integer, ties to even. *)
Definition rne (x : Q) : Z :=
  let f := Qfloor x in
  match Qcompare (x - inject_Z f) (1 # 2) with
  | Lt => f
  | Gt => (f + 1)%Z
  | Eq => if Z.even f then f else (f + 1)%Z
  end.

(** Exponent of the unit in the last place: 53 significant bits, and the
    subnormal floor [2^-1074]. *)
Definition ulp_exp (q : Q) : Z := Z.max (ilog2 (Qabs q) - 52) (-1074).

(** Round to the binary64 grid (no bound on the exponent yet). *)
Definition rnd (q : Q) : Q :=
  let e := ulp_exp q in Qred (inject_Z (rne (q / 2 ^ e)) * 2 ^ e).

Definition is_negative (q : Q) : bool := negb (Qle_bool 0 q).

(** Correct rounding of an exact result, with overflow. *)
Definition fl (q : Q) : float :=
  let r := rnd q in
  if Qle_bool (2 ^ 1024) (Qabs r) then Infinity (is_negative r) else Finite r.

Definition fadd (x y : float) : float :=
  match x, y with
  | Finite a, Finite b => fl (a + b)
  | NaN, _ | _, NaN => NaN
  | Infinity s, Infinity t => if Bool.eqb s t then Infinity s else NaN
  | Infinity s, Finite _ | Finite _, Infinity s => Infinity s
  end.

Definition fmul (x y : float) : float :=
  match x, y with
  | Finite a, Finite b => fl (a * b)
  | NaN, _ | _, NaN => NaN
  | Infinity s, Infinity t => Infinity (xorb s t)
  | Infinity s, Finite b | Finite b, Infinity s =>
      if Qeq_bool b 0 then NaN else Infinity (xorb s (is_negative b))
  end.

(** [x <= y] and [x < y] on floats; false as soon as a NaN is involved. *)
Definition fle (x y : float) : bool :=
  match x, y with
  | Finite a, Finite b => Qle_bool a b
  | NaN, _ | _, NaN => false
  | Infinity true, _ | _, Infinity false => true
  | Infinity false, _ | _, Infinity true => false
  end.

Definition flt (x y : float) : bool :=
  match x, y with
  | NaN, _ | _, NaN => false
  | _, _ => negb (fle y x)
  end.

(** [round(x, 2)]: the shortest-decimal machinery of CPython rounds the
    exact value of [x] to two decimals (ties to even) and converts the
    decimal back to the nearest float. *)
Definition round2 (x : float) : float :=
  match x with
  | Finite q => fl (inject_Z (rne (q * 100)) / 100)
  | _ => x
  end.

Definition Qtrunc (q : Q) : Z := Z.quot (Qnum q) (Z.pos (Qden q)).

(** ** Exceptions *)

(** The error kinds of the specification (section 7).  The code has two
    exception classes only; a kind is attached to every [raise] statement
    by [config_error_kind] and [model_error_kind] below. *)
Inductive error_kind : Type :=
| MissingRequired | EmptyValue | InvalidFormat | OutOfRange
| SecurityRejected | ImmutableViolation.

Inductive cause : Type := CauseValueError | CauseKeyError.

(** One constructor per [raise ConfigError(...)] of [config.py]. *)
Inductive config_error : Type :=
| MissingEnv (key : string)
| EmptyEnv (key : string)
| ApiKeyPrefix
| InvalidMaxFileSize (value : string)
| SupportedTypesPrefix (value : string)
| InvalidSizeFormat (size_str : string)
| CouldNotParseSize (size_str : string)
| InvalidSize (size_str : string) (e : cause)
| Frozen (name : string).

(** One constructor per [raise ModelValidationError(...)] of [models.py]. *)
Inductive model_error : Type :=
| MissingField (name : string)
| NotAString (name : string)
| PathTraversal
| NotPdf
| ContentTooLarge
| ScoreNotANumber
| AnalysisScoreRange
| ScoreRange
| CriteriaScoreNotANumber (criterion : string)
| Immutable.

Inductive exn : Type :=
| ConfigError (e : config_error)
| ModelValidationError (e : model_error)
| OverflowError | TypeError | AttributeError | ValueError | KeyError
| ZeroDivisionError.

Inductive except (A : Type) : Type :=
| Ok (a : A)
| Raise (e : exn).
Arguments Ok {A} a.
Arguments Raise {A} e.

#[global] Instance except_ret : MRet except := fun A a => Ok a.
#[global] Instance except_bind : MBind except := fun A B f m =>
  match m with
  | Ok a => f a
  | Raise e => Raise e
  end.

Local Open Scope string_scope.

(** The message texts (the text of the inner exception that [InvalidSize]
    appends is left out). *)
Definition config_error_message (e : config_error) : string :=
  match e with
  | MissingEnv key => "Missing required environment variable: " +:+ key
  | EmptyEnv key => "Environment variable " +:+ key +:+ " cannot be empty"
  | ApiKeyPrefix => "ANTHROPIC_API_KEY must start with 'sk-'"
  | InvalidMaxFileSize v => "Invalid MAX_FILE_SIZE format: " +:+ v
  | SupportedTypesPrefix v => "SUPPORTED_FILE_TYPES must start with '.': " +:+ v
  | InvalidSizeFormat s => "Invalid file size format: " +:+ s
  | CouldNotParseSize s => "Could not parse file size: " +:+ s
  | InvalidSize s _ => "Invalid file size: " +:+ s +:+ " - "
  | Frozen name => "Configuration is frozen. Cannot modify " +:+ name
  end.

Definition model_error_message (e : model_error) : string :=
  match e with
  | MissingField name => "Missing required field: " +:+ name
  | NotAString name => "Field '" +:+ name +:+ "' must be a string"
  | PathTraversal => "Invalid filename format - path traversal not allowed"
  | NotPdf => "Only PDF files are supported"
  | ContentTooLarge => "Content too large - maximum 10,000,000 characters allowed"
  | ScoreNotANumber => "Field 'analysis_score' must be a number"
  | AnalysisScoreRange => "Analysis score must be between 0 and 100"
  | ScoreRange => "Score must be between 0 and 100"
  | CriteriaScoreNotANumber c => "Criteria score for '" +:+ c +:+ "' must be a number"
  | Immutable => "AnalysisResult is immutable after creation"
  end.

Definition config_error_kind (e : config_error) : error_kind :=
  match e with
  | MissingEnv _ => MissingRequired
  | EmptyEnv _ => EmptyValue
  | Frozen _ => ImmutableViolation
  | _ => InvalidFormat
  end.

Definition model_error_kind (e : model_error) : error_kind :=
  match e with
  | MissingField _ => MissingRequired
  | PathTraversal | ContentTooLarge => SecurityRejected
  | AnalysisScoreRange | ScoreRange => OutOfRange
  | Immutable => ImmutableViolation
  | NotAString _ | NotPdf | ScoreNotANumber | CriteriaScoreNotANumber _ => InvalidFormat
  end.

(** The kind of an exception; the built-in exceptions have none. *)
Definition kind_of (e : exn) : option error_kind :=
  match e with
  | ConfigError c => Some (config_error_kind c)
  | ModelValidationError m => Some (model_error_kind m)
  | _ => None
  end.

(** [x / y] on floats. *)
Definition fdiv (x y : float) : except float :=
  match x, y with
  | _, Finite b =>
      if Qeq_bool b 0 then Raise ZeroDivisionError
      else match x with
           | Finite a => Ok (fl (a / b))
           | Infinity s => Ok (Infinity (xorb s (is_negative b)))
           | NaN => Ok NaN
           end
  | NaN, _ | _, NaN => Ok NaN
  | Infinity _, Infinity _ => Ok NaN
  | Finite _, Infinity _ => Ok (Finite 0)
  end.

(** [float(n)] for an [int]. *)
Definition float_of_int (n : Z) : except float :=
  match fl (inject_Z n) with
  | Finite q => Ok (Finite q)
  | _ => Raise OverflowError
  end.

(** [int(x)] for a [float]. *)
Definition int_of_float (x : float) : except Z :=
  match x with
  | Finite q => Ok (Qtrunc q)
  | Infinity _ => Raise OverflowError
  | NaN => Raise ValueError
  end.

(** [float(s)] for the decimal spellings [123], [123.45], [123.] and [.45].
    The other spellings Python accepts (exponents, signs, [inf], blanks)
    never reach it: the argument is group 1 of [size_groups_pattern]. *)
Fixpoint digits_value (s : string) (acc : Z) : Z :=
  match s with
  | EmptyString => acc
  | String c s' => digits_value s' (10 * acc + digit_val c)
  end.

Fixpoint all_digits (s : string) : bool :=
  match s with
  | EmptyString => true
  | String c s' => is_digit c && all_digits s'
  end.

Fixpoint split_dot (s : string) : string * option string :=
  match s with
  | EmptyString => (EmptyString, None)
  | String c s' =>
      if Ascii.eqb c "." then (EmptyString, Some s')
      else let '(a, b) := split_dot s' in (String c a, b)
  end.

Definition decimal_value (ip fp : string) : Q :=
  inject_Z (digits_value (ip +:+ fp) 0) / inject_Z (10 ^ len fp).

Definition float_of_str (s : string) : except float :=
  let '(ip, frac) := split_dot s in
  let fp := match frac with Some f => f | None => EmptyString end in
  if all_digits ip && all_digits fp && (nonempty ip || nonempty fp)
  then Ok (fl (decimal_value ip fp))
  else Raise ValueError.

(** ** [datetime]

    A datetime as [isoformat] writes it: the wall-clock fields and the
    offset from UTC in whole minutes, [None] for a naive one.  A time zone
    is present only as the offset it gives at that time; the [tzinfo]
    object, its name and [fold] are not part of the record, and an offset
    with seconds is outside it.  Two datetimes are therefore equal here
    exactly when they are written the same, and a statement about a
    timestamp holds at that precision.

    [isoformat] is the format Python writes; [fromisoformat] reads the
    complete form [isoformat] writes (separator [T] or any other single
    character), which is the only form the statements rely on: the
    shorter forms Python also reads (a date alone, hours and minutes
    alone, a fraction of three digits) are not read here. *)

Local Open Scope Z_scope.

Record datetime : Type := mkDatetime {
  year : Z; month : Z; day : Z;
  hour : Z; minute : Z; second : Z; microsecond : Z;
  utcoffset : option Z
}.

Definition is_leap (y : Z) : bool :=
  ((y mod 4 =? 0) && negb (y mod 100 =? 0)) || (y mod 400 =? 0).

Definition days_in_month (y m : Z) : Z :=
  if m =? 2 then (if is_leap y then 29 else 28)
  else if (m =? 4) || (m =? 6) || (m =? 9) || (m =? 11) then 30 else 31.

Definition in_range (lo x hi : Z) : bool := (lo <=? x) && (x <=? hi).

(** The invariant of every [datetime] object. *)
Definition valid_datetime (d : datetime) : bool :=
  in_range 1 (year d) 9999 && in_range 1 (month d) 12 &&
  in_range 1 (day d) (days_in_month (year d) (month d)) &&
  in_range 0 (hour d) 23 && in_range 0 (minute d) 59 && in_range 0 (second d) 59 &&
  in_range 0 (microsecond d) 999999 &&
  match utcoffset d with
  | None => true
  | Some off => in_range (-1439) off 1439
  end.

Definition digit_char (n : Z) : ascii := chr (48 + n).

(** [n] written with exactly [k] decimal digits (as [%0kd] does for
    [0 <= n < 10^k]). *)
Fixpoint zpad (k : nat) (n : Z) : string :=
  match k with
  | O => EmptyString
  | S k' => String (digit_char ((n / 10 ^ Z.of_nat k') mod 10)) (zpad k' n)
  end.

Definition iso_offset (off : option Z) : string :=
  match off with
  | None => ""
  | Some o =>
      (if o <? 0 then "-" else "+") +:+ zpad 2 (Z.abs o / 60) +:+ ":" +:+ zpad 2 (Z.abs o mod 60)
  end.

(** [d.isoformat()] *)
Definition isoformat (d : datetime) : string :=
  zpad 4 (year d) +:+ "-" +:+ zpad 2 (month d) +:+ "-" +:+ zpad 2 (day d) +:+ "T" +:+
  zpad 2 (hour d) +:+ ":" +:+ zpad 2 (minute d) +:+ ":" +:+ zpad 2 (second d) +:+
  (if microsecond d =? 0 then "" else "." +:+ zpad 6 (microsecond d)) +:+
  iso_offset (utcoffset d).

(** Read exactly [k] digits. *)
Fixpoint take_digits (k : nat) (s : string) (acc : Z) : option (Z * string) :=
  match k with
  | O => Some (acc, s)
  | S k' =>
      match s with
      | String c s' => if is_digit c then take_digits k' s' (10 * acc + digit_val c) else None
      | EmptyString => None
      end
  end.

Definition expect (a : ascii) (s : string) : option string :=
  match s with
  | String c s' => if Ascii.eqb c a then Some s' else None
  | EmptyString => None
  end.

Definition any_char (s : string) : option string :=
  match s with
  | String _ s' => Some s'
  | EmptyString => None
  end.

Definition parse_fraction (s : string) : option (Z * string) :=
  match s with
  | String "." s' => take_digits 6 s' 0
  | _ => Some (0, s)
  end.

Definition parse_offset (s : string) : option (option Z) :=
  match s with
  | EmptyString => Some None
  | String c s' =>
      if Ascii.eqb c "+" || Ascii.eqb c "-" then
        '(h, s1) ← take_digits 2 s' 0;
        s2 ← expect ":" s1;
        '(m, s3) ← take_digits 2 s2 0;
        match s3 with
        | EmptyString =>
            let o := 60 * h + m in
            Some (Some (if Ascii.eqb c "-" then - o else o))
        | _ => None
        end
      else None
  end.

Definition parse_iso (s : string) : option datetime :=
  '(y, s) ← take_digits 4 s 0;
  s ← expect "-" s;
  '(mo, s) ← take_digits 2 s 0;
  s ← expect "-" s;
  '(d, s) ← take_digits 2 s 0;
  s ← any_char s;
  '(h, s) ← take_digits 2 s 0;
  s ← expect ":" s;
  '(mi, s) ← take_digits 2 s 0;
  s ← expect ":" s;
  '(se, s) ← take_digits 2 s 0;
  '(us, s) ← parse_fraction s;
  off ← parse_offset s;
  Some (mkDatetime y mo d h mi se us off).

(** [datetime.fromisoformat(s)] *)
Definition fromisoformat (s : string) : except datetime :=
  match parse_iso s with
  | Some d => if valid_datetime d then Ok d else Raise ValueError
  | None => Raise ValueError
  end.

(** ** Python values and objects

    The values the two modules are given: [None], numbers, strings,
    lists, dictionaries with string keys, datetimes and the logger, each
    of exactly the built-in type.  A statement about the values that are
    not of some type names the types it covers. *)

#[warnings="-register-all"]
Inductive pyval : Type :=
| PNone
| PBool (b : bool)
| PInt (n : Z)
| PFloat (x : float)
| PStr (s : string)
| PList (l : list pyval)
| PDict (d : list (string * pyval))     (* insertion-ordered, string keys *)
| PDatetime (t : datetime)
| PLogger.

(** [bool(v)] *)
Definition truthy (v : pyval) : bool :=
  match v with
  | PNone => false
  | PBool b => b
  | PInt n => negb (n =? 0)
  | PFloat (Finite q) => negb (Qeq_bool q 0)
  | PFloat _ => true
  | PStr s => nonempty s
  | PList l => match l with [] => false | _ => true end
  | PDict d => match d with [] => false | _ => true end
  | PDatetime _ | PLogger => true
  end.

Definition is_none (v : pyval) : bool := match v with PNone => true | _ => false end.
(** [isinstance(v, str)] *)
Definition is_str (v : pyval) : bool := match v with PStr _ => true | _ => false end.
(** [isinstance(v, (int, float))]; [bool] is a subclass of [int]. *)
Definition is_number (v : pyval) : bool :=
  match v with PBool _ | PInt _ | PFloat _ => true | _ => false end.

(** The float a number is converted to when it meets a float operand. *)
Definition as_float (v : pyval) : except float :=
  match v with
  | PFloat x => Ok x
  | PInt n => float_of_int n
  | PBool b => float_of_int (Z.b2z b)
  | _ => Raise TypeError
  end.

(** [v * w] for a float [w]. *)
Definition mul_float (v : pyval) (w : float) : except float :=
  x ← as_float v; Ok (fmul x w).

(** [n <= v] and [v <= n] for an [int] literal [n]: integers and floats
    compare by exact value. *)
Definition int_le_val (n : Z) (v : pyval) : except bool :=
  match v with
  | PInt m => Ok (n <=? m)
  | PBool b => Ok (n <=? Z.b2z b)
  | PFloat x => Ok (fle (Finite (inject_Z n)) x)
  | _ => Raise TypeError
  end.

Definition val_le_int (v : pyval) (n : Z) : except bool :=
  match v with
  | PInt m => Ok (m <=? n)
  | PBool b => Ok (Z.b2z b <=? n)
  | PFloat x => Ok (fle x (Finite (inject_Z n)))
  | _ => Raise TypeError
  end.

(** [lo <= v <= hi] *)
Definition between (lo : Z) (v : pyval) (hi : Z) : except bool :=
  a ← int_le_val lo v; if a : bool then val_le_int v hi else Ok false.

(** Dictionaries as ordered association lists. *)
Fixpoint dict_get {A : Type} (k : string) (d : list (string * A)) : option A :=
  match d with
  | [] => None
  | (k', v) :: d' => if String.eqb k' k then Some v else dict_get k d'
  end.

(** [d[k] = v]: in place when the key exists, appended otherwise. *)
Fixpoint dict_set {A : Type} (k : string) (v : A) (d : list (string * A)) : list (string * A) :=
  match d with
  | [] => [(k, v)]
  | (k', v') :: d' => if String.eqb k' k then (k', v) :: d' else (k', v') :: dict_set k v d'
  end.

Definition mem (k : string) (ks : list string) : bool := existsb (String.eqb k) ks.

(** [self.name] on an instance dictionary. *)
Definition getattr (self : gmap string pyval) (name : string) : except pyval :=
  match self !! name with
  | Some v => Ok v
  | None => Raise AttributeError
  end.

(** The default [object.__setattr__]. *)
Definition object_setattr (self : gmap string pyval) (name : string) (value : pyval)
  : gmap string pyval := <[name := value]> self.

(** A value used where the code calls a [str] method on it. *)
Definition as_str (v : pyval) : except string :=
  match v with
  | PStr s => Ok s
  | _ => Raise AttributeError
  end.

(* ------------------------------------------------------------------ *)
(** ** [config.py] *)

Definition DEFAULT_MAX_FILE_SIZE : string := "10MB".
Definition DEFAULT_SUPPORTED_FILE_TYPES : string := ".pdf".

Definition FILE_SIZE_UNITS : list (string * Z) :=
  [("B", 1); ("KB", 1024); ("MB", 1024 ^ 2); ("GB", 1024 ^ 3); ("TB", 1024 ^ 4)].

(** [Config._is_valid_file_size] *)
Definition _is_valid_file_size (size_str : string) : bool :=
  match re_match size_pattern (upper size_str) with
  | Some _ => true
  | None => false
  end.

(** [Config._parse_file_size_to_bytes] *)
Definition _parse_file_size_to_bytes (size_str : string) : except Z :=
  if negb (_is_valid_file_size size_str)
  then Raise (ConfigError (InvalidSizeFormat size_str))
  else
    let size_str := upper size_str in
    match re_match size_groups_pattern size_str with
    | None => Raise (ConfigError (CouldNotParseSize size_str))
    | Some [number; unit] =>
        let body : except Z :=
          x ← float_of_str number;
          m ← match dict_get unit FILE_SIZE_UNITS with
              | Some m => Ok m
              | None => Raise KeyError
              end;
          k ← float_of_int m;
          int_of_float (fmul x k) in
        match body with
        | Ok size_bytes => Ok size_bytes
        | Raise ValueError => Raise (ConfigError (InvalidSize size_str CauseValueError))
        | Raise KeyError => Raise (ConfigError (InvalidSize size_str CauseKeyError))
        | Raise e => Raise e
        end
    | Some _ => Raise ValueError
    end.

(** [Config._get_required_env] *)
Definition _get_required_env (environ : gmap string string) (key : string) : except string :=
  match environ !! key with
  | None => Raise (ConfigError (MissingEnv key))
  | Some raw_value =>
      let value := strip raw_value in
      if negb (nonempty value) then Raise (ConfigError (EmptyEnv key)) else Ok value
  end.

(** [Config._get_optional_env] *)
Definition _get_optional_env (environ : gmap string string) (key default : string) : string :=
  match environ !! key with
  | None => default
  | Some raw_value =>
      let value := strip raw_value in
      if negb (nonempty value) then default else value
  end.

Definition hex_digit (n : Z) : ascii :=
  if n <? 10 then chr (48 + n) else chr (87 + n).

Definition hex_byte (b : ascii) : string :=
  String (hex_digit (code b / 16)) (String (hex_digit (code b mod 16)) EmptyString).

(** [secrets.token_hex(nbytes)]: [nbytes] bytes of the system's random
    source [urandom], in hexadecimal. *)
Definition token_hex (urandom : nat -> ascii) (nbytes : nat) : string :=
  fold_right (fun i acc => hex_byte (urandom i) +:+ acc) EmptyString (seq 0 nbytes).

(** [Config._generate_secret_key] *)
Definition _generate_secret_key (urandom : nat -> ascii) : string := token_hex urandom 32.

(** [Config.__setattr__] *)
Definition Config_setattr (self : gmap string pyval) (name : string) (value : pyval)
  : except (gmap string pyval) :=
  let frozen :=
    match self !! "_frozen" with      (* hasattr(self, '_frozen') and self._frozen *)
    | Some f => truthy f
    | None => false
    end in
  if frozen then Raise (ConfigError (Frozen name))
  else Ok (object_setattr self name value).

(** [Config.validate] *)
Definition Config_validate (self : gmap string pyval) : except unit :=
  key ← getattr self "anthropic_api_key" ≫= as_str;
  if negb (startswith key "sk-") then Raise (ConfigError ApiKeyPrefix) else
  size ← getattr self "max_file_size" ≫= as_str;
  if negb (_is_valid_file_size size) then Raise (ConfigError (InvalidMaxFileSize size)) else
  types ← getattr self "supported_file_types" ≫= as_str;
  if negb (startswith types ".") then Raise (ConfigError (SupportedTypesPrefix types)) else
  Ok tt.

(** The environment [os.environ] after [_load_dotenv_if_available]:
    [load_dotenv()] adds the variables of the [.env] file that are not set
    yet ([dotenv_file] is empty when there is no file or no python-dotenv). *)
Definition effective_environ (load_dotenv : bool) (dotenv_file environ : gmap string string)
  : gmap string string :=
  if load_dotenv then environ ∪ dotenv_file else environ.

(** [Config.__init__] *)
Definition Config_init (load_dotenv : bool) (dotenv_file environ : gmap string string)
    (urandom : nat -> ascii) : except (gmap string pyval) :=
  let environ := effective_environ load_dotenv dotenv_file environ in
  self ← Config_setattr ∅ "logger" PLogger;
  key ← _get_required_env environ "ANTHROPIC_API_KEY";
  self ← Config_setattr self "anthropic_api_key" (PStr key);
  self ← Config_setattr self "flask_secret_key"
           (PStr (_get_optional_env environ "FLASK_SECRET_KEY" (_generate_secret_key urandom)));
  self ← Config_setattr self "max_file_size"
           (PStr (_get_optional_env environ "MAX_FILE_SIZE" DEFAULT_MAX_FILE_SIZE));
  self ← Config_setattr self "supported_file_types"
           (PStr (_get_optional_env environ "SUPPORTED_FILE_TYPES" DEFAULT_SUPPORTED_FILE_TYPES));
  size ← getattr self "max_file_size" ≫= as_str;
  bytes ← _parse_file_size_to_bytes size;
  self ← Config_setattr self "max_file_size_bytes" (PInt bytes);
  _ ← Config_validate self;
  Config_setattr self "_frozen" (PBool true).

(* ------------------------------------------------------------------ *)
(** ** [models.py]: [RFPProposal] *)

Definition RFPProposal_fields : list string :=
  ["id"; "filename"; "content"; "extracted_data"; "analysis_score"; "created_at"].

Definition model_error_raise {A : Type} (e : model_error) : except A :=
  Raise (ModelValidationError e).

(** [RFPProposal._validate] *)
Definition RFPProposal_validate (self : gmap string pyval) : except unit :=
  id ← getattr self "id";
  filename ← getattr self "filename";
  content ← getattr self "content";
  (* Check required fields *)
  if is_none id || negb (truthy id) then model_error_raise (MissingField "id") else
  if is_none filename || negb (truthy filename) then model_error_raise (MissingField "filename") else
  if is_none content || negb (truthy content) then model_error_raise (MissingField "content") else
  (* Check field types *)
  if negb (is_str id) then model_error_raise (NotAString "id") else
  if negb (is_str filename) then model_error_raise (NotAString "filename") else
  if negb (is_str content) then model_error_raise (NotAString "content") else
  filename ← as_str filename;
  content ← as_str content;
  (* path traversal *)
  if contains "../" filename || contains "\" filename then model_error_raise PathTraversal else
  (* file extension *)
  if negb (endswith (lower filename) ".pdf") then model_error_raise NotPdf else
  (* content length *)
  let max_content_length := 10000000 in
  if len content >? max_content_length then model_error_raise ContentTooLarge else
  (* optional fields *)
  analysis_score ← getattr self "analysis_score";
  if negb (is_none analysis_score) then
    if negb (is_number analysis_score) then model_error_raise ScoreNotANumber else
    ok ← between 0 analysis_score 100;
    if negb ok then model_error_raise AnalysisScoreRange else Ok tt
  else Ok tt.

(** A keyword argument, or the default of the field. *)
Definition kwarg (kwargs : list (string * pyval)) (name : string) (default : pyval) : pyval :=
  match dict_get name kwargs with
  | Some v => v
  | None => default
  end.

Definition unknown_keyword (fields : list string) (kwargs : list (string * pyval)) : bool :=
  existsb (fun '(k, _) => negb (mem k fields)) kwargs.

(** [RFPProposal] called with keyword arguments: the generated [__init__] stores the fields
    (the class has no [__setattr__] of its own), then [__post_init__]
    validates.  [now] is what [datetime.now()] returns. *)
Definition RFPProposal_new (kwargs : list (string * pyval)) (now : datetime)
  : except (gmap string pyval) :=
  if unknown_keyword RFPProposal_fields kwargs then Raise TypeError else
  let self := object_setattr ∅ "id" (kwarg kwargs "id" PNone) in
  let self := object_setattr self "filename" (kwarg kwargs "filename" PNone) in
  let self := object_setattr self "content" (kwarg kwargs "content" PNone) in
  let self := object_setattr self "extracted_data" (kwarg kwargs "extracted_data" (PDict [])) in
  let self := object_setattr self "analysis_score" (kwarg kwargs "analysis_score" PNone) in
  let self := object_setattr self "created_at" (kwarg kwargs "created_at" (PDatetime now)) in
  _ ← RFPProposal_validate self;
  Ok self.

(** Assignment to an attribute of an [RFPProposal]: the class is a plain
    dataclass, so this is the default [object.__setattr__]. *)
Definition RFPProposal_setattr (self : gmap string pyval) (name : string) (value : pyval)
  : except (gmap string pyval) := Ok (object_setattr self name value).

(** [v.isoformat()] *)
Definition call_isoformat (v : pyval) : except string :=
  match v with
  | PDatetime t => Ok (isoformat t)
  | _ => Raise AttributeError
  end.

(** [RFPProposal.to_dict] *)
Definition RFPProposal_to_dict (self : gmap string pyval) : except (list (string * pyval)) :=
  id ← getattr self "id";
  filename ← getattr self "filename";
  content ← getattr self "content";
  extracted_data ← getattr self "extracted_data";
  analysis_score ← getattr self "analysis_score";
  created_at ← getattr self "created_at" ≫= call_isoformat;
  Ok [("id", id); ("filename", filename); ("content", content);
      ("extracted_data", extracted_data); ("analysis_score", analysis_score);
      ("created_at", PStr created_at)].

(** The common head of both [from_dict]s: copy the dictionary and parse a
    textual [created_at]. *)
Definition parse_created_at (data : list (string * pyval)) : except (list (string * pyval)) :=
  match dict_get "created_at" data with
  | Some (PStr s) =>
      t ← fromisoformat (replace_char "Z" "+00:00" s);
      Ok (dict_set "created_at" (PDatetime t) data)
  | _ => Ok data
  end.

Definition filter_known (known : list string) (data : list (string * pyval))
  : list (string * pyval) :=
  List.filter (fun '(k, _) => mem k known) data.

(** [RFPProposal.from_dict] *)
Definition RFPProposal_from_dict (data : list (string * pyval)) (now : datetime)
  : except (gmap string pyval) :=
  proposal_data ← parse_created_at data;
  let filtered_data := filter_known RFPProposal_fields proposal_data in
  RFPProposal_new filtered_data now.

(* ------------------------------------------------------------------ *)
(** ** [models.py]: [AnalysisResult] *)

Local Open Scope Q_scope.

(** [0.30], [0.25], ... are the floats nearest to these decimals. *)
Definition DEFAULT_CRITERIA_WEIGHTS : list (string * float) :=
  [("price", fl (30 # 100)); ("technical_approach", fl (25 # 100));
   ("experience", fl (20 # 100)); ("timeline", fl (15 # 100)); ("risk", fl (10 # 100))].

Local Open Scope Z_scope.

Definition AnalysisResult_fields : list string :=
  ["proposal_id"; "criteria_scores"; "overall_score"; "strengths"; "concerns";
   "recommendation_rank"; "created_at"].

(** [self._frozen]: the instance attribute, or the class-level default
    [False] of the dataclass field. *)
Definition AnalysisResult_frozen (self : gmap string pyval) : pyval :=
  match self !! "_frozen" with
  | Some v => v
  | None => PBool false
  end.

(** [AnalysisResult.__setattr__] *)
Definition AnalysisResult_setattr (self : gmap string pyval) (name : string) (value : pyval)
  : except (gmap string pyval) :=
  if truthy (AnalysisResult_frozen self) then model_error_raise Immutable
  else Ok (object_setattr self name value).

(** [d.items()] *)
Definition items (v : pyval) : except (list (string * pyval)) :=
  match v with
  | PDict d => Ok d
  | _ => Raise AttributeError
  end.

(** The loop over the criteria of [_validate]. *)
Fixpoint validate_scores (its : list (string * pyval)) : except unit :=
  match its with
  | [] => Ok tt
  | (criterion, score) :: rest =>
      if negb (is_number score) then model_error_raise (CriteriaScoreNotANumber criterion) else
      ok ← between 0 score 100;
      if negb ok then model_error_raise ScoreRange else validate_scores rest
  end.

(** [AnalysisResult._validate] *)
Definition AnalysisResult_validate (self : gmap string pyval) : except unit :=
  proposal_id ← getattr self "proposal_id";
  if negb (truthy proposal_id) then model_error_raise (MissingField "proposal_id") else
  criteria_scores ← getattr self "criteria_scores";
  if negb (truthy criteria_scores) then model_error_raise (MissingField "criteria_scores") else
  overall_score ← getattr self "overall_score";
  _ ← (if negb (is_none overall_score) then
         ok ← between 0 overall_score 100;
         if negb ok then model_error_raise ScoreRange else Ok tt
       else Ok tt);
  its ← items criteria_scores;
  validate_scores its.

(** The weight of one criterion:
    [DEFAULT_CRITERIA_WEIGHTS.get(criterion, 1.0 / len(criteria_scores))]. *)
Definition criterion_weight (count : nat) (criterion : string) : except float :=
  n ← float_of_int (Z.of_nat count);
  equal_share ← fdiv (Finite 1) n;
  Ok (match dict_get criterion DEFAULT_CRITERIA_WEIGHTS with
      | Some w => w
      | None => equal_share
      end).

(** The loop of [_calculate_overall_score]; the accumulator is
    [(total_score, total_weight)]. *)
Fixpoint accumulate (count : nat) (its : list (string * pyval)) (acc : float * float)
  : except (float * float) :=
  match its with
  | [] => Ok acc
  | (criterion, score) :: rest =>
      weight ← criterion_weight count criterion;
      term ← mul_float score weight;
      accumulate count rest (fadd (fst acc) term, fadd (snd acc) weight)
  end.

(** [AnalysisResult._calculate_overall_score] *)
Definition _calculate_overall_score (self : gmap string pyval) : except float :=
  its ← getattr self "criteria_scores" ≫= items;
  '(total_score, total_weight) ← accumulate (length its) its (Finite 0, Finite 0);
  ratio ← (if flt (Finite 0) total_weight then fdiv total_score total_weight
           else Ok (Finite 0));
  Ok (round2 ratio).

(** [AnalysisResult.__post_init__] *)
Definition AnalysisResult_post_init (self : gmap string pyval) : except (gmap string pyval) :=
  _ ← AnalysisResult_validate self;
  overall_score ← getattr self "overall_score";
  self ← (if is_none overall_score then
            score ← _calculate_overall_score self;
            AnalysisResult_setattr self "overall_score" (PFloat score)
          else Ok self);
  Ok (object_setattr self "_frozen" (PBool true)).

(** [AnalysisResult] called with keyword arguments: the generated [__init__] assigns the
    fields through [__setattr__], then runs [__post_init__]. *)
Definition AnalysisResult_new (kwargs : list (string * pyval)) (now : datetime)
  : except (gmap string pyval) :=
  if unknown_keyword AnalysisResult_fields kwargs then Raise TypeError else
  match dict_get "proposal_id" kwargs, dict_get "criteria_scores" kwargs with
  | Some proposal_id, Some criteria_scores =>
      self ← AnalysisResult_setattr ∅ "proposal_id" proposal_id;
      self ← AnalysisResult_setattr self "criteria_scores" criteria_scores;
      self ← AnalysisResult_setattr self "overall_score" (kwarg kwargs "overall_score" PNone);
      self ← AnalysisResult_setattr self "strengths" (kwarg kwargs "strengths" (PList []));
      self ← AnalysisResult_setattr self "concerns" (kwarg kwargs "concerns" (PList []));
      self ← AnalysisResult_setattr self "recommendation_rank"
               (kwarg kwargs "recommendation_rank" PNone);
      self ← AnalysisResult_setattr self "created_at" (kwarg kwargs "created_at" (PDatetime now));
      AnalysisResult_post_init self
  | _, _ => Raise TypeError
  end.

(** [AnalysisResult.to_dict] *)
Definition AnalysisResult_to_dict (self : gmap string pyval) : except (list (string * pyval)) :=
  proposal_id ← getattr self "proposal_id";
  overall_score ← getattr self "overall_score";
  criteria_scores ← getattr self "criteria_scores";
  strengths ← getattr self "strengths";
  concerns ← getattr self "concerns";
  recommendation_rank ← getattr self "recommendation_rank";
  created_at ← getattr self "created_at" ≫= call_isoformat;
  Ok [("proposal_id", proposal_id); ("overall_score", overall_score);
      ("criteria_scores", criteria_scores); ("strengths", strengths);
      ("concerns", concerns); ("recommendation_rank", recommendation_rank);
      ("created_at", PStr created_at)].

(** [AnalysisResult.from_dict] *)
Definition AnalysisResult_from_dict (data : list (string * pyval)) (now : datetime)
  : except (gmap string pyval) :=
  result_data ← parse_created_at data;
  let filtered_data := filter_known AnalysisResult_fields result_data in
  AnalysisResult_new filtered_data now.

(* ------------------------------------------------------------------ *)
(** ** The specification's notions *)

(** The object after an attempted assignment: an exception raised by
    [__setattr__] leaves it as it was. *)
Definition state_after (self : gmap string pyval) (r : except (gmap string pyval))
  : gmap string pyval :=
  match r with
  | Ok self' => self'
  | Raise _ => self
  end.

(** What a regular expression matches: [denote r (i, s) (j, s')] when [r]
    can consume [s] down to [s'], starting after [i] characters. *)
Fixpoint all_in (p : ascii -> bool) (s : string) : bool :=
  match s with
  | EmptyString => true
  | String c s' => p c && all_in p s'
  end.

Fixpoint denote (r : regex) (a b : cursor) : Prop :=
  match r with
  | Cls p => exists c, snd a = String c (snd b) /\ p c = true /\ fst b = S (fst a)
  | Many1 p =>
      exists ds, nonempty ds = true /\ all_in p ds = true /\
                 snd a = ds +:+ snd b /\ fst b = (fst a + String.length ds)%nat
  | Seq r1 r2 => exists m, denote r1 a m /\ denote r2 m b
  | Opt r' => denote r' a b \/ b = a
  | Group r' => denote r' a b
  | Bol => fst a = 0%nat /\ b = a
  | Eol => (snd a = EmptyString \/ snd a = String "010" EmptyString) /\ b = a
  end.

(** [s] matches [r] (as [re.match] understands it: from the start of [s]). *)
Definition matches (r : regex) (s : string) : Prop :=
  exists b, denote r (0%nat, s) b.

(** [s] matches [r] up to the case of its letters. *)
Definition matches_ignoring_case (r : regex) (s : string) : Prop :=
  exists s', upper s' = upper s /\ matches r s'.

(** The shape of a size text: digits, an optional fraction, an optional
    unit prefix, [B], and the final newline that [$] tolerates. *)
Definition fraction_text (fp : option string) : string :=
  match fp with
  | Some f => String "." f
  | None => EmptyString
  end.

Definition unit_text (u : option ascii) : string :=
  match u with
  | Some c => String c "B"
  | None => "B"
  end.

Definition newline_text (nl : bool) : string :=
  if nl then String "010" EmptyString else EmptyString.

Definition size_text (ip : string) (fp : option string) (u : option ascii) (nl : bool) : string :=
  ip +:+ fraction_text fp +:+ unit_text u +:+ newline_text nl.

Definition well_formed_size (ip : string) (fp : option string) (u : option ascii) : Prop :=
  nonempty ip = true /\ all_in is_digit ip = true /\
  (forall f, fp = Some f -> nonempty f = true /\ all_in is_digit f = true) /\
  (forall c, u = Some c -> one_of "KMGT" c = true).

Definition fraction_digits (fp : option string) : string :=
  match fp with
  | Some f => f
  | None => EmptyString
  end.

(** The multiplier of a unit: B=1, KB=1024, MB=1024^2, GB=1024^3, TB=1024^4. *)
Definition unit_multiplier (u : option ascii) : Z :=
  match dict_get (unit_text u) FILE_SIZE_UNITS with
  | Some m => m
  | None => 0
  end.

(** The byte count as the specification words it: the numeric literal
    times the multiplier, truncated to an integer. *)
Definition exact_size_bytes (ip : string) (fp : option string) (u : option ascii) : Z :=
  Qtrunc (decimal_value ip (fraction_digits fp) * inject_Z (unit_multiplier u)).

(** The byte count in binary64: the float nearest to the literal, times
    the multiplier. *)
Definition float_size (ip : string) (fp : option string) (u : option ascii) : float :=
  fmul (fl (decimal_value ip (fraction_digits fp))) (Finite (inject_Z (unit_multiplier u))).

(** The weighted mean as the specification words it, evaluated in binary64
    in the order of the mapping: the weight of a criterion, the two sums,
    their quotient rounded to two decimals. *)
Definition spec_weight (count : nat) (criterion : string) : float :=
  match dict_get criterion DEFAULT_CRITERIA_WEIGHTS with
  | Some w => w
  | None => fl (1 / inject_Z (Z.of_nat count))
  end.

Definition score_float (v : pyval) : float :=
  match v with
  | PFloat x => x
  | PInt n => fl (inject_Z n)
  | PBool b => Finite (inject_Z (Z.b2z b))
  | _ => NaN
  end.

Definition weighted_sum (cs : list (string * pyval)) : float :=
  fold_left fadd
    (map (fun '(c, s) => fmul (score_float s) (spec_weight (length cs) c)) cs) (Finite 0).

Definition weight_sum (cs : list (string * pyval)) : float :=
  fold_left fadd (map (fun '(c, _) => spec_weight (length cs) c) cs) (Finite 0).

Definition weighted_mean (cs : list (string * pyval)) : except float :=
  q ← fdiv (weighted_sum cs) (weight_sum cs); Ok (round2 q).

(** A score within [0, 100]. *)
Definition score_in_range (v : pyval) : Prop := between 0 v 100 = Ok true.

(** The keyword arguments of a proposal. *)
Definition proposal_kwargs (id filename content extracted_data analysis_score created_at : pyval)
  : list (string * pyval) :=
  [("id", id); ("filename", filename); ("content", content);
   ("extracted_data", extracted_data); ("analysis_score", analysis_score);
   ("created_at", created_at)].

(** A string of [n] copies of a character. *)
Fixpoint str_repeat (c : ascii) (n : nat) : string :=
  match n with
  | O => EmptyString
  | S n' => String c (str_repeat c n')
  end.

(** The instance dictionary the generated [__init__] of [RFPProposal]
    builds from its six arguments. *)
Definition proposal_obj (id filename content extracted_data analysis_score created_at : pyval)
  : gmap string pyval :=
  <["created_at" := created_at]> (<["analysis_score" := analysis_score]>
  (<["extracted_data" := extracted_data]> (<["content" := content]>
  (<["filename" := filename]> (<["id" := id]> ∅))))).

(** The instance dictionary a successful [Config.__init__] leaves. *)
Definition config_obj (key secret size types : string) (bytes : Z) : gmap string pyval :=
  <["_frozen" := PBool true]> (<["max_file_size_bytes" := PInt bytes]>
  (<["supported_file_types" := PStr types]> (<["max_file_size" := PStr size]>
  (<["flask_secret_key" := PStr secret]> (<["anthropic_api_key" := PStr key]>
  (<["logger" := PLogger]> ∅)))))).

(** A lower-case hexadecimal digit. *)
Definition is_hex (c : ascii) : bool :=
  is_digit c || ((97 <=? code c) && (code c <=? 102)).

(** An optional variable that is absent, or blank once trimmed. *)
Definition absent_or_blank (environ : gmap string string) (key : string) : Prop :=
  environ !! key = None \/ exists raw, environ !! key = Some raw /\ strip raw = EmptyString.

(** The optional settings: variable, attribute and documented default
    (the default of the session secret is generated from [urandom]). *)
Definition optional_settings (urandom : nat -> ascii) : list (string * string * string) :=
  [("FLASK_SECRET_KEY", "flask_secret_key", token_hex urandom 32);
   ("MAX_FILE_SIZE", "max_file_size", "10MB");
   ("SUPPORTED_FILE_TYPES", "supported_file_types", ".pdf")].

(** A decimal literal of 310 digits: [10^309], beyond the largest float. *)
Definition huge_size : string :=
  String "1" (str_repeat "0" 309) +:+ "B".

(** The instance dictionary the generated [__init__] of [AnalysisResult]
    builds from its seven arguments. *)
Definition analysis_obj
    (proposal_id criteria_scores overall_score strengths concerns recommendation_rank
       created_at : pyval) : gmap string pyval :=
  <["created_at" := created_at]> (<["recommendation_rank" := recommendation_rank]>
  (<["concerns" := concerns]> (<["strengths" := strengths]>
  (<["overall_score" := overall_score]> (<["criteria_scores" := criteria_scores]>
  (<["proposal_id" := proposal_id]> ∅)))))).

(** The dictionary [AnalysisResult.to_dict] writes. *)
Definition analysis_dict
    (proposal_id criteria_scores overall_score strengths concerns recommendation_rank
       created_at : pyval) : list (string * pyval) :=
  [("proposal_id", proposal_id); ("overall_score", overall_score);
   ("criteria_scores", criteria_scores); ("strengths", strengths);
   ("concerns", concerns); ("recommendation_rank", recommendation_rank);
   ("created_at", created_at)].

(** Sample values for the scenarios. *)
Definition sample_now : datetime := mkDatetime 2024 1 15 10 30 0 123456 None.

Definition sample_proposal : gmap string pyval :=
  proposal_obj (PStr "prop-001") (PStr "test.pdf") (PStr "test content")
    (PDict [("vendor", PStr "ACME Corp")]) (PInt 85) (PDatetime sample_now).

Definition sample_proposal_kwargs : list (string * pyval) :=
  [("id", PStr "prop-001"); ("filename", PStr "test.pdf"); ("content", PStr "test content");
   ("extracted_data", PDict [("vendor", PStr "ACME Corp")]); ("analysis_score", PInt 85);
   ("created_at", PDatetime sample_now)].


Definition sample_analysis_kwargs : list (string * pyval) :=
  [("proposal_id", PStr "prop-001"); ("overall_score", PFloat (Finite 85));
   ("criteria_scores", PDict [("price", PFloat (Finite 90))]);
   ("created_at", PDatetime sample_now)].

Definition sample_analysis : gmap string pyval :=
  <["_frozen" := PBool true]>
    (analysis_obj (PStr "prop-001") (PDict [("price", PFloat (Finite 90))]) (PFloat (Finite 85))
       (PList []) (PList []) PNone (PDatetime sample_now)).

Definition sample_environ : gmap string string :=
  <["ANTHROPIC_API_KEY" := "  sk-test-key-123 "]> (<["MAX_FILE_SIZE" := " 2.5MB"]> ∅).

Definition sample_urandom : nat -> ascii := fun _ => "A"%char.

Definition sample_config : gmap string pyval :=
  config_obj "sk-test-key-123" (token_hex sample_urandom 32) "2.5MB" ".pdf" 2621440.

(** [l] starts with [x]: the preferred match is [x]. *)
Definition starts {A : Type} (l : list A) (x : A) : Prop := exists l', l = x :: l'.

(** The next character, if any, is not of class [p]. *)
Definition stops (p : ascii -> bool) (s : string) : bool :=
  match s with
  | EmptyString => true
  | String c _ => negb (p c)
  end.


(** ** The scoring loop on rationals *)

Local Open Scope Q_scope.

(** The unit roundoff of binary64, half its least subnormal, and its
    overflow threshold. *)
Definition u64 : Q := 2 ^ (-53).
Definition eta64 : Q := 2 ^ (-1075).
Definition huge : Q := 2 ^ 1024.

(** The least weight and the largest number of criteria the analysis of
    the loop covers. *)
Definition wlo64 : Q := 2 ^ (-33).
Definition max_count : Q := inject_Z (2 ^ 32).

(** A weight the analysis covers. *)
Definition weight_in_range (w : float) : bool :=
  match w with
  | Finite q => Qle_bool wlo64 q && Qle_bool q 2
  | _ => false
  end.

(** The value of a number that passed validation. *)
Definition score_q (v : pyval) : Q :=
  match v with
  | PFloat (Finite q) => q
  | PInt n => inject_Z n
  | PBool b => inject_Z (Z.b2z b)
  | _ => 0
  end.

Definition weight_q (count : nat) (criterion : string) : Q :=
  match dict_get criterion DEFAULT_CRITERIA_WEIGHTS with
  | Some (Finite w) => w
  | Some _ => 0
  | None => rnd (1 / inject_Z (Z.of_nat count))
  end.

(** A criterion as the pair (score, weight) the loop works on. *)
Definition item_q (count : nat) (it : string * pyval) : Q * Q :=
  (score_q (snd it), weight_q count (fst it)).

(** One turn of the loop under a rounding operator [rd]. *)
Definition q_step (rd : Q -> Q) (acc : Q * Q) (sw : Q * Q) : Q * Q :=
  (rd (fst acc + rd (fst sw * snd sw)), rd (snd acc + snd sw)).

(** The invariant of the loop after [k] criteria, for a rounding of
    relative error [u]. *)
Definition q_inv (u k : Q) (acc : Q * Q) : Prop :=
  0 <= fst acc /\ fst acc <= 100 * snd acc * (1 + 4 * k * u) /\
  0 <= snd acc /\ snd acc <= 4 * k.

(** A score in [0, 100] with a weight in [wlo, 2]. *)
Definition q_good (wlo : Q) (sw : Q * Q) : Prop :=
  0 <= fst sw <= 100 /\ wlo <= snd sw <= 2.

(** The two scenarios of the weighted score. *)
Definition named_scores : list (string * pyval) :=
  [("price", PInt 80); ("technical_approach", PInt 90); ("experience", PInt 85);
   ("timeline", PInt 75); ("risk", PInt 70)].

Definition custom_scores : list (string * pyval) :=
  [("custom_a", PInt 100); ("custom_b", PInt 0)].

Definition scores_kwargs (cs : list (string * pyval)) : list (string * pyval) :=
  [("proposal_id", PStr "prop-001"); ("criteria_scores", PDict cs)].

Definition named_analysis : gmap string pyval :=
  <["_frozen" := PBool true]>
    (analysis_obj (PStr "prop-001") (PDict named_scores) (PFloat (Finite (327 # 4)))
       (PList []) (PList []) PNone (PDatetime sample_now)).

Definition custom_analysis : gmap string pyval :=
  <["_frozen" := PBool true]>
    (analysis_obj (PStr "prop-001") (PDict custom_scores) (PFloat (Finite 50))
       (PList []) (PList []) PNone (PDatetime sample_now)).

(** The weighted mean in exact arithmetic, with the decimal weights, and
    the rounding of a rational to two decimals (ties to even, or up). *)
Definition EXACT_WEIGHTS : list (string * Q) :=
  [("price", 30 # 100); ("technical_approach", 25 # 100); ("experience", 20 # 100);
   ("timeline", 15 # 100); ("risk", 10 # 100)].

Definition exact_weight (count : nat) (criterion : string) : Q :=
  match dict_get criterion EXACT_WEIGHTS with
  | Some w => w
  | None => 1 / inject_Z (Z.of_nat count)
  end.

Definition exact_mean (cs : list (string * pyval)) : Q :=
  fold_right (fun '(c, s) acc => score_q s * exact_weight (length cs) c + acc) 0 cs
  / fold_right (fun '(c, _) acc => exact_weight (length cs) c + acc) 0 cs.

Definition round_half_even (x : Q) : Q := inject_Z (rne (x * 100)) / 100.
Definition round_half_up (x : Q) : Q := inject_Z (Qfloor (x * 100 + (1 # 2))) / 100.

(** Scores whose exact mean, 0.30 / 0.80 = 0.375, is a tie between 0.37 and 0.38. *)
Definition tie_scores : list (string * pyval) :=
  [("price", PInt 1); ("technical_approach", PInt 0); ("timeline", PInt 0); ("risk", PInt 0)].

Definition tie_analysis : gmap string pyval :=
  <["_frozen" := PBool true]>
    (analysis_obj (PStr "prop-001") (PDict tie_scores) (PFloat (fl (37 # 100)))
       (PList []) (PList []) PNone (PDatetime sample_now)).

Local Open Scope Z_scope.

(* ------------------------------------------------------------------ *)
(** * Further code of the two modules *)

(* ------------------------------------------------------------------ *)
(** ** [config.py]: [Config.to_dict] *)


(** The outcomes of a load: the object, or one of these errors. *)
Definition load_error (size types : string) : list exn :=
  [ConfigError (MissingEnv "ANTHROPIC_API_KEY"); ConfigError (EmptyEnv "ANTHROPIC_API_KEY");
   ConfigError (InvalidSizeFormat size); OverflowError;
   ConfigError ApiKeyPrefix; ConfigError (SupportedTypesPrefix types)].


(** The datetime [t] moved to the given offset from UTC. *)
Definition with_offset (t : datetime) (off : Z) : datetime :=
  mkDatetime (year t) (month t) (day t) (hour t) (minute t) (second t) (microsecond t)
    (Some off).

(** [type(v)] *)
Inductive pytype : Type :=
| NoneType | bool_type | int_type | float_type | str_type | list_type | dict_type
| datetime_type | Logger_type.

Definition type_of (v : pyval) : pytype :=
  match v with
  | PNone => NoneType
  | PBool _ => bool_type
  | PInt _ => int_type
  | PFloat _ => float_type
  | PStr _ => str_type
  | PList _ => list_type
  | PDict _ => dict_type
  | PDatetime _ => datetime_type
  | PLogger => Logger_type
  end.

Local Open Scope Q_scope.

(** The invariant of the loop after [k] criteria that all have the score
    [s]: the weighted total stays near [s] times the total weight. *)
Definition q_near (u s k : Q) (acc : Q * Q) : Prop :=
  0 <= snd acc /\
  s * snd acc * (1 - 4 * k * u) <= fst acc /\
  fst acc <= s * snd acc * (1 + 4 * k * u).

Local Open Scope Z_scope.
(* ================================================================== *)
(** * Part II: properties                                              *)
(* ================================================================== *)

(** ** Strings *)


Lemma nonempty_str_repeat c n : (0 < n)%nat -> nonempty (str_repeat c n) = true.
Proof. destruct n; simpl; [lia | reflexivity]. Qed.

(** ** [RFPProposal]: construction *)

Lemma RFPProposal_new_kwargs id fn c ed sc cr now :
  RFPProposal_new (proposal_kwargs id fn c ed sc cr) now =
  (_ ← RFPProposal_validate (proposal_obj id fn c ed sc cr); Ok (proposal_obj id fn c ed sc cr)).
Proof. reflexivity. Qed.

Lemma proposal_obj_lookup id fn c ed sc cr :
  let self := proposal_obj id fn c ed sc cr in
  getattr self "id" = Ok id /\ getattr self "filename" = Ok fn /\ getattr self "content" = Ok c /\
  getattr self "extracted_data" = Ok ed /\ getattr self "analysis_score" = Ok sc /\
  getattr self "created_at" = Ok cr.
Proof. repeat split; reflexivity. Qed.

(** The validation of a proposal whose three required fields are strings,
    as one decision list. *)
Lemma validate_strings id fn c ed sc cr :
  RFPProposal_validate (proposal_obj (PStr id) (PStr fn) (PStr c) ed sc cr) =
  if negb (nonempty id) then model_error_raise (MissingField "id") else
  if negb (nonempty fn) then model_error_raise (MissingField "filename") else
  if negb (nonempty c) then model_error_raise (MissingField "content") else
  if contains "../" fn || contains "\" fn then model_error_raise PathTraversal else
  if negb (endswith (lower fn) ".pdf") then model_error_raise NotPdf else
  if len c >? 10000000 then model_error_raise ContentTooLarge else
  if negb (is_none sc) then
    if negb (is_number sc) then model_error_raise ScoreNotANumber else
    ok ← between 0 sc 100;
    if negb ok then model_error_raise AnalysisScoreRange else Ok tt
  else Ok tt.
Proof.
  unfold RFPProposal_validate.
  destruct (proposal_obj_lookup (PStr id) (PStr fn) (PStr c) ed sc cr) as (-> & -> & -> & _ & -> & _).
  cbn [mbind except_bind is_none is_str truthy negb orb as_str].
  destruct (nonempty id), (nonempty fn), (nonempty c); reflexivity.
Qed.

(** C6.  A proposal whose file name contains [../] or a backslash is
    rejected with the path-traversal error (kind SecurityRejected) whatever
    its extension is: the traversal check runs before the extension check.
    In particular [../../etc/passwd] is rejected that way, and
    [report.docx], which passes the traversal check, is rejected by the
    extension check (kind InvalidFormat). *)
Theorem C6_path_traversal_before_extension :
  (forall id fn c ed sc cr now,
      nonempty id = true -> nonempty fn = true -> nonempty c = true ->
      contains "../" fn || contains "\" fn = true ->
      RFPProposal_new (proposal_kwargs (PStr id) (PStr fn) (PStr c) ed sc cr) now
        = Raise (ModelValidationError PathTraversal)) /\
  (forall id fn c ed sc cr now,
      nonempty id = true -> nonempty fn = true -> nonempty c = true ->
      contains "../" fn || contains "\" fn = false ->
      endswith (lower fn) ".pdf" = false ->
      RFPProposal_new (proposal_kwargs (PStr id) (PStr fn) (PStr c) ed sc cr) now
        = Raise (ModelValidationError NotPdf)) /\
  model_error_kind PathTraversal = SecurityRejected /\
  model_error_kind NotPdf = InvalidFormat /\
  (forall id c ed sc cr now,
      nonempty id = true -> nonempty c = true ->
      RFPProposal_new (proposal_kwargs (PStr id) (PStr "../../etc/passwd") (PStr c) ed sc cr) now
        = Raise (ModelValidationError PathTraversal) /\
      RFPProposal_new (proposal_kwargs (PStr id) (PStr "report.docx") (PStr c) ed sc cr) now
        = Raise (ModelValidationError NotPdf)).
Proof.
  assert (A : forall id fn c ed sc cr now,
      nonempty id = true -> nonempty fn = true -> nonempty c = true ->
      contains "../" fn || contains "\" fn = true ->
      RFPProposal_new (proposal_kwargs (PStr id) (PStr fn) (PStr c) ed sc cr) now
        = Raise (ModelValidationError PathTraversal)).
  { intros id fn c ed sc cr now Hid Hfn Hc Ht.
    rewrite RFPProposal_new_kwargs, validate_strings, Hid, Hfn, Hc, Ht. reflexivity. }
  assert (B : forall id fn c ed sc cr now,
      nonempty id = true -> nonempty fn = true -> nonempty c = true ->
      contains "../" fn || contains "\" fn = false ->
      endswith (lower fn) ".pdf" = false ->
      RFPProposal_new (proposal_kwargs (PStr id) (PStr fn) (PStr c) ed sc cr) now
        = Raise (ModelValidationError NotPdf)).
  { intros id fn c ed sc cr now Hid Hfn Hc Ht He.
    rewrite RFPProposal_new_kwargs, validate_strings, Hid, Hfn, Hc, Ht, He. reflexivity. }
  split; [exact A | split; [exact B | ]].
  split; [reflexivity | split; [reflexivity | ]].
  intros id c ed sc cr now Hid Hc. split.
  - apply A; auto.
  - apply B; auto.
Qed.

Lemma C6_witness :
  RFPProposal_new
    (proposal_kwargs (PStr "p1") (PStr "..\evil.pdf") (PStr "text") (PDict []) PNone PNone)
    sample_now
  = Raise (ModelValidationError PathTraversal).
Proof.
  apply (proj1 C6_path_traversal_before_extension); reflexivity.
Defined.


(** ** [Config] *)

Lemma Config_init_unfold ld dot env ur :
  Config_init ld dot env ur =
  let E := effective_environ ld dot env in
  key ← _get_required_env E "ANTHROPIC_API_KEY";
  let secret := _get_optional_env E "FLASK_SECRET_KEY" (_generate_secret_key ur) in
  let size := _get_optional_env E "MAX_FILE_SIZE" DEFAULT_MAX_FILE_SIZE in
  let types := _get_optional_env E "SUPPORTED_FILE_TYPES" DEFAULT_SUPPORTED_FILE_TYPES in
  bytes ← _parse_file_size_to_bytes size;
  if negb (startswith key "sk-") then Raise (ConfigError ApiKeyPrefix) else
  if negb (_is_valid_file_size size) then Raise (ConfigError (InvalidMaxFileSize size)) else
  if negb (startswith types ".") then Raise (ConfigError (SupportedTypesPrefix types)) else
  Ok (config_obj key secret size types bytes).
Proof.
  unfold Config_init. cbv zeta.
  generalize (effective_environ ld dot env). intros E.
  change (Config_setattr ∅ "logger" PLogger)
    with (Ok (<["logger" := PLogger]> (∅ : gmap string pyval))).
  cbn [mbind except_bind].
  destruct (_get_required_env E "ANTHROPIC_API_KEY") as [key|e]; [|reflexivity].
  cbn [mbind except_bind].
  generalize (_get_optional_env E "FLASK_SECRET_KEY" (_generate_secret_key ur)). intros secret.
  generalize (_get_optional_env E "MAX_FILE_SIZE" DEFAULT_MAX_FILE_SIZE). intros size.
  generalize (_get_optional_env E "SUPPORTED_FILE_TYPES" DEFAULT_SUPPORTED_FILE_TYPES).
  intros types.
  repeat (match goal with
          | |- context [Config_setattr ?m ?n ?v] =>
              change (Config_setattr m n v) with (Ok (<[n := v]> m))
          end; cbn [mbind except_bind]).
  match goal with |- context [getattr ?m "max_file_size"] =>
    change (getattr m "max_file_size") with (Ok (A:=pyval) (PStr size)) end.
  cbn [mbind except_bind as_str].
  destruct (_parse_file_size_to_bytes size) as [bytes|e]; [|reflexivity].
  cbn [mbind except_bind].
  repeat (match goal with
          | |- context [Config_setattr ?m "max_file_size_bytes" ?v] =>
              change (Config_setattr m "max_file_size_bytes" v)
                with (Ok (<["max_file_size_bytes" := v]> m))
          end; cbn [mbind except_bind]).
  unfold Config_validate.
  match goal with |- context [getattr ?m "anthropic_api_key"] =>
    change (getattr m "anthropic_api_key") with (Ok (A:=pyval) (PStr key));
    change (getattr m "max_file_size") with (Ok (A:=pyval) (PStr size));
    change (getattr m "supported_file_types") with (Ok (A:=pyval) (PStr types)) end.
  cbn [mbind except_bind as_str].
  destruct (startswith key "sk-"); [|reflexivity].
  destruct (_is_valid_file_size size); [|reflexivity].
  destruct (startswith types "."); [|reflexivity].
  reflexivity.
Qed.

(** A successful load leaves a frozen object holding the settings. *)
Lemma Config_init_inv ld dot env ur self :
  Config_init ld dot env ur = Ok self ->
  let E := effective_environ ld dot env in
  exists key bytes,
    _get_required_env E "ANTHROPIC_API_KEY" = Ok key /\
    startswith key "sk-" = true /\
    _parse_file_size_to_bytes (_get_optional_env E "MAX_FILE_SIZE" DEFAULT_MAX_FILE_SIZE)
      = Ok bytes /\
    self = config_obj key
             (_get_optional_env E "FLASK_SECRET_KEY" (_generate_secret_key ur))
             (_get_optional_env E "MAX_FILE_SIZE" DEFAULT_MAX_FILE_SIZE)
             (_get_optional_env E "SUPPORTED_FILE_TYPES" DEFAULT_SUPPORTED_FILE_TYPES) bytes.
Proof.
  rewrite Config_init_unfold. cbv zeta.
  destruct (_get_required_env _ _) as [key|e]; [|discriminate].
  cbn [mbind except_bind].
  destruct (_parse_file_size_to_bytes _) as [bytes|e]; [|discriminate].
  cbn [mbind except_bind].
  destruct (startswith key "sk-") eqn:Hk; [|discriminate]. cbn [negb].
  destruct (_is_valid_file_size _); [|discriminate]. cbn [negb].
  destruct (startswith _ "."); [|discriminate]. cbn [negb].
  intros [= <-]. exists key, bytes. auto.
Qed.

Lemma required_env_missing E key :
  E !! key = None -> _get_required_env E key = Raise (ConfigError (MissingEnv key)).
Proof. intros H. unfold _get_required_env. now rewrite H. Qed.

Lemma required_env_blank E key raw :
  E !! key = Some raw -> strip raw = EmptyString ->
  _get_required_env E key = Raise (ConfigError (EmptyEnv key)).
Proof. intros H Hs. unfold _get_required_env. rewrite H. cbv zeta. now rewrite Hs. Qed.

Lemma required_env_value E key raw :
  E !! key = Some raw -> strip raw <> EmptyString ->
  _get_required_env E key = Ok (strip raw).
Proof.
  intros H Hs. unfold _get_required_env. rewrite H. cbv zeta.
  destruct (strip raw); [congruence | reflexivity].
Qed.

Lemma optional_env_default E key default :
  absent_or_blank E key -> _get_optional_env E key default = default.
Proof.
  unfold _get_optional_env. intros [H | (raw & H & Hs)]; rewrite H; [reflexivity|].
  cbv zeta. now rewrite Hs.
Qed.

Lemma optional_env_value E key default raw :
  E !! key = Some raw -> strip raw <> EmptyString ->
  _get_optional_env E key default = strip raw.
Proof.
  intros H Hs. unfold _get_optional_env. rewrite H. cbv zeta.
  destruct (strip raw); [congruence | reflexivity].
Qed.

(** The load fails with MissingRequired when the key is absent. *)
Lemma Config_init_missing_key ld dot env ur :
  effective_environ ld dot env !! "ANTHROPIC_API_KEY" = None ->
  Config_init ld dot env ur = Raise (ConfigError (MissingEnv "ANTHROPIC_API_KEY")).
Proof.
  intros H. rewrite Config_init_unfold. cbv zeta.
  now rewrite (required_env_missing _ _ H).
Qed.

(** The load fails with EmptyValue when the key is blank. *)
Lemma Config_init_blank_key ld dot env ur raw :
  effective_environ ld dot env !! "ANTHROPIC_API_KEY" = Some raw ->
  strip raw = EmptyString ->
  Config_init ld dot env ur = Raise (ConfigError (EmptyEnv "ANTHROPIC_API_KEY")).
Proof.
  intros H Hs. rewrite Config_init_unfold. cbv zeta.
  now rewrite (required_env_blank _ _ _ H Hs).
Qed.

(** A key without the [sk-] prefix is rejected with InvalidFormat as soon
    as the size parser returns. *)
Lemma Config_init_bad_prefix ld dot env ur raw bytes :
  let E := effective_environ ld dot env in
  E !! "ANTHROPIC_API_KEY" = Some raw ->
  strip raw <> EmptyString ->
  startswith (strip raw) "sk-" = false ->
  _parse_file_size_to_bytes (_get_optional_env E "MAX_FILE_SIZE" DEFAULT_MAX_FILE_SIZE)
    = Ok bytes ->
  Config_init ld dot env ur = Raise (ConfigError ApiKeyPrefix).
Proof.
  intros E H Hs Hp Hb. rewrite Config_init_unfold. cbv zeta. fold E.
  rewrite (required_env_value _ _ _ H Hs). cbn [mbind except_bind].
  rewrite Hb. cbn [mbind except_bind]. now rewrite Hp.
Qed.

(** The stored key is the trimmed value of the variable. *)
Lemma Config_init_stored_key ld dot env ur self raw :
  effective_environ ld dot env !! "ANTHROPIC_API_KEY" = Some raw ->
  Config_init ld dot env ur = Ok self ->
  self !! "anthropic_api_key" = Some (PStr (strip raw)) /\
  startswith (strip raw) "sk-" = true.
Proof.
  intros H Hi. destruct (Config_init_inv _ _ _ _ _ Hi) as (key & bytes & Hk & Hp & _ & ->).
  unfold _get_required_env in Hk. rewrite H in Hk. cbv zeta in Hk.
  destruct (negb (nonempty (strip raw))); [discriminate|].
  injection Hk as <-. split; [reflexivity | exact Hp].
Qed.

Lemma hex_byte_spec b :
  String.length (hex_byte b) = 2%nat /\ all_in is_hex (hex_byte b) = true.
Proof. destruct b as [[] [] [] [] [] [] [] []]; split; reflexivity. Qed.

Lemma str_length_app s t : String.length (s +:+ t) = (String.length s + String.length t)%nat.
Proof. induction s as [|c s IH]; simpl; [reflexivity | now rewrite IH]. Qed.

Lemma all_in_app p s t : all_in p (s +:+ t) = all_in p s && all_in p t.
Proof.
  induction s as [|c s IH]; simpl; [reflexivity|].
  rewrite IH. now rewrite andb_assoc.
Qed.

(** [token_hex n] is [2 n] hexadecimal digits. *)
Lemma token_hex_spec ur n :
  String.length (token_hex ur n) = (2 * n)%nat /\ all_in is_hex (token_hex ur n) = true.
Proof.
  unfold token_hex.
  enough (H : forall k,
             String.length (fold_right (fun i acc => hex_byte (ur i) +:+ acc) EmptyString (seq k n))
               = (2 * n)%nat /\
             all_in is_hex (fold_right (fun i acc => hex_byte (ur i) +:+ acc) EmptyString (seq k n))
               = true) by apply H.
  induction n as [|n IH]; intros k; simpl seq.
  - split; reflexivity.
  - cbn [fold_right]. destruct (IH (S k)) as [L A]. destruct (hex_byte_spec (ur k)) as [L1 A1].
    split.
    + rewrite str_length_app, L, L1. lia.
    + rewrite all_in_app, A, A1. reflexivity.
Qed.

(** C8.  With [ANTHROPIC_API_KEY=abc], which lacks the [sk-] prefix, and a
    [MAX_FILE_SIZE] of 310 digits followed by [B], the load raises
    [OverflowError], an exception of no kind at all: the size parser, which
    runs before the key is validated, converts the literal to an infinite
    float and only turns [ValueError] and [KeyError] into [ConfigError].
    (The other three statements of the claim hold: see
    [Config_init_missing_key], [Config_init_blank_key],
    [Config_init_stored_key], and [Config_init_bad_prefix] for the prefix
    check when the parser returns.) *)
Theorem C8_overflow_escapes_api_key_check :
  forall ld ur,
    let environ : gmap string string :=
      <["ANTHROPIC_API_KEY" := "abc"]> (<["MAX_FILE_SIZE" := huge_size]> ∅) in
    startswith (strip "abc") "sk-" = false /\
    _is_valid_file_size huge_size = true /\
    Config_init ld ∅ environ ur = Raise OverflowError /\
    kind_of OverflowError = None.
Proof.
  intros ld ur environ. split; [reflexivity|]. split; [vm_compute; reflexivity|].
  split; [|reflexivity]. destruct ld; vm_compute; reflexivity.
Qed.

Lemma scenario_env_load ld ur :
  Config_init ld ∅ (<["ANTHROPIC_API_KEY" := "sk-abc"]> (<["MAX_FILE_SIZE" := "10MB"]> ∅)) ur
  = Ok (config_obj "sk-abc" (token_hex ur 32) "10MB" ".pdf" 10485760).
Proof.
  rewrite Config_init_unfold. cbv zeta.
  set (E := effective_environ ld ∅ _).
  assert (HE : E = <["ANTHROPIC_API_KEY" := "sk-abc"]> (<["MAX_FILE_SIZE" := "10MB"]> ∅)).
  { subst E. destruct ld; [|reflexivity]. unfold effective_environ. apply map_union_empty. }
  rewrite HE. clear E HE.
  rewrite (required_env_value _ _ "sk-abc") by (reflexivity || discriminate).
  rewrite (optional_env_default _ "FLASK_SECRET_KEY") by (left; reflexivity).
  rewrite (optional_env_value _ "MAX_FILE_SIZE" _ "10MB") by (reflexivity || discriminate).
  rewrite (optional_env_default _ "SUPPORTED_FILE_TYPES") by (left; reflexivity).
  reflexivity.
Qed.

(** C9.  After a successful load every optional setting holds the trimmed
    value of its variable, or its documented default when the variable is
    absent or blank; the generated default of the session secret is 64
    hexadecimal digits; [max_file_size_bytes] is what the size parser
    returns for [max_file_size].  With [ANTHROPIC_API_KEY=sk-abc] and
    [MAX_FILE_SIZE=10MB] the load succeeds with 10485760 bytes. *)
Theorem C9_optional_settings :
  (forall ld dot env ur self,
     Config_init ld dot env ur = Ok self ->
     let E := effective_environ ld dot env in
     (forall key attr default,
        In (key, attr, default) (optional_settings ur) ->
        (absent_or_blank E key -> self !! attr = Some (PStr default)) /\
        (forall raw, E !! key = Some raw -> strip raw <> EmptyString ->
                     self !! attr = Some (PStr (strip raw)))) /\
     (exists size bytes,
        self !! "max_file_size" = Some (PStr size) /\
        _parse_file_size_to_bytes size = Ok bytes /\
        self !! "max_file_size_bytes" = Some (PInt bytes))) /\
  (forall ur, String.length (token_hex ur 32) = 64%nat /\
              all_in is_hex (token_hex ur 32) = true) /\
  (forall ld ur,
     exists self,
       Config_init ld ∅ (<["ANTHROPIC_API_KEY" := "sk-abc"]> (<["MAX_FILE_SIZE" := "10MB"]> ∅)) ur
         = Ok self /\
       self !! "max_file_size_bytes" = Some (PInt 10485760)).
Proof.
  split; [|split].
  - intros ld dot env ur self Hi E.
    destruct (Config_init_inv _ _ _ _ _ Hi) as (key & bytes & Hk & Hp & Hb & ->). fold E in Hb |- *.
    split.
    + intros k attr default Hin. unfold optional_settings in Hin. cbn [In] in Hin.
      destruct Hin as [[= <- <- <-] | [[= <- <- <-] | [[= <- <- <-] | []]]].
      * split.
        -- intros Ha. change (config_obj _ _ _ _ _ !! "flask_secret_key") with
             (Some (PStr (_get_optional_env E "FLASK_SECRET_KEY" (_generate_secret_key ur)))).
           now rewrite (optional_env_default _ _ _ Ha).
        -- intros raw Hr Hs.
           change (config_obj _ _ _ _ _ !! "flask_secret_key") with
             (Some (PStr (_get_optional_env E "FLASK_SECRET_KEY" (_generate_secret_key ur)))).
           now rewrite (optional_env_value _ _ _ _ Hr Hs).
      * split.
        -- intros Ha. change (config_obj _ _ _ _ _ !! "max_file_size") with
             (Some (PStr (_get_optional_env E "MAX_FILE_SIZE" DEFAULT_MAX_FILE_SIZE))).
           now rewrite (optional_env_default _ _ _ Ha).
        -- intros raw Hr Hs.
           change (config_obj _ _ _ _ _ !! "max_file_size") with
             (Some (PStr (_get_optional_env E "MAX_FILE_SIZE" DEFAULT_MAX_FILE_SIZE))).
           now rewrite (optional_env_value _ _ _ _ Hr Hs).
      * split.
        -- intros Ha. change (config_obj _ _ _ _ _ !! "supported_file_types") with
             (Some (PStr (_get_optional_env E "SUPPORTED_FILE_TYPES" DEFAULT_SUPPORTED_FILE_TYPES))).
           now rewrite (optional_env_default _ _ _ Ha).
        -- intros raw Hr Hs.
           change (config_obj _ _ _ _ _ !! "supported_file_types") with
             (Some (PStr (_get_optional_env E "SUPPORTED_FILE_TYPES" DEFAULT_SUPPORTED_FILE_TYPES))).
           now rewrite (optional_env_value _ _ _ _ Hr Hs).
    + exists (_get_optional_env E "MAX_FILE_SIZE" DEFAULT_MAX_FILE_SIZE), bytes.
      split; [reflexivity | split; [exact Hb | reflexivity]].
  - intros ur. apply (token_hex_spec ur 32).
  - intros ld ur. eexists. split; [apply scenario_env_load | reflexivity].
Qed.

Lemma sample_environ_load ur :
  Config_init false ∅ sample_environ ur
  = Ok (config_obj "sk-test-key-123" (token_hex ur 32) "2.5MB" ".pdf" 2621440).
Proof.
  rewrite Config_init_unfold. cbv zeta. unfold effective_environ, sample_environ.
  rewrite (required_env_value _ _ "  sk-test-key-123 ") by (reflexivity || discriminate).
  rewrite (optional_env_default _ "FLASK_SECRET_KEY") by (left; reflexivity).
  rewrite (optional_env_value _ "MAX_FILE_SIZE" _ " 2.5MB") by (reflexivity || discriminate).
  rewrite (optional_env_default _ "SUPPORTED_FILE_TYPES") by (left; reflexivity).
  reflexivity.
Qed.

Lemma C9_witness :
  sample_config !! "supported_file_types" = Some (PStr ".pdf") /\
  sample_config !! "max_file_size" = Some (PStr (strip " 2.5MB")).
Proof.
  destruct (proj1 C9_optional_settings false ∅ sample_environ sample_urandom sample_config
              (sample_environ_load sample_urandom)) as [H _].
  split.
  - apply (H "SUPPORTED_FILE_TYPES" "supported_file_types" ".pdf").
    + unfold optional_settings. cbn [In]. auto.
    + left. reflexivity.
  - apply (H "MAX_FILE_SIZE" "max_file_size" "10MB"
             ltac:(unfold optional_settings; cbn [In]; auto)).
    + reflexivity.
    + discriminate.
Defined.

(** ** [datetime]: [fromisoformat] inverts [isoformat] *)

Lemma app_cons c s t : String c s +:+ t = String c (s +:+ t).
Proof. reflexivity. Qed.

Lemma app_nil_l t : EmptyString +:+ t = t.
Proof. reflexivity. Qed.

Lemma digit_char_spec d :
  0 <= d <= 9 ->
  is_digit (digit_char d) = true /\ digit_val (digit_char d) = d /\
  Ascii.eqb (digit_char d) "Z" = false /\ Ascii.eqb (digit_char d) "." = false.
Proof.
  intros H.
  assert (E : d = 0 \/ d = 1 \/ d = 2 \/ d = 3 \/ d = 4 \/ d = 5 \/ d = 6 \/ d = 7 \/
              d = 8 \/ d = 9) by lia.
  repeat (destruct E as [-> | E]; [repeat split; reflexivity |]).
  subst d. repeat split; reflexivity.
Qed.

Lemma mod10_range n : 0 <= n mod 10 <= 9.
Proof. assert (H := Z.mod_pos_bound n 10). lia. Qed.

Lemma take_digits_zpad k n rest acc :
  0 <= n ->
  take_digits k (zpad k n +:+ rest) acc = Some (acc * 10 ^ Z.of_nat k + n mod 10 ^ Z.of_nat k, rest).
Proof.
  intros Hn. revert acc. induction k as [|k IH]; intros acc.
  - cbn [zpad take_digits]. rewrite app_nil_l. change (10 ^ Z.of_nat 0) with 1.
    rewrite Z.mod_1_r. f_equal. f_equal. lia.
  - cbn [zpad take_digits]. rewrite app_cons.
    destruct (digit_char_spec _ (mod10_range (n / 10 ^ Z.of_nat k))) as (Hd & Hv & _).
    rewrite Hd, Hv, IH. f_equal. f_equal.
    replace (Z.of_nat (S k)) with (Z.of_nat k + 1) by lia.
    rewrite Z.pow_add_r by lia. change (10 ^ 1) with 10.
    assert (P : 0 < 10 ^ Z.of_nat k) by (apply Z.pow_pos_nonneg; lia).
    rewrite (Z.rem_mul_r n (10 ^ Z.of_nat k) 10) by lia.
    ring.
Qed.

Lemma take_digits_zpad_small k n rest :
  0 <= n < 10 ^ Z.of_nat k ->
  take_digits k (zpad k n +:+ rest) 0 = Some (n, rest).
Proof.
  intros H. rewrite take_digits_zpad by lia. rewrite Z.mod_small by lia. reflexivity.
Qed.

Lemma replace_char_absent old new s :
  all_in (fun c => negb (Ascii.eqb c old)) s = true -> replace_char old new s = s.
Proof.
  induction s as [|c s IH]; cbn [all_in replace_char]; [reflexivity|].
  intros H. apply andb_prop in H as [H1 H2].
  destruct (Ascii.eqb c old); [discriminate|]. now rewrite IH.
Qed.

Lemma zpad_no_Z k n : all_in (fun c => negb (Ascii.eqb c "Z")) (zpad k n) = true.
Proof.
  induction k as [|k IH]; cbn [zpad all_in]; [reflexivity|].
  destruct (digit_char_spec _ (mod10_range (n / 10 ^ Z.of_nat k))) as (_ & _ & Hz & _).
  now rewrite Hz, IH.
Qed.

Lemma isoformat_no_Z d : all_in (fun c => negb (Ascii.eqb c "Z")) (isoformat d) = true.
Proof.
  unfold isoformat, iso_offset.
  repeat (rewrite all_in_app || rewrite zpad_no_Z).
  destruct (microsecond d =? 0), (utcoffset d) as [o|];
    try destruct (o <? 0);
    repeat (rewrite all_in_app || rewrite zpad_no_Z); reflexivity.
Qed.

Lemma in_range_spec lo x hi : in_range lo x hi = true <-> lo <= x <= hi.
Proof. unfold in_range. rewrite andb_true_iff, !Z.leb_le. tauto. Qed.

Lemma parse_offset_iso off :
  match off with Some o => -1439 <= o <= 1439 | None => True end ->
  parse_offset (iso_offset off) = Some off.
Proof.
  destruct off as [o|]; [|reflexivity]. intros Ho. unfold iso_offset.
  assert (Hq : 0 <= Z.abs o / 60 < 10 ^ Z.of_nat 2).
  { change (10 ^ Z.of_nat 2) with 100. split; [apply Z.div_pos; lia|].
    apply Z.div_lt_upper_bound; lia. }
  assert (Hr : 0 <= Z.abs o mod 60 < 10 ^ Z.of_nat 2).
  { change (10 ^ Z.of_nat 2) with 100. assert (H := Z.mod_pos_bound (Z.abs o) 60). lia. }
  assert (E : 60 * (Z.abs o / 60) + Z.abs o mod 60 = Z.abs o)
    by (symmetry; apply Z.div_mod; lia).
  destruct (o <? 0) eqn:Hs.
  - apply Z.ltb_lt in Hs.
    change ("-" +:+ zpad 2 (Z.abs o / 60) +:+ ":" +:+ zpad 2 (Z.abs o mod 60))
      with (String "-" (zpad 2 (Z.abs o / 60) +:+ String ":" (zpad 2 (Z.abs o mod 60) +:+ ""))).
    cbn [parse_offset Ascii.eqb orb]. cbn [Ascii.eqb Bool.eqb orb andb].
    rewrite take_digits_zpad_small by exact Hq. cbn [mbind option_bind expect].
    cbn [Ascii.eqb Bool.eqb andb]. cbn [mbind option_bind].
    rewrite take_digits_zpad_small by exact Hr. cbn [mbind option_bind].
    rewrite E. f_equal. f_equal. lia.
  - apply Z.ltb_ge in Hs.
    change ("+" +:+ zpad 2 (Z.abs o / 60) +:+ ":" +:+ zpad 2 (Z.abs o mod 60))
      with (String "+" (zpad 2 (Z.abs o / 60) +:+ String ":" (zpad 2 (Z.abs o mod 60) +:+ ""))).
    cbn [parse_offset Ascii.eqb orb]. cbn [Ascii.eqb Bool.eqb orb andb].
    rewrite take_digits_zpad_small by exact Hq. cbn [mbind option_bind expect].
    cbn [Ascii.eqb Bool.eqb andb]. cbn [mbind option_bind].
    rewrite take_digits_zpad_small by exact Hr. cbn [mbind option_bind].
    rewrite E. f_equal. f_equal. lia.
Qed.

Lemma expect_lit c rest : expect c (String c EmptyString +:+ rest) = Some rest.
Proof. rewrite app_cons, app_nil_l. cbn [expect]. now rewrite Ascii.eqb_refl. Qed.

Lemma any_char_lit c rest : any_char (String c EmptyString +:+ rest) = Some rest.
Proof. reflexivity. Qed.

Lemma parse_fraction_offset off :
  parse_fraction (iso_offset off) = Some (0, iso_offset off).
Proof.
  destruct off as [o|]; [|reflexivity]. unfold iso_offset.
  destruct (o <? 0); reflexivity.
Qed.

Lemma valid_datetime_spec d :
  valid_datetime d = true ->
  1 <= year d <= 9999 /\ 1 <= month d <= 12 /\ 1 <= day d <= 31 /\
  0 <= hour d <= 23 /\ 0 <= minute d <= 59 /\ 0 <= second d <= 59 /\
  0 <= microsecond d <= 999999 /\
  match utcoffset d with Some o => -1439 <= o <= 1439 | None => True end.
Proof.
  unfold valid_datetime. rewrite !andb_true_iff, !in_range_spec.
  intros (((((((Hy & Hm) & Hd) & Hh) & Hmi) & Hs) & Hu) & Ho).
  assert (Hdm : days_in_month (year d) (month d) <= 31).
  { unfold days_in_month. repeat (destruct (_ =? _) || destruct (is_leap _) || cbn [orb]); lia. }
  repeat split; try lia.
  destruct (utcoffset d) as [o|]; [apply in_range_spec in Ho; exact Ho | exact I].
Qed.

Lemma parse_iso_isoformat d :
  valid_datetime d = true -> parse_iso (isoformat d) = Some d.
Proof.
  intros Hv. destruct (valid_datetime_spec d Hv) as (Hy & Hm & Hd & Hh & Hmi & Hs & Hu & Ho).
  unfold parse_iso, isoformat.
  rewrite take_digits_zpad_small by (change (10 ^ Z.of_nat 4) with 10000; lia).
  cbn [mbind option_bind]. rewrite expect_lit. cbn [mbind option_bind].
  rewrite take_digits_zpad_small by (change (10 ^ Z.of_nat 2) with 100; lia).
  cbn [mbind option_bind]. rewrite expect_lit. cbn [mbind option_bind].
  rewrite take_digits_zpad_small by (change (10 ^ Z.of_nat 2) with 100; lia).
  cbn [mbind option_bind]. rewrite any_char_lit. cbn [mbind option_bind].
  rewrite take_digits_zpad_small by (change (10 ^ Z.of_nat 2) with 100; lia).
  cbn [mbind option_bind]. rewrite expect_lit. cbn [mbind option_bind].
  rewrite take_digits_zpad_small by (change (10 ^ Z.of_nat 2) with 100; lia).
  cbn [mbind option_bind]. rewrite expect_lit. cbn [mbind option_bind].
  rewrite take_digits_zpad_small by (change (10 ^ Z.of_nat 2) with 100; lia).
  cbn [mbind option_bind].
  destruct (microsecond d =? 0) eqn:Hz.
  - apply Z.eqb_eq in Hz. rewrite app_nil_l, parse_fraction_offset.
    cbn [mbind option_bind]. rewrite (parse_offset_iso _ Ho). cbn [mbind option_bind].
    destruct d; cbn in *. now subst.
  - change (("." +:+ zpad 6 (microsecond d)) +:+ iso_offset (utcoffset d))
      with (String "." (zpad 6 (microsecond d) +:+ iso_offset (utcoffset d))).
    cbn [parse_fraction].
    rewrite take_digits_zpad_small by (change (10 ^ Z.of_nat 6) with 1000000; lia).
    cbn [mbind option_bind]. rewrite (parse_offset_iso _ Ho). cbn [mbind option_bind].
    destruct d; reflexivity.
Qed.

(** [fromisoformat] reads back what [isoformat] wrote, also after the
    replacement of [Z] that [from_dict] applies first. *)
Lemma fromisoformat_isoformat d :
  valid_datetime d = true ->
  fromisoformat (replace_char "Z" "+00:00" (isoformat d)) = Ok d.
Proof.
  intros Hv. rewrite replace_char_absent by apply isoformat_no_Z.
  unfold fromisoformat. now rewrite parse_iso_isoformat, Hv.
Qed.

(** ** [RFPProposal]: serialization *)

Lemma RFPProposal_new_inv kwargs now p :
  RFPProposal_new kwargs now = Ok p ->
  p = proposal_obj (kwarg kwargs "id" PNone) (kwarg kwargs "filename" PNone)
        (kwarg kwargs "content" PNone) (kwarg kwargs "extracted_data" (PDict []))
        (kwarg kwargs "analysis_score" PNone) (kwarg kwargs "created_at" (PDatetime now)) /\
  RFPProposal_validate p = Ok tt.
Proof.
  unfold RFPProposal_new. destruct (unknown_keyword _ _); [discriminate|]. cbv zeta.
  fold (proposal_obj (kwarg kwargs "id" PNone) (kwarg kwargs "filename" PNone)
          (kwarg kwargs "content" PNone) (kwarg kwargs "extracted_data" (PDict []))
          (kwarg kwargs "analysis_score" PNone) (kwarg kwargs "created_at" (PDatetime now))).
  unfold object_setattr.
  fold (proposal_obj (kwarg kwargs "id" PNone) (kwarg kwargs "filename" PNone)
          (kwarg kwargs "content" PNone) (kwarg kwargs "extracted_data" (PDict []))
          (kwarg kwargs "analysis_score" PNone) (kwarg kwargs "created_at" (PDatetime now))).
  destruct (RFPProposal_validate _) as [[]|e] eqn:Hv; [|discriminate].
  cbn [mbind except_bind]. intros [= <-]. split; [reflexivity | exact Hv].
Qed.






(** ** [AnalysisResult]: construction *)

Lemma AnalysisResult_new_inv kwargs now a :
  AnalysisResult_new kwargs now = Ok a ->
  exists pid cs,
    dict_get "proposal_id" kwargs = Some pid /\
    dict_get "criteria_scores" kwargs = Some cs /\
    AnalysisResult_post_init
      (analysis_obj pid cs (kwarg kwargs "overall_score" PNone)
         (kwarg kwargs "strengths" (PList [])) (kwarg kwargs "concerns" (PList []))
         (kwarg kwargs "recommendation_rank" PNone)
         (kwarg kwargs "created_at" (PDatetime now))) = Ok a.
Proof.
  unfold AnalysisResult_new. destruct (unknown_keyword _ _); [discriminate|].
  destruct (dict_get "proposal_id" kwargs) as [pid|]; [|discriminate].
  destruct (dict_get "criteria_scores" kwargs) as [cs|]; [|discriminate].
  repeat (match goal with
          | |- context [AnalysisResult_setattr ?m ?n ?v] =>
              change (AnalysisResult_setattr m n v) with (Ok (<[n := v]> m))
          end; cbn [mbind except_bind]).
  intros H. exists pid, cs. repeat split. exact H.
Qed.

Lemma AnalysisResult_new_kwargs pid os cs st co rr cr now :
  AnalysisResult_new (analysis_dict pid cs os st co rr cr) now =
  AnalysisResult_post_init (analysis_obj pid cs os st co rr cr).
Proof. reflexivity. Qed.

(** A successful [__post_init__] ends by freezing the object. *)
Lemma AnalysisResult_post_init_frozen self a :
  AnalysisResult_post_init self = Ok a -> a !! "_frozen" = Some (PBool true).
Proof.
  unfold AnalysisResult_post_init.
  destruct (AnalysisResult_validate self); [|discriminate]. cbn [mbind except_bind].
  destruct (getattr self "overall_score") as [o|]; [|discriminate]. cbn [mbind except_bind].
  match goal with |- context [mbind _ ?m] => destruct m as [s|]; [|discriminate] end.
  cbn [mbind except_bind]. intros [= <-]. apply lookup_insert_eq.
Qed.

(** With an explicit score, [__post_init__] validates and freezes. *)
Lemma AnalysisResult_post_init_explicit pid cs os st co rr cr :
  is_none os = false ->
  AnalysisResult_post_init (analysis_obj pid cs os st co rr cr) =
  (_ ← AnalysisResult_validate (analysis_obj pid cs os st co rr cr);
   Ok (<["_frozen" := PBool true]> (analysis_obj pid cs os st co rr cr))).
Proof.
  intros Hn. unfold AnalysisResult_post_init.
  destruct (AnalysisResult_validate _); [|reflexivity]. cbn [mbind except_bind].
  change (getattr (analysis_obj pid cs os st co rr cr) "overall_score") with (Ok (A:=pyval) os).
  cbn [mbind except_bind]. rewrite Hn. reflexivity.
Qed.

(** Without one, the score is computed and stored before freezing. *)
Lemma AnalysisResult_post_init_computed pid cs st co rr cr :
  AnalysisResult_post_init (analysis_obj pid cs PNone st co rr cr) =
  (_ ← AnalysisResult_validate (analysis_obj pid cs PNone st co rr cr);
   score ← _calculate_overall_score (analysis_obj pid cs PNone st co rr cr);
   Ok (<["_frozen" := PBool true]> (analysis_obj pid cs (PFloat score) st co rr cr))).
Proof.
  unfold AnalysisResult_post_init.
  destruct (AnalysisResult_validate _); [|reflexivity]. cbn [mbind except_bind].
  change (getattr (analysis_obj pid cs PNone st co rr cr) "overall_score")
    with (Ok (A:=pyval) PNone).
  cbn [mbind except_bind is_none].
  destruct (_calculate_overall_score _) as [score|]; [|reflexivity].
  cbn [mbind except_bind]. reflexivity.
Qed.

(** The validation of an analysis result as one decision list. *)
Lemma AnalysisResult_validate_obj pid cs os st co rr cr :
  AnalysisResult_validate (analysis_obj pid cs os st co rr cr) =
  if negb (truthy pid) then model_error_raise (MissingField "proposal_id") else
  if negb (truthy cs) then model_error_raise (MissingField "criteria_scores") else
  _ ← (if negb (is_none os) then
         ok ← between 0 os 100;
         if negb ok then model_error_raise ScoreRange else Ok tt
       else Ok tt);
  its ← items cs;
  validate_scores its.
Proof.
  unfold AnalysisResult_validate.
  change (getattr (analysis_obj pid cs os st co rr cr) "proposal_id") with (Ok (A:=pyval) pid).
  change (getattr (analysis_obj pid cs os st co rr cr) "criteria_scores") with (Ok (A:=pyval) cs).
  change (getattr (analysis_obj pid cs os st co rr cr) "overall_score") with (Ok (A:=pyval) os).
  cbn [mbind except_bind].
  destruct (truthy pid); [|reflexivity]. cbn [negb].
  destruct (truthy cs); reflexivity.
Qed.

Lemma AnalysisResult_to_dict_obj pid cs os st co rr t :
  AnalysisResult_to_dict (<["_frozen" := PBool true]> (analysis_obj pid cs os st co rr (PDatetime t))) =
  Ok (analysis_dict pid cs os st co rr (PStr (isoformat t))).
Proof. reflexivity. Qed.

Lemma AnalysisResult_from_dict_obj pid cs os st co rr t now :
  valid_datetime t = true ->
  AnalysisResult_from_dict (analysis_dict pid cs os st co rr (PStr (isoformat t))) now =
  AnalysisResult_post_init (analysis_obj pid cs os st co rr (PDatetime t)).
Proof.
  intros Hv. unfold AnalysisResult_from_dict, parse_created_at.
  change (dict_get "created_at" (analysis_dict pid cs os st co rr (PStr (isoformat t))))
    with (Some (PStr (isoformat t))).
  cbv beta iota.
  rewrite (fromisoformat_isoformat t Hv). cbn [mbind except_bind].
  reflexivity.
Qed.



Lemma sample_analysis_new :
  AnalysisResult_new sample_analysis_kwargs sample_now = Ok sample_analysis.
Proof.
  change (AnalysisResult_new sample_analysis_kwargs sample_now)
    with (AnalysisResult_post_init
            (analysis_obj (PStr "prop-001") (PDict [("price", PFloat (Finite 90))])
               (PFloat (Finite 85)) (PList []) (PList []) PNone (PDatetime sample_now))).
  rewrite AnalysisResult_post_init_explicit by reflexivity.
  rewrite AnalysisResult_validate_obj. reflexivity.
Qed.



(** ** Immutability *)

(** C1 (as the code has it).  Every assignment to an attribute of a loaded
    configuration or of a constructed analysis result fails with the
    class's immutability error (kind ImmutableViolation) and leaves the
    object as it was.  A proposal is a plain dataclass: an assignment to
    one of its attributes succeeds and stores the value. *)
Theorem C1_frozen_objects_reject_assignment :
  (forall ld dot env ur self name value,
     Config_init ld dot env ur = Ok self ->
     Config_setattr self name value = Raise (ConfigError (Frozen name)) /\
     kind_of (ConfigError (Frozen name)) = Some ImmutableViolation /\
     state_after self (Config_setattr self name value) = self) /\
  (forall kwargs now a name value,
     AnalysisResult_new kwargs now = Ok a ->
     AnalysisResult_setattr a name value = Raise (ModelValidationError Immutable) /\
     kind_of (ModelValidationError Immutable) = Some ImmutableViolation /\
     state_after a (AnalysisResult_setattr a name value) = a) /\
  (forall (p : gmap string pyval) name value,
     RFPProposal_setattr p name value = Ok (<[name := value]> p)).
Proof.
  split; [|split].
  - intros ld dot env ur self name value Hi.
    destruct (Config_init_inv _ _ _ _ _ Hi) as (key & bytes & _ & _ & _ & ->).
    assert (E : Config_setattr (config_obj key
                  (_get_optional_env (effective_environ ld dot env) "FLASK_SECRET_KEY"
                     (_generate_secret_key ur))
                  (_get_optional_env (effective_environ ld dot env) "MAX_FILE_SIZE"
                     DEFAULT_MAX_FILE_SIZE)
                  (_get_optional_env (effective_environ ld dot env) "SUPPORTED_FILE_TYPES"
                     DEFAULT_SUPPORTED_FILE_TYPES) bytes) name value
                = Raise (ConfigError (Frozen name))) by reflexivity.
    rewrite E. repeat split.
  - intros kwargs now a name value Hnew.
    destruct (AnalysisResult_new_inv _ _ _ Hnew) as (pid & cs & _ & _ & Hp).
    apply AnalysisResult_post_init_frozen in Hp.
    assert (E : AnalysisResult_setattr a name value = Raise (ModelValidationError Immutable)).
    { unfold AnalysisResult_setattr, AnalysisResult_frozen. rewrite Hp. reflexivity. }
    rewrite E. repeat split.
  - intros p name value. reflexivity.
Qed.

Lemma C1_witness :
  Config_setattr sample_config "anthropic_api_key" (PStr "sk-new-key")
    = Raise (ConfigError (Frozen "anthropic_api_key")) /\
  AnalysisResult_setattr sample_analysis "overall_score" (PFloat (Finite 95))
    = Raise (ModelValidationError Immutable).
Proof.
  split.
  - apply (proj1 C1_frozen_objects_reject_assignment false ∅ sample_environ sample_urandom
             sample_config "anthropic_api_key" (PStr "sk-new-key")
             (sample_environ_load sample_urandom)).
  - apply (proj1 (proj2 C1_frozen_objects_reject_assignment) sample_analysis_kwargs sample_now
             sample_analysis "overall_score" (PFloat (Finite 95)) sample_analysis_new).
Defined.

(** C1 as stated fails for a proposal: the assignment raises nothing and
    the field changes. *)
Lemma C1_counterexample_proposal_is_mutable :
  RFPProposal_new sample_proposal_kwargs sample_now = Ok sample_proposal /\
  RFPProposal_setattr sample_proposal "id" (PStr "other")
    = Ok (<["id" := PStr "other"]> sample_proposal) /\
  sample_proposal !! "id" = Some (PStr "prop-001") /\
  state_after sample_proposal (RFPProposal_setattr sample_proposal "id" (PStr "other")) !! "id"
    = Some (PStr "other").
Proof. repeat split. Qed.

(** ** The matcher finds exactly what the expression denotes *)

Local Open Scope list_scope.

Lemma app_assoc_str s t u : (s +:+ t) +:+ u = s +:+ (t +:+ u).
Proof. induction s as [|c s IH]; [reflexivity|]. rewrite !app_cons. now rewrite IH. Qed.

Lemma app_nil_r_str s : s +:+ EmptyString = s.
Proof. induction s as [|c s IH]; [reflexivity|]. rewrite app_cons. now rewrite IH. Qed.

Lemma many_sound p s : forall i j s',
  In (j, s') (many p i s) ->
  exists ds, all_in p ds = true /\ s = ds +:+ s' /\ j = (i + String.length ds)%nat.
Proof.
  induction s as [|c s IH]; intros i j s' H; cbn [many] in H.
  - destruct H as [[= <- <-] | []]. exists EmptyString. repeat split. cbn. lia.
  - destruct (p c) eqn:Hc.
    + apply in_app_or in H as [H | [[= <- <-] | []]].
      * destruct (IH _ _ _ H) as (ds & Ha & -> & ->).
        exists (String c ds). cbn [all_in String.length]. rewrite Hc, Ha.
        repeat split. lia.
      * exists EmptyString. repeat split. cbn. lia.
    + destruct H as [[= <- <-] | []]. exists EmptyString. repeat split. cbn. lia.
Qed.

Lemma many_complete p ds : forall i s',
  all_in p ds = true -> In ((i + String.length ds)%nat, s') (many p i (ds +:+ s')).
Proof.
  induction ds as [|c ds IH]; intros i s' H.
  - rewrite app_nil_l. cbn [String.length]. rewrite Nat.add_0_r.
    destruct s' as [|c s']; cbn [many]; [now left|].
    destruct (p c); [apply in_or_app; right|]; now left.
  - cbn [all_in] in H. apply andb_prop in H as [Hc Ha].
    rewrite app_cons. cbn [many String.length]. rewrite Hc.
    apply in_or_app. left. replace (i + S (String.length ds))%nat
      with (S i + String.length ds)%nat by lia.
    now apply IH.
Qed.

Lemma run_sound r : forall caps cur caps' cur',
  In (caps', cur') (run r caps cur) -> denote r cur cur'.
Proof.
  induction r as [p | p | r1 IH1 r2 IH2 | r IH | r IH | | ];
    intros caps [i s] caps' [j s'] H; cbn [run] in H; cbn [denote fst snd].
  - destruct s as [|c s]; [destruct H|]. destruct (p c) eqn:Hc; [|destruct H].
    destruct H as [[= <- <- <-] | []]. exists c. auto.
  - destruct s as [|c s]; [destruct H|]. destruct (p c) eqn:Hc; [|destruct H].
    apply in_map_iff in H as ([j0 s0] & [= <- <- <-] & H).
    destruct (many_sound _ _ _ _ _ H) as (ds & Ha & -> & ->).
    exists (String c ds). cbn [nonempty all_in String.length]. rewrite Hc, Ha.
    repeat split. lia.
  - apply in_flat_map in H as ([caps1 cur1] & H1 & H2).
    exists cur1. split; [eapply IH1 | eapply IH2]; eassumption.
  - apply in_app_or in H as [H | [[= <- <- <-] | []]]; [left; eapply IH; eassumption | now right].
  - apply in_map_iff in H as ([caps1 [j1 s1]] & [= <- <- <-] & H). eapply IH; eassumption.
  - destruct (Nat.eqb i 0) eqn:E; [|destruct H].
    destruct H as [[= <- <- <-] | []]. apply Nat.eqb_eq in E. auto.
  - destruct s as [|c [|c' s]].
    + destruct H as [[= <- <- <-] | []]. auto.
    + destruct (Ascii.eqb c "010") eqn:E; [|destruct H].
      destruct H as [[= <- <- <-] | []]. apply Ascii.eqb_eq in E. subst c. auto.
    + destruct H.
Qed.

Lemma run_complete r : forall caps cur cur',
  denote r cur cur' -> exists caps', In (caps', cur') (run r caps cur).
Proof.
  induction r as [p | p | r1 IH1 r2 IH2 | r IH | r IH | | ];
    intros caps [i s] [j s'] H; cbn [denote fst snd] in H; cbn [run].
  - destruct H as (c & -> & Hc & ->). rewrite Hc. exists caps. now left.
  - destruct H as (ds & Hn & Ha & -> & ->).
    destruct ds as [|c ds]; [discriminate|]. cbn [all_in] in Ha.
    apply andb_prop in Ha as [Hc Ha]. rewrite app_cons, Hc.
    exists caps. apply in_map_iff. exists ((S i + String.length ds)%nat, s').
    split; [cbn [String.length]; f_equal; f_equal; lia | now apply many_complete].
  - destruct H as (m & H1 & H2).
    destruct (IH1 caps _ _ H1) as (caps1 & I1).
    destruct (IH2 caps1 _ _ H2) as (caps2 & I2).
    exists caps2. apply in_flat_map. exists (caps1, m). auto.
  - destruct H as [H | [= -> ->]].
    + destruct (IH caps _ _ H) as (caps1 & I1). exists caps1. apply in_or_app. now left.
    + exists caps. apply in_or_app. right. now left.
  - destruct (IH caps _ _ H) as (caps1 & I1).
    exists (caps1 ++ [take (j - i) s]). apply in_map_iff. exists (caps1, (j, s')). auto.
  - destruct H as [-> [= -> ->]]. exists caps. now left.
  - destruct H as [[-> | ->] [= -> ->]]; exists caps; now left.
Qed.

(** [re.match] succeeds exactly on the strings the expression matches. *)
Lemma re_match_matches r s : (exists caps, re_match r s = Some caps) <-> matches r s.
Proof.
  unfold re_match, matches. split.
  - intros [caps H]. destruct (run r [] (0%nat, s)) as [|[caps' cur'] l] eqn:E; [discriminate|].
    exists cur'. apply (run_sound r [] (0%nat, s) caps'). rewrite E. now left.
  - intros [b H]. destruct (run_complete r [] _ _ H) as (caps' & I).
    destruct (run r [] (0%nat, s)) as [|[caps1 cur1] l]; [destruct I | eauto].
Qed.

(** ** The size pattern *)

Lemma char_is_eq a c : char_is a c = true -> c = a.
Proof. unfold char_is. apply Ascii.eqb_eq. Qed.

Lemma upper_app s t : upper (s +:+ t) = upper s +:+ upper t.
Proof.
  unfold upper. induction s as [|c s IH]; [reflexivity|].
  rewrite app_cons. cbn [str_map]. rewrite app_cons. now rewrite IH.
Qed.

Lemma upper_char_idem c : upper_char (upper_char c) = upper_char c.
Proof. destruct c as [[] [] [] [] [] [] [] []]; reflexivity. Qed.

Lemma upper_idem s : upper (upper s) = upper s.
Proof.
  unfold upper. induction s as [|c s IH]; [reflexivity|].
  cbn [str_map]. now rewrite upper_char_idem, IH.
Qed.

Lemma upper_char_digit c : is_digit c = true -> upper_char c = c.
Proof. destruct c as [[] [] [] [] [] [] [] []]; try discriminate; reflexivity. Qed.

Lemma upper_char_prefix c : one_of "KMGT" c = true -> upper_char c = c.
Proof. destruct c as [[] [] [] [] [] [] [] []]; try discriminate; reflexivity. Qed.

Lemma upper_digits s : all_in is_digit s = true -> upper s = s.
Proof.
  unfold upper. induction s as [|c s IH]; [reflexivity|].
  cbn [all_in str_map]. intros H. apply andb_prop in H as [Hc Ha].
  now rewrite (upper_char_digit _ Hc), IH.
Qed.

(** A well-formed size text is left alone by [upper]. *)
Lemma upper_size_text ip fp u nl :
  well_formed_size ip fp u -> upper (size_text ip fp u nl) = size_text ip fp u nl.
Proof.
  intros (_ & Hi & Hf & Hu). unfold size_text.
  rewrite !upper_app, (upper_digits _ Hi). f_equal. f_equal; [|f_equal].
  - destruct fp as [f|]; [|reflexivity]. destruct (Hf f eq_refl) as [_ Hd].
    cbn [fraction_text]. change (upper (String "." f)) with (String "." (upper f)).
    now rewrite (upper_digits _ Hd).
  - destruct u as [c|]; [|reflexivity]. cbn [unit_text].
    change (upper (String c "B")) with (String (upper_char c) "B").
    now rewrite (upper_char_prefix _ (Hu c eq_refl)).
  - destruct nl; reflexivity.
Qed.

(** What [^\d+(\.\d+)?[KMGT]?B$] matches, spelled out. *)
Lemma size_pattern_matches t :
  matches size_pattern t <->
  exists ip fp u nl, well_formed_size ip fp u /\ t = size_text ip fp u nl.
Proof.
  unfold matches, size_pattern. split.
  - intros ([j s'] & H). cbn [denote fst snd] in H.
    destruct H as ([i0 s0] & (_ & [= -> ->]) & H).
    destruct H as ([i1 s1] & (ip & Hn & Hi & E1 & _) & H). cbn [fst snd] in *.
    destruct H as ([i2 s2] & Hfrac & H). cbn [fst snd] in *.
    destruct H as ([i3 s3] & Hunit & H). cbn [fst snd] in *.
    destruct H as ([i4 s4] & (b & E4 & Hb & _) & (Hnl & _)). cbn [fst snd] in *.
    apply char_is_eq in Hb. subst b.
    assert (F : exists fp, s1 = fraction_text fp +:+ s2 /\
                  (forall f, fp = Some f -> nonempty f = true /\ all_in is_digit f = true)).
    { destruct Hfrac as [([i' s'0] & (c & Ec & Hc & _) & (f & Hfn & Hfa & Ef & _)) | [= -> ->]].
      - cbn [fst snd] in *. apply char_is_eq in Hc. subst c.
        exists (Some f). split.
        + rewrite Ec, Ef. reflexivity.
        + intros f' [= <-]. auto.
      - exists None. split; [reflexivity | discriminate]. }
    destruct F as (fp & E2 & Hf).
    assert (U : exists u, s2 = unit_text u +:+ s4 /\
                  (forall c, u = Some c -> one_of "KMGT" c = true)).
    { destruct Hunit as [(c & Ec & Hc & _) | [= -> ->]].
      - cbn [fst snd] in *. exists (Some c). split.
        + rewrite Ec, E4. reflexivity.
        + intros c' [= <-]. exact Hc.
      - exists None. split; [rewrite E4; reflexivity | discriminate]. }
    destruct U as (u & E3 & Hu).
    exists ip, fp, u, (match s4 with EmptyString => false | _ => true end).
    split; [exact (conj Hn (conj Hi (conj Hf Hu)))|].
    unfold size_text. destruct Hnl as [E5 | E5]; subst; reflexivity.
  - intros (ip & fp & u & nl & (Hn & Hi & Hf & Hu) & ->). unfold size_text.
    set (tail := newline_text nl).
    exists ((String.length ip + String.length (fraction_text fp)
             + String.length (unit_text u))%nat, tail).
    cbn [denote fst snd].
    exists (0%nat, ip +:+ fraction_text fp +:+ unit_text u +:+ tail). split; [auto|].
    exists (String.length ip, fraction_text fp +:+ unit_text u +:+ tail). split.
    { exists ip. cbn [fst snd]. auto. }
    exists ((String.length ip + String.length (fraction_text fp))%nat, unit_text u +:+ tail).
    split.
    { destruct fp as [f|].
      - left. destruct (Hf f eq_refl) as [Hfn Hfa].
        exists (S (String.length ip), f +:+ unit_text u +:+ tail). cbn [fst snd]. split.
        + exists "."%char. repeat split.
        + exists f. repeat split; auto. cbn [fraction_text String.length]. lia.
      - right. cbn [fraction_text String.length]. rewrite Nat.add_0_r. reflexivity. }
    exists ((String.length ip + String.length (fraction_text fp)
             + String.length (unit_text u) - 1)%nat, String "B" tail).
    split.
    { destruct u as [c|].
      - left. exists c. cbn [fst snd unit_text String.length]. repeat split.
        + exact (Hu c eq_refl).
        + lia.
      - right. cbn [unit_text String.length]. f_equal. lia. }
    exists ((String.length ip + String.length (fraction_text fp)
             + String.length (unit_text u))%nat, tail).
    split.
    { exists "B"%char. cbn [fst snd]. repeat split.
      destruct u; cbn [unit_text String.length]; lia. }
    split; [|reflexivity]. cbn [fst snd]. subst tail. destruct nl; auto.
Qed.

Lemma is_valid_matches s :
  _is_valid_file_size s = true <-> matches size_pattern (upper s).
Proof.
  unfold _is_valid_file_size. rewrite <- re_match_matches.
  destruct (re_match size_pattern (upper s)) as [caps|].
  - split; eauto.
  - split; [discriminate | intros [caps H]; discriminate].
Qed.

(** [_is_valid_file_size] decides the pattern up to the case of letters. *)
Lemma is_valid_spec s :
  _is_valid_file_size s = true <-> matches_ignoring_case size_pattern s.
Proof.
  rewrite is_valid_matches. unfold matches_ignoring_case. split.
  - intros H. exists (upper s). split; [apply upper_idem | exact H].
  - intros (s' & E & H).
    assert (Hs' : upper s' = s').
    { apply size_pattern_matches in H as (ip & fp & u & nl & Hw & ->).
      now apply upper_size_text. }
    rewrite <- E, Hs'. exact H.
Qed.

(** ** The groups of the second pattern *)

Lemma starts_app {A} (l l' : list A) x : starts l x -> starts (l ++ l') x.
Proof. intros [t ->]. exists (t ++ l'). reflexivity. Qed.

Lemma starts_map {A B} (f : A -> B) l x : starts l x -> starts (map f l) (f x).
Proof. intros [t ->]. exists (map f t). reflexivity. Qed.

Lemma starts_flat_map {A B} (f : A -> list B) l x y :
  starts l x -> starts (f x) y -> starts (flat_map f l) y.
Proof. intros [t ->] [t' E]. cbn [flat_map]. rewrite E. exists (t' ++ flat_map f t). reflexivity. Qed.

Lemma many_starts p ds : forall i rest,
  all_in p ds = true -> stops p rest = true ->
  starts (many p i (ds +:+ rest)) ((i + String.length ds)%nat, rest).
Proof.
  induction ds as [|c ds IH]; intros i rest Ha Hs.
  - rewrite app_nil_l. cbn [String.length]. rewrite Nat.add_0_r.
    destruct rest as [|c r]; cbn [many]; [now exists []|].
    cbn [stops] in Hs. destruct (p c); [discriminate | now exists []].
  - cbn [all_in] in Ha. apply andb_prop in Ha as [Hc Ha].
    rewrite app_cons. cbn [many String.length]. rewrite Hc.
    apply starts_app. replace (i + S (String.length ds))%nat
      with (S i + String.length ds)%nat by lia.
    now apply IH.
Qed.

Lemma run_many1_starts p ds caps i rest :
  nonempty ds = true -> all_in p ds = true -> stops p rest = true ->
  starts (run (Many1 p) caps (i, ds +:+ rest)) (caps, ((i + String.length ds)%nat, rest)).
Proof.
  intros Hn Ha Hs. destruct ds as [|c ds]; [discriminate|].
  cbn [all_in] in Ha. apply andb_prop in Ha as [Hc Ha].
  rewrite app_cons. cbn [run String.length]. rewrite Hc.
  replace (i + S (String.length ds))%nat with (S i + String.length ds)%nat by lia.
  apply (starts_map (pair caps)). now apply many_starts.
Qed.

Lemma take_app a b : take (String.length a) (a +:+ b) = a.
Proof.
  unfold take. induction a as [|c a IH].
  - destruct b; reflexivity.
  - rewrite app_cons. cbn [String.length String.substring]. now rewrite IH.
Qed.

Lemma digit_not_dot c : is_digit c = true -> Ascii.eqb c "." = false.
Proof. destruct c as [[] [] [] [] [] [] [] []]; try discriminate; reflexivity. Qed.

Lemma prefix_cases c :
  one_of "KMGT" c = true -> c = "K"%char \/ c = "M"%char \/ c = "G"%char \/ c = "T"%char.
Proof. destruct c as [[] [] [] [] [] [] [] []]; try discriminate; auto. Qed.

Lemma stops_digit_unit u rest :
  (forall c, u = Some c -> one_of "KMGT" c = true) ->
  stops is_digit (unit_text u +:+ rest) = true.
Proof.
  intros Hu. destruct u as [c|]; [|reflexivity].
  destruct (prefix_cases c (Hu c eq_refl)) as [-> | [-> | [-> | ->]]]; reflexivity.
Qed.

Lemma run_seq r1 r2 caps cur :
  run (Seq r1 r2) caps cur
  = flat_map (fun '(caps', cur') => run r2 caps' cur') (run r1 caps cur).
Proof. destruct cur. reflexivity. Qed.

Lemma run_opt r caps cur : run (Opt r) caps cur = run r caps cur ++ [(caps, cur)].
Proof. destruct cur. reflexivity. Qed.

Lemma run_group r caps i s :
  run (Group r) caps (i, s)
  = map (fun '(caps', (j, s')) => (caps' ++ [take (j - i) s], (j, s'))) (run r caps (i, s)).
Proof. reflexivity. Qed.

Lemma run_cls_hit p c s caps i :
  p c = true -> run (Cls p) caps (i, String c s) = [(caps, (S i, s))].
Proof. intros H. cbn [run]. now rewrite H. Qed.

Lemma run_cls_miss p s caps i : stops p s = true -> run (Cls p) caps (i, s) = [].
Proof.
  destruct s as [|c s]; [reflexivity|]. cbn [stops run]. now destruct (p c).
Qed.

Lemma starts_map_eq {A B} (f : A -> B) l x y :
  starts l x -> y = f x -> starts (map f l) y.
Proof. intros H ->. now apply starts_map. Qed.

Lemma stops_dot_unit u rest :
  (forall c, u = Some c -> one_of "KMGT" c = true) ->
  stops (char_is ".") (unit_text u +:+ rest) = true.
Proof.
  intros Hu. destruct u as [c|]; [|reflexivity].
  destruct (prefix_cases c (Hu c eq_refl)) as [-> | [-> | [-> | ->]]]; reflexivity.
Qed.

(** The number group: digits and the optional fraction. *)
Lemma run_number_starts ip fp u rest caps i :
  well_formed_size ip fp u ->
  starts (run (Seq (Many1 is_digit) (Opt (Seq (Cls (char_is ".")) (Many1 is_digit)))) caps
            (i, ip +:+ fraction_text fp +:+ unit_text u +:+ rest))
         (caps, ((i + String.length (ip +:+ fraction_text fp))%nat, unit_text u +:+ rest)).
Proof.
  intros (Hn & Hi & Hf & Hu). rewrite run_seq.
  assert (S0 := stops_digit_unit u rest Hu).
  destruct fp as [f|].
  - destruct (Hf f eq_refl) as [Hfn Hfa]. cbn [fraction_text]. rewrite app_cons.
    eapply starts_flat_map.
    + apply run_many1_starts; [exact Hn | exact Hi | reflexivity].
    + cbn beta iota. rewrite run_opt. apply starts_app. rewrite run_seq.
      rewrite run_cls_hit by reflexivity. cbn [flat_map]. rewrite app_nil_r.
      replace (i + String.length (ip +:+ String "." f))%nat
        with (S (i + String.length ip) + String.length f)%nat
        by (rewrite str_length_app; cbn [String.length]; lia).
      apply run_many1_starts; assumption.
  - cbn [fraction_text]. rewrite app_nil_l, app_nil_r_str.
    eapply starts_flat_map.
    + apply run_many1_starts; [exact Hn | exact Hi | exact S0].
    + cbn beta iota. rewrite run_opt, run_seq.
      rewrite run_cls_miss by (apply stops_dot_unit; exact Hu).
      now eexists.
Qed.

(** The unit group: the optional prefix and [B]. *)
Lemma run_unit_starts u rest caps i :
  (forall c, u = Some c -> one_of "KMGT" c = true) ->
  starts (run (Seq (Opt (Cls (one_of "KMGT"))) (Cls (char_is "B"))) caps
            (i, unit_text u +:+ rest))
         (caps, ((i + String.length (unit_text u))%nat, rest)).
Proof.
  intros Hu. rewrite run_seq, run_opt. destruct u as [c|].
  - cbn [unit_text]. rewrite !app_cons, app_nil_l.
    rewrite run_cls_hit by (exact (Hu c eq_refl)).
    cbn [app flat_map]. rewrite run_cls_hit by reflexivity.
    cbn [app String.length]. replace (i + 2)%nat with (S (S i)) by lia. now eexists.
  - cbn [unit_text]. rewrite app_cons, app_nil_l.
    rewrite run_cls_miss by reflexivity.
    cbn [app flat_map]. rewrite run_cls_hit by reflexivity.
    cbn [app String.length]. replace (i + 1)%nat with (S i) by lia. now eexists.
Qed.

(** The groups [re.match] extracts from a well-formed size text. *)
Lemma size_groups ip fp u nl :
  well_formed_size ip fp u ->
  re_match size_groups_pattern (size_text ip fp u nl)
    = Some [ip +:+ fraction_text fp; unit_text u].
Proof.
  intros Hw. assert (Hu : forall c, u = Some c -> one_of "KMGT" c = true) by apply Hw.
  unfold re_match, size_groups_pattern, size_text.
  set (rest := newline_text nl). set (num := ip +:+ fraction_text fp).
  assert (S1 : starts
     (run (Seq (Group (Seq (Many1 is_digit) (Opt (Seq (Cls (char_is ".")) (Many1 is_digit)))))
               (Group (Seq (Opt (Cls (one_of "KMGT"))) (Cls (char_is "B")))))
          [] (0%nat, ip +:+ fraction_text fp +:+ unit_text u +:+ rest))
     ([num; unit_text u], ((String.length num + String.length (unit_text u))%nat, rest))).
  { rewrite run_seq. eapply starts_flat_map.
    - rewrite run_group. eapply starts_map. apply (run_number_starts ip fp u rest [] 0 Hw).
    - cbn beta iota. fold num. rewrite Nat.add_0_l, Nat.sub_0_r.
      rewrite <- app_assoc_str. fold num. rewrite take_app. cbn [app].
      rewrite run_group. eapply starts_map_eq.
      + apply (run_unit_starts u rest [num] (String.length num) Hu).
      + cbn beta iota.
        replace (String.length num + String.length (unit_text u) - String.length num)%nat
          with (String.length (unit_text u)) by lia.
        now rewrite take_app. }
  destruct S1 as [l ->]. reflexivity.
Qed.

(** ** The size parser *)

Lemma all_digits_all_in s : all_digits s = all_in is_digit s.
Proof. induction s as [|c s IH]; [reflexivity|]. cbn [all_digits all_in]. now rewrite IH. Qed.

Lemma split_dot_number ip fp :
  all_in is_digit ip = true -> split_dot (ip +:+ fraction_text fp) = (ip, fp).
Proof.
  induction ip as [|c ip IH]; intros H.
  - rewrite app_nil_l. destruct fp as [f|]; reflexivity.
  - cbn [all_in] in H. apply andb_prop in H as [Hc Ha].
    rewrite app_cons. cbn [split_dot]. rewrite (digit_not_dot _ Hc), (IH Ha). reflexivity.
Qed.

(** [float] of the number group is the float nearest to the literal. *)
Lemma float_of_str_number ip fp u :
  well_formed_size ip fp u ->
  float_of_str (ip +:+ fraction_text fp) = Ok (fl (decimal_value ip (fraction_digits fp))).
Proof.
  intros (Hn & Hi & Hf & _). unfold float_of_str. rewrite (split_dot_number _ _ Hi).
  rewrite !all_digits_all_in, Hi, Hn.
  destruct fp as [f|]; cbn [fraction_digits].
  - destruct (Hf f eq_refl) as [_ Hfa]. now rewrite Hfa.
  - reflexivity.
Qed.

Lemma unit_lookup u :
  (forall c, u = Some c -> one_of "KMGT" c = true) ->
  dict_get (unit_text u) FILE_SIZE_UNITS = Some (unit_multiplier u) /\
  float_of_int (unit_multiplier u) = Ok (Finite (inject_Z (unit_multiplier u))) /\
  Qeq_bool (inject_Z (unit_multiplier u)) 0 = false.
Proof.
  intros Hu. destruct u as [c|].
  - destruct (prefix_cases c (Hu c eq_refl)) as [-> | [-> | [-> | ->]]];
      repeat split; vm_compute; reflexivity.
  - repeat split; vm_compute; reflexivity.
Qed.

Lemma fl_cases q : (exists r, fl q = Finite r) \/ (exists s, fl q = Infinity s).
Proof. unfold fl. destruct (Qle_bool _ _); eauto. Qed.

(** The product of the literal and the multiplier is a number. *)
Lemma float_size_cases ip fp u :
  (forall c, u = Some c -> one_of "KMGT" c = true) ->
  (exists v, float_size ip fp u = Finite v) \/ (exists s, float_size ip fp u = Infinity s).
Proof.
  intros Hu. destruct (unit_lookup u Hu) as (_ & _ & Hz). unfold float_size.
  destruct (fl_cases (decimal_value ip (fraction_digits fp))) as [[r ->] | [s ->]].
  - cbn [fmul]. apply fl_cases.
  - cbn [fmul]. rewrite Hz. eauto.
Qed.

(** On any spelling of a well-formed size text the parser returns the
    integer part of the binary64 product (and lets the overflow of an
    infinite product through). *)
Lemma parse_size_text s ip fp u nl :
  well_formed_size ip fp u ->
  upper s = size_text ip fp u nl ->
  _parse_file_size_to_bytes s = int_of_float (float_size ip fp u).
Proof.
  intros Hw E. assert (Hu : forall c, u = Some c -> one_of "KMGT" c = true) by apply Hw.
  assert (Hv : _is_valid_file_size s = true).
  { apply is_valid_matches. rewrite E. apply size_pattern_matches.
    exists ip, fp, u, nl. split; [exact Hw | reflexivity]. }
  unfold _parse_file_size_to_bytes. rewrite Hv. cbn [negb]. cbv zeta.
  rewrite E, (size_groups _ _ _ _ Hw).
  rewrite (float_of_str_number _ _ _ Hw). cbn [mbind except_bind].
  destruct (unit_lookup u Hu) as (Hd & Hfi & _).
  rewrite Hd. cbn [mbind except_bind]. rewrite Hfi. cbn [mbind except_bind].
  fold (float_size ip fp u).
  destruct (float_size_cases ip fp u Hu) as [[v ->] | [sg ->]]; reflexivity.
Qed.

Lemma parse_invalid s :
  _is_valid_file_size s = false ->
  _parse_file_size_to_bytes s = Raise (ConfigError (InvalidSizeFormat s)).
Proof. intros H. unfold _parse_file_size_to_bytes. now rewrite H. Qed.

(** C3 (as the code has it).  [_is_valid_file_size] holds exactly of the
    strings that match [^\d+(\.\d+)?[KMGT]?B$] up to the case of letters
    (with Python's [$], which also matches before a final newline); such a
    string is some spelling of digits, an optional fraction, an optional
    unit prefix and [B].  On it the parser returns the float nearest to
    the numeric literal, multiplied by the unit multiplier and truncated,
    whenever that product is finite; [2.5MB] gives 2621440.  On every
    other string it fails with the invalid-format error. *)
Theorem C3_size_parser :
  (forall s, _is_valid_file_size s = true <-> matches_ignoring_case size_pattern s) /\
  (forall s, matches_ignoring_case size_pattern s ->
     exists ip fp u nl, well_formed_size ip fp u /\ upper s = size_text ip fp u nl) /\
  (forall s ip fp u nl v,
     well_formed_size ip fp u ->
     upper s = size_text ip fp u nl ->
     float_size ip fp u = Finite v ->
     _parse_file_size_to_bytes s = Ok (Qtrunc v)) /\
  _parse_file_size_to_bytes "2.5MB" = Ok 2621440 /\
  (forall s, ~ matches_ignoring_case size_pattern s ->
     _parse_file_size_to_bytes s = Raise (ConfigError (InvalidSizeFormat s)) /\
     kind_of (ConfigError (InvalidSizeFormat s)) = Some InvalidFormat).
Proof.
  split; [exact is_valid_spec|]. split; [|split; [|split]].
  - intros s H. apply is_valid_spec, is_valid_matches, size_pattern_matches in H. exact H.
  - intros s ip fp u nl v Hw E Hf.
    rewrite (parse_size_text _ _ _ _ _ Hw E), Hf. reflexivity.
  - vm_compute. reflexivity.
  - intros s H. split; [|reflexivity]. apply parse_invalid.
    destruct (_is_valid_file_size s) eqn:E; [|reflexivity].
    exfalso. apply H, is_valid_spec, E.
Qed.

Lemma C3_witness : _parse_file_size_to_bytes "100kb" = Ok (Qtrunc (102400 # 1)).
Proof.
  apply (proj1 (proj2 (proj2 C3_size_parser)) "100kb" "100" None (Some "K"%char) false).
  - split; [reflexivity|]. split; [reflexivity|].
    split; [intros f [=] | intros c [= <-]; reflexivity].
  - reflexivity.
  - vm_compute. reflexivity.
Defined.

(** C3 as stated fails: for the literal 9007199254740993, which is not a
    binary64 number, the parser returns 9007199254740992, not the literal
    times 1. *)
Lemma C3_counterexample_literal_is_rounded :
  "9007199254740993B" = size_text "9007199254740993" None None false /\
  _parse_file_size_to_bytes "9007199254740993B" = Ok 9007199254740992 /\
  exact_size_bytes "9007199254740993" None None = 9007199254740993.
Proof. repeat split; vm_compute; reflexivity. Qed.
(* ------------------------------------------------------------------ *)
(** ** The scoring loop under a rounding operator

    [rd] rounds with relative error [u] above [wlo] and with an additional
    absolute error [eta] below; at most [K] criteria. *)

Local Open Scope Q_scope.

Section Analysis.

Variables (u eta wlo K : Q) (rd : Q -> Q).

Hypothesis u_pos : 0 < u.
Hypothesis eta_nonneg : 0 <= eta.
Hypothesis wlo_pos : 0 < wlo.
Hypothesis u_small : (8 * K + 5) * u <= 1 # 2.
Hypothesis K_ge_1 : 1 <= K.
Hypothesis eta_small : 3 * eta <= 50 * wlo * u.
Hypothesis eta_le_u : eta <= u.

Hypothesis rd_nonneg : forall x, 0 <= x -> 0 <= rd x.
Hypothesis rd_upper : forall x, 0 <= x -> rd x <= x * (1 + u) + eta.
Hypothesis rd_lower : forall x, wlo <= x -> x * (1 - u) <= rd x.

Lemma u_le_1 : u <= 1 # 16.
Proof. clear - u_pos u_small K_ge_1. nra. Qed.

Lemma step_inv k acc sw :
  0 <= k -> k + 1 <= K -> q_inv u k acc -> q_good wlo sw ->
  q_inv u (k + 1) (q_step rd acc sw) /\ wlo * (1 # 2) <= snd (q_step rd acc sw).
Proof.
  intros Hk HkK (HT0 & HT & HW0 & HW) ((Hs0 & Hs) & (Hw & Hw2)).
  destruct acc as [T W], sw as [s w]. unfold q_step, q_inv. cbn [fst snd] in *.
  assert (Hu1 := u_le_1).
  assert (Hw0 : 0 <= w) by lra.
  assert (Hsw0 : 0 <= s * w) by (apply Qmult_le_0_compat; assumption).
  assert (Hsw : s * w <= 100 * w) by (apply Qmult_le_compat_r; assumption).
  set (p := rd (s * w)).
  assert (Hp0 : 0 <= p) by (apply rd_nonneg; exact Hsw0).
  assert (Hp : p <= s * w * (1 + u) + eta) by (apply rd_upper; exact Hsw0).
  remember (W + w) as X eqn:EX0.
  assert (EX : X == W + w) by (rewrite EX0; reflexivity). clear EX0.
  assert (HX : wlo <= X) by lra.
  assert (HX0 : 0 <= X) by lra.
  assert (HT' : rd (T + p) <= (T + p) * (1 + u) + eta) by (apply rd_upper; lra).
  assert (HW' : X * (1 - u) <= rd X) by (apply rd_lower; exact HX).
  assert (HW'u : rd X <= X * (1 + u) + eta) by (apply rd_upper; exact HX0).
  assert (Hku : 0 <= k * u) by (apply Qmult_le_0_compat; lra).
  assert (HKu : k * u <= 1 # 16) by nra.
  clearbody p.
  (* the sum before rounding *)
  assert (E1 : T + p <= 100 * X * (1 + 4 * (k * u) + u) + eta).
  { assert (A1 : 100 * W * (1 + 4 * k * u) <= 100 * W * (1 + 4 * (k * u) + u)) by nra.
    assert (A2 : s * w * (1 + u) <= 100 * w * (1 + 4 * (k * u) + u)) by nra.
    nra. }
  assert (E2 : rd (T + p) <= 100 * X * (1 + 4 * (k * u) + u) * (1 + u) + 3 * eta) by nra.
  assert (E3 : 100 * X * (1 + 4 * (k * u) + u) * (1 + u) + 3 * eta
               <= 100 * (X * (1 - u)) * (1 + 4 * (k + 1) * u)).
  { assert (D : 100 * (X * (1 - u)) * (1 + 4 * (k + 1) * u)
                - 100 * X * (1 + 4 * (k * u) + u) * (1 + u)
                == 100 * X * u * (1 - 8 * (k * u) - 5 * u)) by ring.
    assert (F : 1 # 2 <= 1 - 8 * (k * u) - 5 * u) by nra.
    assert (G : 50 * wlo * u <= 100 * X * u * (1 - 8 * (k * u) - 5 * u)).
    { assert (G1 : 0 <= X * u) by (apply Qmult_le_0_compat; lra).
      assert (G2 : wlo * u <= X * u) by (apply Qmult_le_compat_r; lra).
      nra. }
    lra. }
  assert (E4 : 100 * (X * (1 - u)) * (1 + 4 * (k + 1) * u)
               <= 100 * rd X * (1 + 4 * (k + 1) * u)).
  { assert (0 <= 1 + 4 * (k + 1) * u) by nra. nra. }
  repeat split.
  - apply rd_nonneg. lra.
  - lra.
  - apply rd_nonneg. exact HX0.
  - assert (B1 : X * u <= (4 * k + 2) * u) by (apply Qmult_le_compat_r; lra).
    lra.
  - assert (B2 : X * u <= X * (1 # 16)) by (apply Qmult_le_l; lra).
    lra.
Qed.

End Analysis.

(** ** Binary64 rounding *)

Lemma pow2_pos k : 0 < 2 ^ k.
Proof. apply Qpower_0_lt. reflexivity. Qed.

Lemma pow2_succ k : 2 ^ (k + 1) == 2 * 2 ^ k.
Proof. rewrite Qpower_plus by (intro H; discriminate H). simpl (2 ^ 1). ring. Qed.

Lemma pow2_pred k : 2 ^ (k - 1) == (1 # 2) * 2 ^ k.
Proof.
  assert (H := pow2_succ (k - 1)). replace (k - 1 + 1)%Z with k in H by lia.
  rewrite H. field.
Qed.

Lemma pow2_le a b : (a <= b)%Z -> 2 ^ a <= 2 ^ b.
Proof. intros H. apply Qpower_le_compat_l; [exact H | discriminate]. Qed.

Lemma Z_pow2_Q (n : Z) : (0 <= n)%Z -> inject_Z (2 ^ n) == 2 ^ n.
Proof. intros H. apply (Zpower_Qpower 2 n H). Qed.

Lemma Q_as_frac (a : Q) : a == inject_Z (Qnum a) / inject_Z (Z.pos (Qden a)).
Proof. destruct a as [n d]. unfold Qeq, Qdiv, Qmult, Qinv, inject_Z. simpl. lia. Qed.

(** [ilog2] is the integer logarithm. *)
Lemma ilog2_spec a : 0 < a -> 2 ^ ilog2 a <= a /\ a < 2 ^ (ilog2 a + 1).
Proof.
  intros Ha.
  remember (Qnum a) as n eqn:En. remember (Z.pos (Qden a)) as d eqn:Ed.
  assert (Hn : (0 < n)%Z) by (destruct a as [n' d']; unfold Qlt in Ha; simpl in *; subst n; lia).
  assert (Hd : (0 < d)%Z) by (subst d; lia).
  destruct (Z.log2_spec n Hn) as [Hn1 Hn2].
  destruct (Z.log2_spec d Hd) as [Hd1 Hd2].
  assert (Hln := Z.log2_nonneg n). assert (Hld := Z.log2_nonneg d).
  assert (Ea : a == inject_Z n / inject_Z d) by (subst n d; apply Q_as_frac).
  assert (Qn1 : 2 ^ Z.log2 n <= inject_Z n) by (rewrite <- Z_pow2_Q by lia; rewrite <- Zle_Qle; lia).
  assert (Qn2 : inject_Z n < 2 * 2 ^ Z.log2 n).
  { rewrite <- pow2_succ, <- Z_pow2_Q by lia. rewrite <- Zlt_Qlt.
    replace (Z.log2 n + 1)%Z with (Z.succ (Z.log2 n)) by lia. lia. }
  assert (Qd1 : 2 ^ Z.log2 d <= inject_Z d) by (rewrite <- Z_pow2_Q by lia; rewrite <- Zle_Qle; lia).
  assert (Qd2 : inject_Z d < 2 * 2 ^ Z.log2 d).
  { rewrite <- pow2_succ, <- Z_pow2_Q by lia. rewrite <- Zlt_Qlt.
    replace (Z.log2 d + 1)%Z with (Z.succ (Z.log2 d)) by lia. lia. }
  assert (Qd0 : 0 < inject_Z d) by (rewrite (Zlt_Qlt 0 d) in Hd; exact Hd).
  assert (Ead : a * inject_Z d == inject_Z n) by (rewrite Ea; field; lra).
  assert (Pd := pow2_pos (Z.log2 d)).
  unfold ilog2. rewrite <- En, <- Ed.
  remember (Z.log2 n - Z.log2 d)%Z as k eqn:Ek0.
  assert (Ek : 2 ^ k * 2 ^ Z.log2 d == 2 ^ Z.log2 n).
  { rewrite <- Qpower_plus by (intro H; discriminate H).
    replace (k + Z.log2 d)%Z with (Z.log2 n) by lia. reflexivity. }
  assert (Pk := pow2_pos k).
  destruct (Qle_bool (2 ^ k) a) eqn:E.
  - apply Qle_bool_iff in E. split; [exact E|].
    rewrite pow2_succ.
    apply Qmult_lt_r with (z := inject_Z d); [exact Qd0|]. rewrite Ead.
    assert (M : 2 ^ k * 2 ^ Z.log2 d <= 2 ^ k * inject_Z d) by (apply Qmult_le_l; assumption).
    lra.
  - assert (E' : a < 2 ^ k).
    { apply Qnot_le_lt. intro H. apply Qle_bool_iff in H. congruence. }
    replace (k - 1 + 1)%Z with k by lia. split; [|exact E'].
    rewrite pow2_pred.
    apply Qmult_le_r with (z := inject_Z d); [exact Qd0|]. rewrite Ead.
    assert (M : 2 ^ k * inject_Z d <= 2 ^ k * (2 * 2 ^ Z.log2 d)) by (apply Qmult_le_l; lra).
    lra.
Qed.

Lemma rne_spec x : Qabs (inject_Z (rne x) - x) <= 1 # 2.
Proof.
  assert (H1 := Qfloor_le x). assert (H2 := Qlt_floor x).
  rewrite inject_Z_plus in H2. change (inject_Z 1) with 1 in H2.
  apply Qabs_Qle_condition. unfold rne.
  destruct (Qcompare_spec (x - inject_Z (Qfloor x)) (1 # 2)) as [E|E|E].
  - destruct (Z.even (Qfloor x)); rewrite ?inject_Z_plus; change (inject_Z 1) with 1; lra.
  - lra.
  - rewrite inject_Z_plus. change (inject_Z 1) with 1. lra.
Qed.

Lemma rne_nonneg x : 0 <= x -> (0 <= rne x)%Z.
Proof.
  intros Hx. assert (H0 : (0 <= Qfloor x)%Z).
  { change 0%Z with (Qfloor 0). apply Qfloor_resp_le. exact Hx. }
  unfold rne. destruct (Qcompare _ _); [destruct (Z.even _)| |]; lia.
Qed.

Lemma rne_comp x y : x == y -> rne x = rne y.
Proof.
  intros E. unfold rne. rewrite (Qfloor_comp _ _ E).
  assert (E' : x - inject_Z (Qfloor y) == y - inject_Z (Qfloor y)) by (rewrite E; reflexivity).
  rewrite (Qcompare_comp _ _ E' (1 # 2) (1 # 2) (Qeq_refl _)). reflexivity.
Qed.

Lemma rne_int n : rne (inject_Z n) = n.
Proof.
  unfold rne. rewrite Qfloor_Z.
  assert (E0 : inject_Z n - inject_Z n == 0) by ring.
  rewrite (Qcompare_comp _ _ E0 (1 # 2) (1 # 2) (Qeq_refl _)). reflexivity.
Qed.

(** An integer below [x + 1/2] bounds the rounding of [x]. *)
Lemma rne_upper x n : x < inject_Z n + (1 # 2) -> (rne x <= n)%Z.
Proof.
  intros H. assert (S := rne_spec x). apply Qabs_Qle_condition in S as [_ S].
  assert (L : inject_Z (rne x) < inject_Z (n + 1)).
  { rewrite inject_Z_plus. change (inject_Z 1) with 1. lra. }
  rewrite <- Zlt_Qlt in L. lia.
Qed.

Lemma Qabs_nonneg_eq q : 0 <= q -> Qabs q = q.
Proof.
  destruct q as [n d]. unfold Qle. simpl. intros H.
  rewrite Z.abs_eq by lia. reflexivity.
Qed.

Lemma rnd_eq q : rnd q == inject_Z (rne (q / 2 ^ ulp_exp q)) * 2 ^ ulp_exp q.
Proof. unfold rnd. apply Qred_correct. Qed.

Lemma rnd_nonneg q : 0 <= q -> 0 <= rnd q.
Proof.
  intros Hq. rewrite rnd_eq. apply Qmult_le_0_compat.
  - rewrite <- (Zle_Qle 0). apply rne_nonneg. apply Qle_shift_div_l; [apply pow2_pos | lra].
  - apply Qlt_le_weak, pow2_pos.
Qed.

(** The error of a rounding is at most half a unit in the last place. *)
Lemma rnd_error q : Qabs (rnd q - q) <= (1 # 2) * 2 ^ ulp_exp q.
Proof.
  rewrite rnd_eq. remember (ulp_exp q) as e eqn:Ee. clear Ee. assert (P := pow2_pos e).
  assert (H := rne_spec (q / 2 ^ e)).
  apply Qabs_Qle_condition in H. apply Qabs_Qle_condition.
  assert (E : q == (q / 2 ^ e) * 2 ^ e) by (field; lra).
  remember (inject_Z (rne (q / 2 ^ e))) as m eqn:Em. clear Em.
  remember (q / 2 ^ e) as x eqn:Ex. clear Ex.
  destruct H as [Ha Hb].
  assert (A := Qmult_le_compat_r _ _ (2 ^ e) Ha (Qlt_le_weak _ _ P)).
  assert (B := Qmult_le_compat_r _ _ (2 ^ e) Hb (Qlt_le_weak _ _ P)).
  split; lra.
Qed.

(** In the normal range the error is relative. *)
Lemma rnd_error_normal q : 2 ^ (-1022) <= q -> Qabs (rnd q - q) <= u64 * q.
Proof.
  intros Hq. assert (Hq0 : 0 < q) by (assert (P := pow2_pos (-1022)); lra).
  eapply Qle_trans; [apply rnd_error|].
  unfold ulp_exp. rewrite Qabs_nonneg_eq by lra.
  destruct (ilog2_spec q Hq0) as [L1 L2].
  assert (HL : (-1022 <= ilog2 q)%Z).
  { destruct (Z_lt_le_dec (ilog2 q) (-1022)) as [C|C]; [|exact C].
    exfalso. assert (2 ^ (ilog2 q + 1) <= 2 ^ (-1022)) by (apply pow2_le; lia). lra. }
  rewrite Z.max_l by lia.
  unfold u64.
  assert (E : (1 # 2) * 2 ^ (ilog2 q - 52) == 2 ^ (-53) * 2 ^ ilog2 q).
  { rewrite <- pow2_pred. rewrite <- Qpower_plus by (intro H; discriminate H).
    replace (ilog2 q - 52 - 1)%Z with (-53 + ilog2 q)%Z by lia. reflexivity. }
  rewrite E. apply Qmult_le_l; [apply pow2_pos | exact L1].
Qed.

(** Everywhere, it is relative up to half the smallest subnormal. *)
Lemma rnd_error_any q : 0 <= q -> Qabs (rnd q - q) <= u64 * q + eta64.
Proof.
  intros Hq. assert (He : 0 < eta64) by apply pow2_pos.
  destruct (Qeq_dec q 0) as [Z|NZ].
  { rewrite rnd_eq. generalize (ulp_exp q). intros e. assert (P := pow2_pos e).
    rewrite (rne_comp (q / 2 ^ e) 0) by (rewrite Z; field; lra).
    rewrite Z. apply Qabs_Qle_condition. change (inject_Z (rne 0)) with 0.
    remember (2 ^ e) as pe. clear Heqpe. unfold u64. remember (2 ^ (-53)) as uu.
    split; lra. }
  destruct (Qlt_le_dec q (2 ^ (-1022))) as [C|C].
  - eapply Qle_trans; [apply rnd_error|].
    assert (E : ulp_exp q = (-1074)%Z).
    { unfold ulp_exp. rewrite Qabs_nonneg_eq by lra. apply Z.max_r.
      assert (Hq0 : 0 < q).
      { destruct (Qle_lt_or_eq _ _ Hq); [assumption | exfalso; apply NZ; symmetry; assumption]. }
      destruct (ilog2_spec q Hq0) as [L1 L2].
      destruct (Z_lt_le_dec (ilog2 q) (-1022)) as [D|D]; [lia|].
      exfalso. assert (2 ^ (-1022) <= 2 ^ ilog2 q) by (apply pow2_le; lia). lra. }
    rewrite E. rewrite <- pow2_pred. change (-1074 - 1)%Z with (-1075)%Z. fold eta64.
    assert (0 <= u64 * q) by (apply Qmult_le_0_compat; [apply Qlt_le_weak, pow2_pos | exact Hq]).
    lra.
  - eapply Qle_trans; [apply rnd_error_normal; exact C|]. lra.
Qed.

Lemma rnd_upper q : 0 <= q -> rnd q <= q * (1 + u64) + eta64.
Proof.
  intros H. assert (E := rnd_error_any q H). apply Qabs_Qle_condition in E. lra.
Qed.

Lemma rnd_lower q : 2 ^ (-33) <= q -> q * (1 - u64) <= rnd q.
Proof.
  intros H. assert (L : 2 ^ (-1022) <= 2 ^ (-33)) by (apply pow2_le; lia).
  assert (E := rnd_error_normal q ltac:(lra)). apply Qabs_Qle_condition in E. lra.
Qed.

(** Integers below [2^53] are binary64 numbers. *)
Lemma rnd_int n : (0 <= n < 2 ^ 53)%Z -> rnd (inject_Z n) = inject_Z n.
Proof.
  intros [H0 H1].
  assert (Hid : forall m, Qred (inject_Z m) = inject_Z m).
  { intros m. apply Qcanon.Qred_identity. simpl. apply Z.gcd_1_r. }
  destruct (Z.eq_dec n 0%Z) as [-> | Hn]; [reflexivity|].
  assert (Hpos : (0 < n)%Z) by lia.
  assert (HL : (0 <= Z.log2 n <= 52)%Z).
  { split; [apply Z.log2_nonneg|]. assert (Z.log2 n < 53)%Z; [|lia].
    apply Z.log2_lt_pow2; lia. }
  assert (Ei : ilog2 (Qabs (inject_Z n)) = Z.log2 n).
  { rewrite Qabs_nonneg_eq by (change 0 with (inject_Z 0); rewrite <- Zle_Qle; lia).
    unfold ilog2. cbn [Qnum Qden inject_Z]. change (Z.log2 1) with 0%Z. rewrite Z.sub_0_r.
    assert (T : Qle_bool (2 ^ Z.log2 n) (inject_Z n) = true).
    { apply Qle_bool_iff. rewrite <- Z_pow2_Q by lia. rewrite <- Zle_Qle.
      apply Z.log2_spec; lia. }
    change (n # 1) with (inject_Z n). now rewrite T. }
  unfold rnd, ulp_exp. rewrite Ei. rewrite Z.max_l by lia.
  remember (52 - Z.log2 n)%Z as d eqn:Ed.
  replace (Z.log2 n - 52)%Z with (- d)%Z by lia.
  assert (Hd : (0 <= d)%Z) by lia.
  assert (Pd := pow2_pos d).
  assert (Einv : 2 ^ (- d) == / 2 ^ d) by apply Qpower_opp.
  assert (Ex : inject_Z n / 2 ^ (- d) == inject_Z (n * 2 ^ d)).
  { rewrite inject_Z_mult, Z_pow2_Q by lia. rewrite Einv. field. lra. }
  rewrite (rne_comp _ _ Ex), rne_int.
  rewrite <- (Hid n). apply Qred_complete.
  rewrite inject_Z_mult, Z_pow2_Q by lia. rewrite Einv. field. lra.
Qed.

(** A rounding below [2^1024] does not overflow. *)
Lemma fl_finite q : 0 <= q -> rnd q < huge -> fl q = Finite (rnd q).
Proof.
  intros Hq Hb. unfold fl. cbv zeta.
  rewrite (Qabs_nonneg_eq _ (rnd_nonneg q Hq)).
  destruct (Qle_bool (2 ^ 1024) (rnd q)) eqn:E; [|reflexivity].
  apply Qle_bool_iff in E. unfold huge in Hb. exfalso.
  apply (Qlt_not_le _ _ Hb E).
Qed.

(** ** Scores and weights as rationals *)

Lemma u64_val : u64 == 1 # 9007199254740992.
Proof. reflexivity. Qed.

Lemma wlo64_val : wlo64 == 1 # 8589934592.
Proof. reflexivity. Qed.

Lemma max_count_val : max_count == 4294967296.
Proof. reflexivity. Qed.

Lemma eta64_le : 0 < eta64 /\ eta64 <= 1 # 1267650600228229401496703205376.
Proof.
  split; [apply pow2_pos|]. apply Qle_bool_iff. vm_compute. reflexivity.
Qed.

Lemma huge_ge : 10000000000000000 <= huge.
Proof. apply Qle_bool_iff. vm_compute. reflexivity. Qed.

Lemma fl_small q b : 0 <= q -> rnd q <= b -> b <= 10000000000000000 -> fl q = Finite (rnd q).
Proof.
  intros Hq Hb Hs. apply fl_finite; [exact Hq|].
  assert (H := huge_ge). assert (P : 10000000000000000 < 10000000000000000 + 1) by reflexivity.
  destruct (Qlt_le_dec (rnd q) huge) as [L|L]; [exact L|].
  exfalso. assert (B : rnd q <= 10000000000000000) by (eapply Qle_trans; eassumption).
  assert (C : huge <= 10000000000000000) by (eapply Qle_trans; eassumption).
  clear - C. revert C. apply Qlt_not_le. apply Qlt_alt. vm_compute. reflexivity.
Qed.

Lemma float_of_small_int n :
  (0 <= n <= 2 ^ 32)%Z -> float_of_int n = Ok (Finite (inject_Z n)).
Proof.
  intros H. unfold float_of_int.
  assert (E : rnd (inject_Z n) = inject_Z n) by (apply rnd_int; lia).
  assert (F : fl (inject_Z n) = Finite (rnd (inject_Z n))).
  { apply (fl_small _ (inject_Z (2 ^ 32))).
    - change 0 with (inject_Z 0). rewrite <- Zle_Qle. lia.
    - rewrite E. rewrite <- Zle_Qle. lia.
    - apply Qle_bool_iff. vm_compute. reflexivity. }
  rewrite F, E. reflexivity.
Qed.

(** A validated score converts to a float between 0 and 100. *)
Lemma valid_score v :
  is_number v = true -> between 0 v 100 = Ok true ->
  as_float v = Ok (Finite (score_q v)) /\ score_float v = Finite (score_q v) /\
  0 <= score_q v <= 100.
Proof.
  intros Hn Hb. destruct v as [ | b | n | x | | | | | ]; try discriminate.
  - cbn [as_float score_float score_q].
    rewrite float_of_small_int by (destruct b; cbn; lia).
    destruct b; (split; [reflexivity | split; [reflexivity | split; apply Qle_bool_iff; reflexivity]]).
  - unfold between in Hb. cbn [int_le_val val_le_int mbind except_bind] in Hb.
    destruct (0 <=? n)%Z eqn:E0; [|discriminate].
    injection Hb as Hb. apply Z.leb_le in E0, Hb.
    cbn [as_float score_float score_q].
    rewrite float_of_small_int by lia.
    assert (F : fl (inject_Z n) = Finite (inject_Z n)).
    { assert (G := float_of_small_int n ltac:(lia)). unfold float_of_int in G.
      destruct (fl (inject_Z n)); congruence. }
    rewrite F. repeat split.
    + change 0 with (inject_Z 0). rewrite <- Zle_Qle. lia.
    + change 100 with (inject_Z 100). rewrite <- Zle_Qle. lia.
  - unfold between in Hb. cbn [int_le_val val_le_int mbind except_bind] in Hb.
    destruct x as [q | s | ].
    + cbn [fle] in Hb. destruct (Qle_bool (inject_Z 0) q) eqn:E0; [|discriminate].
      injection Hb as Hb. apply Qle_bool_iff in E0, Hb.
      cbn [as_float score_float score_q]. repeat split; assumption.
    + destruct s; cbn [fle] in Hb; discriminate.
    + cbn [fle] in Hb. discriminate.
Qed.

Lemma dict_get_forallb {A : Type} (p : A -> bool) c (d : list (string * A)) w :
  forallb (fun kv => p (snd kv)) d = true -> dict_get c d = Some w -> p w = true.
Proof.
  induction d as [|[k v] d IH]; [discriminate|].
  cbn [forallb dict_get snd]. intros H. apply andb_prop in H as [Hv Hd].
  destruct (String.eqb k c); [intros [= <-]; exact Hv | apply IH; exact Hd].
Qed.

(** The named weights are binary64 numbers between [2^-33] and 2. *)
Lemma named_weight c w :
  dict_get c DEFAULT_CRITERIA_WEIGHTS = Some w ->
  exists q, w = Finite q /\ wlo64 <= q <= 2.
Proof.
  intros H.
  assert (T : forallb (fun kv => weight_in_range (snd kv)) DEFAULT_CRITERIA_WEIGHTS = true)
    by (vm_compute; reflexivity).
  assert (R := dict_get_forallb weight_in_range c _ w T H). clear T H.
  destruct w as [q| |]; cbn [weight_in_range] in R; [|discriminate R..].
  apply andb_prop in R as [R1 R2]. apply Qle_bool_iff in R1, R2. eauto.
Qed.

Lemma count_Q (count : nat) :
  (1 <= count)%nat -> (Z.of_nat count <= 2 ^ 32)%Z ->
  1 <= inject_Z (Z.of_nat count) <= max_count.
Proof.
  intros H1 H2. unfold max_count. split.
  - change 1 with (inject_Z 1). rewrite <- Zle_Qle. lia.
  - rewrite <- Zle_Qle. exact H2.
Qed.

(** The equal share [1.0 / len] is a binary64 number in the same range. *)
Lemma equal_share (count : nat) :
  (1 <= count)%nat -> (Z.of_nat count <= 2 ^ 32)%Z ->
  let x := 1 / inject_Z (Z.of_nat count) in
  fl x = Finite (rnd x) /\ wlo64 <= rnd x <= 2.
Proof.
  intros H1 H2 x. destruct (count_Q count H1 H2) as [C1 C2].
  assert (U := u64_val). assert (W := wlo64_val). assert (M := max_count_val).
  destruct eta64_le as [E0 E1].
  remember (inject_Z (Z.of_nat count)) as n eqn:En. clear En.
  assert (Hx : x * n == 1) by (unfold x; field; lra).
  assert (Hx0 : 0 <= x).
  { unfold x. apply Qle_shift_div_l; lra. }
  assert (Hx1 : x <= 1).
  { unfold x. apply Qle_shift_div_r; lra. }
  assert (Hx2 : 1 # 4294967296 <= x).
  { unfold x. apply Qle_shift_div_l; lra. }
  clearbody x.
  assert (Up := rnd_upper x Hx0).
  assert (Lo := rnd_lower x ltac:(fold wlo64; lra)).
  assert (P1 : x * u64 <= 1 * u64) by (apply Qmult_le_compat_r; lra).
  assert (B2 : rnd x <= 2) by lra.
  split; [apply (fl_small _ 2); [exact Hx0 | exact B2 | apply Qle_bool_iff; reflexivity]|].
  split; [|exact B2]. lra.
Qed.

(** The weight the loop uses: a binary64 number in range, which is also
    the weight of the specification. *)
Lemma weight_spec (count : nat) c :
  (1 <= count)%nat -> (Z.of_nat count <= 2 ^ 32)%Z ->
  criterion_weight count c = Ok (Finite (weight_q count c)) /\
  spec_weight count c = Finite (weight_q count c) /\
  wlo64 <= weight_q count c <= 2.
Proof.
  intros H1 H2. unfold criterion_weight, spec_weight, weight_q.
  rewrite float_of_small_int by lia. cbn [mbind except_bind fdiv].
  assert (Z0 : Qeq_bool (inject_Z (Z.of_nat count)) 0 = false).
  { destruct (Qeq_bool _ 0) eqn:E; [|reflexivity]. apply Qeq_bool_iff in E.
    destruct (count_Q count H1 H2) as [C1 _]. lra. }
  rewrite Z0. cbn [mbind except_bind].
  destruct (equal_share count H1 H2) as [F B]. cbv zeta in F, B.
  destruct (dict_get c DEFAULT_CRITERIA_WEIGHTS) as [w|] eqn:E.
  - destruct (named_weight c w E) as (q & -> & Hq). auto.
  - rewrite F. auto.
Qed.

(** ** The loop in binary64 *)

(** One turn of the loop in binary64 keeps the invariant. *)
Lemma step64_inv k acc sw :
  0 <= k -> k + 1 <= max_count -> q_inv u64 k acc -> q_good wlo64 sw ->
  q_inv u64 (k + 1) (q_step rnd acc sw) /\ wlo64 * (1 # 2) <= snd (q_step rnd acc sw).
Proof.
  apply (step_inv u64 eta64 wlo64 max_count rnd).
  - apply pow2_pos.
  - apply Qlt_le_weak, pow2_pos.
  - apply pow2_pos.
  - apply Qle_bool_iff. vm_compute. reflexivity.
  - apply Qle_bool_iff. vm_compute. reflexivity.
  - apply Qle_bool_iff. vm_compute. reflexivity.
  - apply Qle_bool_iff. vm_compute. reflexivity.
  - exact rnd_nonneg.
  - exact rnd_upper.
  - exact rnd_lower.
Qed.

Lemma length_Q {A : Type} (x : A) (l : list A) :
  inject_Z (Z.of_nat (length (x :: l))) == 1 + inject_Z (Z.of_nat (length l)).
Proof. cbn [length]. rewrite Nat2Z.inj_succ. unfold Z.succ. rewrite inject_Z_plus. ring. Qed.

Lemma length_Q_nonneg {A : Type} (l : list A) : 0 <= inject_Z (Z.of_nat (length l)).
Proof. change 0 with (inject_Z 0). rewrite <- Zle_Qle. lia. Qed.

(** The bounds of the invariant keep the sums far from overflow. *)
Lemma inv_bounds k acc :
  0 <= k -> k <= max_count -> q_inv u64 k acc ->
  fst acc <= 10000000000000 /\ snd acc <= 10000000000000.
Proof.
  intros Hk HK (A & B & C & D). destruct acc as [T W]. cbn [fst snd] in *.
  assert (U := u64_val). assert (M := max_count_val).
  assert (Hku : 0 <= k * u64) by (apply Qmult_le_0_compat; lra).
  assert (HKu : k * u64 <= max_count * u64) by (apply Qmult_le_compat_r; lra).
  assert (MU : max_count * u64 <= 1 # 16).
  { apply Qle_bool_iff. vm_compute. reflexivity. }
  assert (P : (4 * (k * u64)) * (100 * W) <= 1 * (100 * W)).
  { apply Qmult_le_compat_r; lra. }
  split; lra.
Qed.

(** The product of a score and a weight is far from overflow. *)
Lemma product_finite s w :
  0 <= s <= 100 -> wlo64 <= w <= 2 ->
  0 <= s * w /\ fl (s * w) = Finite (rnd (s * w)) /\ 0 <= rnd (s * w).
Proof.
  intros Hs Hw. assert (P := pow2_pos (-33)). unfold wlo64 in Hw.
  assert (Hsw0 : 0 <= s * w) by (apply Qmult_le_0_compat; lra).
  split; [exact Hsw0|]. split; [|apply rnd_nonneg; exact Hsw0].
  apply (fl_small _ 1000); [exact Hsw0 | | apply Qle_bool_iff; reflexivity].
  assert (Up := rnd_upper _ Hsw0). assert (U := u64_val). destruct eta64_le as [_ E1].
  assert (P1 : s * w <= 100 * w) by (apply Qmult_le_compat_r; lra).
  assert (P2 : s * w * u64 <= 200 * u64) by (apply Qmult_le_compat_r; lra).
  lra.
Qed.

(** The loop of the code, the two sums of the specification and the loop
    on rationals agree on validated scores, and the invariant holds. *)
Lemma accumulate_link (count : nat) :
  (1 <= count)%nat -> (Z.of_nat count <= 2 ^ 32)%Z ->
  forall its k acc,
    validate_scores its = Ok tt ->
    0 <= k -> k + inject_Z (Z.of_nat (length its)) <= max_count ->
    q_inv u64 k acc ->
    let r := fold_left (q_step rnd) (map (item_q count) its) acc in
    accumulate count its (Finite (fst acc), Finite (snd acc))
      = Ok (Finite (fst r), Finite (snd r)) /\
    fold_left fadd (map (fun '(c, s) => fmul (score_float s) (spec_weight count c)) its)
      (Finite (fst acc)) = Finite (fst r) /\
    fold_left fadd (map (fun '(c, _) => spec_weight count c) its) (Finite (snd acc))
      = Finite (snd r) /\
    q_inv u64 (k + inject_Z (Z.of_nat (length its))) r /\
    (its <> [] -> wlo64 * (1 # 2) <= snd r).
Proof.
  intros H1 H2. induction its as [|[c s] its IH]; intros k acc Hv Hk HK Hi; cbv zeta.
  - cbn [map fold_left accumulate length]. repeat split; try congruence.
    + destruct Hi as (A & B & C & D). exact A.
    + destruct Hi as (A & B & C & D). change (inject_Z (Z.of_nat 0)) with 0.
      assert (E : k + 0 == k) by ring. rewrite E. exact B.
    + destruct Hi as (A & B & C & D). exact C.
    + destruct Hi as (A & B & C & D). change (inject_Z (Z.of_nat 0)) with 0. lra.
  - cbn [validate_scores] in Hv.
    destruct (is_number s) eqn:En; [|discriminate]. cbn [negb] in Hv.
    destruct (between 0 s 100) as [[|]|] eqn:Eb; try discriminate.
    cbn [mbind except_bind negb] in Hv.
    destruct (valid_score s En Eb) as (Ea & Es & Hs).
    destruct (weight_spec count c H1 H2) as (Ew & Esw & Hw).
    assert (EL := length_Q (c, s) its). assert (L0 := length_Q_nonneg its).
    assert (Hg : q_good wlo64 (item_q count (c, s))) by (split; assumption).
    destruct (step64_inv k acc _ Hk ltac:(lra) Hi Hg) as [Hi' Hlo].
    destruct (inv_bounds (k + 1) _ ltac:(lra) ltac:(lra) Hi') as [BT BW].
    destruct (product_finite _ _ Hs Hw) as (Hsw0 & Fp & Rp).
    destruct Hi as (A & B & C & D).
    assert (FT : fl (fst acc + rnd (score_q s * weight_q count c))
                 = Finite (rnd (fst acc + rnd (score_q s * weight_q count c)))).
    { apply (fl_small _ 10000000000000); [lra | exact BT | apply Qle_bool_iff; reflexivity]. }
    assert (FW : fl (snd acc + weight_q count c) = Finite (rnd (snd acc + weight_q count c))).
    { apply (fl_small _ 10000000000000);
        [unfold wlo64 in Hw; assert (P := pow2_pos (-33)); lra | exact BW
        | apply Qle_bool_iff; reflexivity]. }
    destruct (IH (k + 1) (q_step rnd acc (item_q count (c, s))) Hv ltac:(lra) ltac:(lra) Hi')
      as (I1 & I2 & I3 & I4 & I5).
    cbv zeta in I1, I2, I3, I4, I5.
    cbn [accumulate map fold_left].
    rewrite Ew. cbn [mbind except_bind]. unfold mul_float. rewrite Ea. cbn [mbind except_bind].
    rewrite Es, Esw. cbn [fmul fadd fst snd]. rewrite Fp. cbn [fadd]. rewrite FT, FW.
    split; [exact I1|]. split; [exact I2|]. split; [exact I3|]. split.
    + destruct I4 as (A' & B' & C' & D').
      assert (EK : k + inject_Z (Z.of_nat (length ((c, s) :: its)))
                   == k + 1 + inject_Z (Z.of_nat (length its))) by (rewrite EL; ring).
      unfold q_inv. rewrite EK. repeat split; assumption.
    + intros _. destruct its as [|it its']; [exact Hlo | apply I5; discriminate].
Qed.

(** ** The quotient and its rounding to two decimals *)

(** Rounding a number of at most 99.99 or exactly 100 to binary64 stays
    within [0, 100]. *)
Lemma hundredths_in_range m :
  (0 <= m <= 10000)%Z ->
  exists q, fl (inject_Z m / 100) = Finite q /\ 0 <= q <= 100.
Proof.
  intros [H0 H1]. destruct (Z.eq_dec m 10000%Z) as [-> | Hm].
  - exists 100. split; [vm_compute; reflexivity | split; apply Qle_bool_iff; reflexivity].
  - assert (Hm' : (m <= 9999)%Z) by lia.
    assert (M0 : 0 <= inject_Z m) by (change 0 with (inject_Z 0); rewrite <- Zle_Qle; lia).
    assert (M1 : inject_Z m <= 9999) by (change 9999 with (inject_Z 9999); rewrite <- Zle_Qle; lia).
    remember (inject_Z m) as x eqn:Ex. clear Ex.
    assert (Y0 : 0 <= x / 100) by (apply Qle_shift_div_l; lra).
    assert (Y1 : x / 100 <= 9999 # 100) by (apply Qle_shift_div_r; lra).
    remember (x / 100) as y eqn:Ey. clear Ey.
    assert (Up := rnd_upper y Y0). assert (R0 := rnd_nonneg y Y0).
    assert (U := u64_val). destruct eta64_le as [_ E1].
    assert (P : y * u64 <= (9999 # 100) * u64) by (apply Qmult_le_compat_r; lra).
    assert (B : rnd y <= 100) by lra.
    exists (rnd y). split; [|split; assumption].
    apply (fl_small _ 100); [exact Y0 | exact B | apply Qle_bool_iff; reflexivity].
Qed.

(** After the loop the total weight is positive, the quotient is a number,
    and its rounding to two decimals lies in [0, 100]. *)
Lemma quotient_in_range k T W :
  0 <= k -> k <= max_count -> q_inv u64 k (T, W) -> wlo64 * (1 # 2) <= W ->
  0 < W /\
  flt (Finite 0) (Finite W) = true /\
  fdiv (Finite T) (Finite W) = Ok (Finite (rnd (T / W))) /\
  exists q, round2 (Finite (rnd (T / W))) = Finite q /\ 0 <= q <= 100.
Proof.
  intros Hk HK (A & B & C & D) Hlo. cbn [fst snd] in *.
  assert (Wl := wlo64_val). assert (U := u64_val). assert (M := max_count_val).
  destruct eta64_le as [_ E1].
  assert (W0 : 0 < W) by lra.
  assert (NZ : Qeq_bool W 0 = false).
  { destruct (Qeq_bool W 0) eqn:E; [|reflexivity]. apply Qeq_bool_iff in E. lra. }
  assert (NL : Qle_bool W 0 = false).
  { destruct (Qle_bool W 0) eqn:E; [|reflexivity]. apply Qle_bool_iff in E. lra. }
  assert (X0 : 0 <= T / W) by (apply Qle_shift_div_l; lra).
  assert (Hku : k * u64 <= max_count * u64) by (apply Qmult_le_compat_r; lra).
  assert (X1 : T / W <= 100 * (1 + 4 * k * u64)).
  { apply Qle_shift_div_r; [exact W0|].
    assert (E : 100 * (1 + 4 * k * u64) * W == 100 * W * (1 + 4 * k * u64)) by ring.
    rewrite E. exact B. }
  assert (MU : max_count * u64 <= 1 # 2097152) by (apply Qle_bool_iff; vm_compute; reflexivity).
  assert (X2 : T / W <= 100 + (1 # 1000)) by lra.
  remember (T / W) as x eqn:Ex.
  assert (Up := rnd_upper x X0). assert (R0 := rnd_nonneg x X0).
  assert (P : x * u64 <= (100 + (1 # 1000)) * u64) by (apply Qmult_le_compat_r; lra).
  assert (R1 : rnd x <= 100 + (2 # 1000)) by lra.
  assert (F : fl x = Finite (rnd x)).
  { apply (fl_small _ 101); [exact X0 | lra | apply Qle_bool_iff; reflexivity]. }
  split; [exact W0|]. split; [cbn [flt fle]; rewrite NL; reflexivity|].
  split; [cbn [fdiv]; rewrite NZ, <- Ex, F; reflexivity|].
  cbn [round2]. apply hundredths_in_range. split.
  - apply rne_nonneg. apply Qmult_le_0_compat; lra.
  - apply rne_upper. change (inject_Z 10000) with 10000. lra.
Qed.

Lemma _calculate_overall_score_items self cs :
  getattr self "criteria_scores" = Ok (PDict cs) ->
  _calculate_overall_score self =
  ('(total_score, total_weight) ← accumulate (length cs) cs (Finite 0, Finite 0);
   ratio ← (if flt (Finite 0) total_weight then fdiv total_score total_weight
            else Ok (Finite 0));
   Ok (round2 ratio)).
Proof. intros H. unfold _calculate_overall_score. rewrite H. reflexivity. Qed.

(** On validated scores of at most [2^32] criteria, the computed score is
    the weighted mean of the specification, a number in [0, 100]; the total
    weight is positive. *)
Lemma calculate_score cs :
  cs <> [] -> validate_scores cs = Ok tt -> (Z.of_nat (length cs) <= 2 ^ 32)%Z ->
  exists T W q,
    accumulate (length cs) cs (Finite 0, Finite 0) = Ok (Finite T, Finite W) /\
    weighted_sum cs = Finite T /\ weight_sum cs = Finite W /\
    0 < W /\ 0 <= q <= 100 /\
    weighted_mean cs = Ok (Finite q) /\
    forall self, getattr self "criteria_scores" = Ok (PDict cs) ->
                 _calculate_overall_score self = Ok (Finite q).
Proof.
  intros Hne Hv Hb.
  assert (H1 : (1 <= length cs)%nat) by (destruct cs; [congruence | cbn [length]; lia]).
  assert (I0 : q_inv u64 0 (0, 0)).
  { unfold q_inv. cbn [fst snd]. repeat split; apply Qle_bool_iff; reflexivity. }
  assert (L : 0 + inject_Z (Z.of_nat (length cs)) <= max_count).
  { unfold max_count. assert (E : 0 + inject_Z (Z.of_nat (length cs))
                                   == inject_Z (Z.of_nat (length cs))) by ring.
    rewrite E. rewrite <- Zle_Qle. exact Hb. }
  destruct (accumulate_link (length cs) H1 Hb cs 0 (0, 0) Hv ltac:(lra) L I0)
    as (A1 & A2 & A3 & A4 & A5).
  cbv zeta in A1, A2, A3, A4, A5. cbn [fst snd] in A1, A2, A3.
  destruct (fold_left (q_step rnd) (map (item_q (length cs)) cs) (0, 0)) as [T W] eqn:ER.
  cbn [fst snd] in *.
  assert (L0 := length_Q_nonneg cs).
  destruct (quotient_in_range (0 + inject_Z (Z.of_nat (length cs))) T W ltac:(lra) L A4 (A5 Hne)) as (W0 & Ft & Fd & q & Rq & Hq).
  exists T, W, q.
  split; [exact A1|]. split; [exact A2|]. split; [exact A3|]. split; [exact W0|].
  split; [exact Hq|]. split.
  - unfold weighted_mean. fold (weighted_sum cs) in A2. fold (weight_sum cs) in A3.
    rewrite A2, A3, Fd. cbn [mbind except_bind]. rewrite Rq. reflexivity.
  - intros self Hs. rewrite (_calculate_overall_score_items self cs Hs), A1.
    cbn [mbind except_bind]. rewrite Ft, Fd. cbn [mbind except_bind]. rewrite Rq. reflexivity.
Qed.

(** ** The overall score *)

(** A successful construction has validated a non-empty mapping. *)
Lemma AnalysisResult_new_valid kwargs now a cs :
  AnalysisResult_new kwargs now = Ok a ->
  dict_get "criteria_scores" kwargs = Some (PDict cs) ->
  cs <> [] /\ validate_scores cs = Ok tt.
Proof.
  intros Hnew Hcs.
  destruct (AnalysisResult_new_inv _ _ _ Hnew) as (pid & cs' & _ & Hcs' & Hp).
  rewrite Hcs in Hcs'. injection Hcs' as <-.
  unfold AnalysisResult_post_init in Hp.
  destruct (AnalysisResult_validate _) as [[]|e] eqn:Hval; [|discriminate]. clear Hp.
  rewrite AnalysisResult_validate_obj in Hval.
  destruct (truthy pid); [|discriminate].
  destruct (truthy (PDict cs)) eqn:Ht; [|discriminate].
  cbn [negb] in Hval.
  match type of Hval with
  | mbind _ ?m = _ => destruct m as [[]|]; [|discriminate]
  end.
  cbn [mbind except_bind items] in Hval.
  split; [intros ->; discriminate Ht | exact Hval].
Qed.

(** With an explicit score the object keeps it, and validation has checked it. *)
Lemma AnalysisResult_new_explicit kwargs now a o :
  AnalysisResult_new kwargs now = Ok a ->
  kwarg kwargs "overall_score" PNone = o ->
  is_none o = false ->
  a !! "overall_score" = Some o /\ between 0 o 100 = Ok true.
Proof.
  intros Hnew Ho Hn.
  destruct (AnalysisResult_new_inv _ _ _ Hnew) as (pid & cs & _ & _ & Hp).
  rewrite Ho in Hp.
  rewrite (AnalysisResult_post_init_explicit _ _ _ _ _ _ _ Hn) in Hp.
  destruct (AnalysisResult_validate _) as [[]|e] eqn:Hval; [|discriminate].
  cbn [mbind except_bind] in Hp. injection Hp as <-.
  split; [reflexivity|].
  rewrite AnalysisResult_validate_obj in Hval.
  destruct (truthy pid); [|discriminate]. destruct (truthy cs); [|discriminate].
  cbn [negb] in Hval. rewrite Hn in Hval. cbn [negb] in Hval.
  destruct (between 0 o 100) as [[]|]; [reflexivity | discriminate..].
Qed.

(** Without one the object stores the score [_calculate_overall_score]
    returns. *)
Lemma AnalysisResult_new_computed kwargs now a cs :
  AnalysisResult_new kwargs now = Ok a ->
  dict_get "criteria_scores" kwargs = Some (PDict cs) ->
  kwarg kwargs "overall_score" PNone = PNone ->
  exists self score,
    getattr self "criteria_scores" = Ok (PDict cs) /\
    _calculate_overall_score self = Ok score /\
    a !! "overall_score" = Some (PFloat score).
Proof.
  intros Hnew Hcs Hos.
  destruct (AnalysisResult_new_inv _ _ _ Hnew) as (pid & cs' & _ & Hcs' & Hp).
  rewrite Hcs in Hcs'. injection Hcs' as <-. rewrite Hos in Hp.
  rewrite AnalysisResult_post_init_computed in Hp.
  destruct (AnalysisResult_validate _) as [[]|e]; [|discriminate].
  cbn [mbind except_bind] in Hp.
  destruct (_calculate_overall_score _) as [score|] eqn:Hsc; [|discriminate].
  cbn [mbind except_bind] in Hp. injection Hp as <-.
  eexists _, score. split; [|split; [exact Hsc | reflexivity]]. reflexivity.
Qed.

Lemma between_finite q : 0 <= q <= 100 -> between 0 (PFloat (Finite q)) 100 = Ok true.
Proof.
  intros [H0 H1]. unfold between. cbn [int_le_val val_le_int mbind except_bind fle].
  apply Qle_bool_iff in H0, H1.
  change (inject_Z 0) with 0. change (inject_Z 100) with 100. rewrite H0, H1. reflexivity.
Qed.

(** A criterion outside the table gets the equal share. *)
Lemma spec_weight_other n c :
  ~ In c ["price"; "technical_approach"; "experience"; "timeline"; "risk"] ->
  spec_weight n c = fl (1 / inject_Z (Z.of_nat n)).
Proof.
  intros H. unfold spec_weight, DEFAULT_CRITERIA_WEIGHTS. cbn [dict_get].
  repeat match goal with
  | |- context [String.eqb ?k c] =>
      destruct (String.eqb_spec k c) as [E|_]; [exfalso; apply H; rewrite <- E; cbn; tauto|]
  end.
  reflexivity.
Qed.

(** The construction of the two scenarios. *)
Lemma scores_new cs score now :
  truthy (PDict cs) = true -> validate_scores cs = Ok tt ->
  (('(total_score, total_weight) ← accumulate (length cs) cs (Finite 0, Finite 0);
    ratio ← (if flt (Finite 0) total_weight then fdiv total_score total_weight
             else Ok (Finite 0));
    Ok (round2 ratio)) = Ok score) ->
  AnalysisResult_new (scores_kwargs cs) now =
  Ok (<["_frozen" := PBool true]>
        (analysis_obj (PStr "prop-001") (PDict cs) (PFloat score)
           (PList []) (PList []) PNone (PDatetime now))).
Proof.
  intros Ht Hv Hs.
  change (AnalysisResult_new (scores_kwargs cs) now)
    with (AnalysisResult_post_init
            (analysis_obj (PStr "prop-001") (PDict cs) PNone (PList []) (PList []) PNone
               (PDatetime now))).
  rewrite AnalysisResult_post_init_computed, AnalysisResult_validate_obj.
  change (truthy (PStr "prop-001")) with true. rewrite Ht.
  cbn [negb is_none mbind except_bind items]. rewrite Hv. cbn [mbind except_bind].
  rewrite (_calculate_overall_score_items
             (analysis_obj (PStr "prop-001") (PDict cs) PNone (PList []) (PList []) PNone
                (PDatetime now)) cs eq_refl), Hs.
  reflexivity.
Qed.

Lemma named_scores_new : AnalysisResult_new (scores_kwargs named_scores) sample_now = Ok named_analysis.
Proof. apply scores_new; vm_compute; reflexivity. Qed.

Lemma custom_scores_new : AnalysisResult_new (scores_kwargs custom_scores) sample_now = Ok custom_analysis.
Proof. apply scores_new; vm_compute; reflexivity. Qed.

(** C2.  An analysis result constructed without an explicit overall score,
    from at most [2^32] criteria, stores the weighted mean of its scores in
    binary64 arithmetic: the sum of the products of score and weight
    divided by the sum of the weights, rounded to two decimals.  The weight
    is 0.30, 0.25, 0.20, 0.15 or 0.10 for the five named criteria and one
    over the number of criteria for any other.  The named scenario gives
    81.75 (327/4) and the custom one 50. *)
Theorem C2_weighted_score :
  (forall kwargs now a cs,
     AnalysisResult_new kwargs now = Ok a ->
     dict_get "criteria_scores" kwargs = Some (PDict cs) ->
     kwarg kwargs "overall_score" PNone = PNone ->
     (Z.of_nat (length cs) <= 2 ^ 32)%Z ->
     exists r, weighted_mean cs = Ok r /\ a !! "overall_score" = Some (PFloat r)) /\
  (forall n,
     spec_weight n "price" = fl (30 # 100) /\
     spec_weight n "technical_approach" = fl (25 # 100) /\
     spec_weight n "experience" = fl (20 # 100) /\
     spec_weight n "timeline" = fl (15 # 100) /\
     spec_weight n "risk" = fl (10 # 100) /\
     forall c, ~ In c ["price"; "technical_approach"; "experience"; "timeline"; "risk"] ->
               spec_weight n c = fl (1 / inject_Z (Z.of_nat n))) /\
  (exists a, AnalysisResult_new (scores_kwargs named_scores) sample_now = Ok a /\
             a !! "overall_score" = Some (PFloat (Finite (327 # 4)))) /\
  (exists a, AnalysisResult_new (scores_kwargs custom_scores) sample_now = Ok a /\
             a !! "overall_score" = Some (PFloat (Finite 50))).
Proof.
  split; [|split; [|split]].
  - intros kwargs now a cs Hnew Hcs Hos Hb.
    destruct (AnalysisResult_new_valid _ _ _ _ Hnew Hcs) as [Hne Hv].
    destruct (AnalysisResult_new_computed _ _ _ _ Hnew Hcs Hos) as (self & score & Hg & Hsc & Ha).
    destruct (calculate_score cs Hne Hv Hb) as (T & W & q & _ & _ & _ & _ & _ & Hm & Hc).
    rewrite (Hc self Hg) in Hsc. injection Hsc as <-.
    exists (Finite q). split; assumption.
  - intros n. repeat split. apply spec_weight_other.
  - exists named_analysis. split; [exact named_scores_new | reflexivity].
  - exists custom_analysis. split; [exact custom_scores_new | reflexivity].
Qed.

Lemma C2_witness :
  exists r, weighted_mean named_scores = Ok r /\
            named_analysis !! "overall_score" = Some (PFloat r).
Proof.
  apply (proj1 C2_weighted_score (scores_kwargs named_scores) sample_now named_analysis
           named_scores named_scores_new).
  - reflexivity.
  - reflexivity.
  - vm_compute. discriminate.
Defined.

(** C2 in exact arithmetic fails: for the scores price 1 and 0 for
    technical_approach, timeline and risk, the weighted mean is
    0.30 / 0.80 = 0.375, which rounds to 0.38, ties to even or up; the
    code, in binary64, stores 0.37. *)
Lemma C2_counterexample_tie_rounds_down :
  AnalysisResult_new (scores_kwargs tie_scores) sample_now = Ok tie_analysis /\
  tie_analysis !! "overall_score" = Some (PFloat (fl (37 # 100))) /\
  exact_mean tie_scores == 375 # 1000 /\
  round_half_even (exact_mean tie_scores) == 38 # 100 /\
  round_half_up (exact_mean tie_scores) == 38 # 100 /\
  ~ 37 # 100 == 38 # 100.
Proof.
  split; [apply scores_new; vm_compute; reflexivity|].
  split; [reflexivity|]. repeat split; vm_compute; congruence.
Qed.

(** C10.  An analysis result whose construction succeeded, from at most
    [2^32] criteria, has an overall score that is not [None] and lies in
    [0, 100], supplied or computed.  Its mapping of scores is not empty,
    every weight is positive, and so is the total weight the loop ends
    with: the branch for a zero total weight is not taken. *)
Theorem C10_overall_score_in_range :
  forall kwargs now a cs,
    AnalysisResult_new kwargs now = Ok a ->
    dict_get "criteria_scores" kwargs = Some (PDict cs) ->
    (Z.of_nat (length cs) <= 2 ^ 32)%Z ->
    (exists o, a !! "overall_score" = Some o /\ is_none o = false /\ score_in_range o) /\
    cs <> [] /\
    (forall c, exists w, criterion_weight (length cs) c = Ok (Finite w) /\ 0 < w) /\
    (exists T W, accumulate (length cs) cs (Finite 0, Finite 0) = Ok (Finite T, Finite W) /\
                 0 < W /\ flt (Finite 0) (Finite W) = true).
Proof.
  intros kwargs now a cs Hnew Hcs Hb.
  destruct (AnalysisResult_new_valid _ _ _ _ Hnew Hcs) as [Hne Hv].
  destruct (calculate_score cs Hne Hv Hb) as (T & W & q & Hacc & _ & _ & HW & Hq & _ & Hc).
  assert (H1 : (1 <= length cs)%nat) by (destruct cs; [congruence | cbn [length]; lia]).
  split; [|split; [exact Hne | split]].
  - destruct (kwarg kwargs "overall_score" PNone) as [ | b | n | x | s | l | d | t | ] eqn:Ho.
    1: { destruct (AnalysisResult_new_computed _ _ _ _ Hnew Hcs Ho) as (self & score & Hg & Hsc & Ha).
         rewrite (Hc self Hg) in Hsc. injection Hsc as <-.
         exists (PFloat (Finite q)). split; [exact Ha|]. split; [reflexivity|].
         apply between_finite. exact Hq. }
    all: match type of Ho with _ = ?o =>
           destruct (AnalysisResult_new_explicit _ _ _ o Hnew Ho eq_refl) as [Ha Hr];
           exists o; split; [exact Ha | split; [reflexivity | exact Hr]]
         end.
  - intros c. destruct (weight_spec (length cs) c H1 Hb) as (Ew & _ & Hw & _).
    exists (weight_q (length cs) c). split; [exact Ew|].
    assert (P := pow2_pos (-33)). unfold wlo64 in Hw. lra.
  - exists T, W. split; [exact Hacc|]. split; [exact HW|].
    cbn [flt fle]. destruct (Qle_bool W 0) eqn:E; [|reflexivity].
    apply Qle_bool_iff in E. lra.
Qed.

Lemma C10_witness :
  (exists o, custom_analysis !! "overall_score" = Some o /\ is_none o = false /\
             score_in_range o) /\
  custom_scores <> [] /\
  (forall c, exists w, criterion_weight (length custom_scores) c = Ok (Finite w) /\ 0 < w) /\
  (exists T W, accumulate (length custom_scores) custom_scores (Finite 0, Finite 0)
               = Ok (Finite T, Finite W) /\
               0 < W /\ flt (Finite 0) (Finite W) = true).
Proof.
  apply (C10_overall_score_in_range (scores_kwargs custom_scores) sample_now custom_analysis
           custom_scores custom_scores_new).
  - reflexivity.
  - vm_compute. discriminate.
Defined.

Local Open Scope Z_scope.

(* ================================================================== *)
(** * Part III: further properties of the code                         *)
(* ================================================================== *)

(** ** Trimming *)

Lemma rstrip_idem s : rstrip (rstrip s) = rstrip s.
Proof.
  induction s as [|c s IH]; [reflexivity|]. cbn [rstrip].
  destruct (rstrip s) as [|d r] eqn:E.
  - destruct (is_space c) eqn:Ec; [reflexivity|]. cbn [rstrip]. now rewrite Ec.
  - change (rstrip (String c (String d r))) with
      (match rstrip (String d r) with
       | EmptyString => if is_space c then EmptyString else String c EmptyString
       | r' => String c r'
       end).
    rewrite IH. reflexivity.
Qed.

Lemma lstrip_idem s : lstrip (lstrip s) = lstrip s.
Proof.
  induction s as [|c s IH]; [reflexivity|]. cbn [lstrip].
  destruct (is_space c) eqn:Ec; [exact IH|]. cbn [lstrip]. now rewrite Ec.
Qed.

Lemma rstrip_lstrip t : rstrip t = t -> rstrip (lstrip t) = lstrip t.
Proof.
  induction t as [|c t IH]; [reflexivity|]. intros H. cbn [lstrip].
  destruct (is_space c) eqn:Ec; [|exact H]. apply IH.
  cbn [rstrip] in H. rewrite Ec in H. destruct (rstrip t) as [|d r]; [discriminate|].
  now injection H.
Qed.

(** [strip] leaves a trimmed string as it is. *)
Lemma strip_idem s : strip (strip s) = strip s.
Proof.
  unfold strip. rewrite (rstrip_lstrip (rstrip s) (rstrip_idem s)). apply lstrip_idem.
Qed.

Lemma optional_env_cases E key default :
  _get_optional_env E key default = default \/
  exists raw, E !! key = Some raw /\ strip raw <> EmptyString /\
              _get_optional_env E key default = strip raw.
Proof.
  unfold _get_optional_env. destruct (E !! key) as [raw|]; [|now left]. cbv zeta.
  destruct (strip raw) eqn:Es; [now left|]. right. exists raw. rewrite Es.
  repeat split; congruence.
Qed.

Lemma required_env_cases E key :
  (E !! key = None /\ _get_required_env E key = Raise (ConfigError (MissingEnv key))) \/
  (exists raw, E !! key = Some raw /\ strip raw = EmptyString /\
               _get_required_env E key = Raise (ConfigError (EmptyEnv key))) \/
  (exists raw, E !! key = Some raw /\ strip raw <> EmptyString /\
               _get_required_env E key = Ok (strip raw)).
Proof.
  unfold _get_required_env. destruct (E !! key) as [raw|]; [|now left]. right. cbv zeta.
  destruct (strip raw) eqn:Es; [left | right]; exists raw; rewrite ?Es;
    repeat split; congruence.
Qed.

(** ** The size parser: its outcomes *)

Lemma digits_value_nonneg s : forall acc, 0 <= acc -> all_in is_digit s = true -> 0 <= digits_value s acc.
Proof.
  induction s as [|c s IH]; intros acc Ha H; [exact Ha|].
  cbn [all_in] in H. apply andb_prop in H as [Hc Hs]. cbn [digits_value]. apply IH; [|exact Hs].
  unfold is_digit in Hc. apply andb_prop in Hc as [H1 H2]. apply Z.leb_le in H1, H2.
  unfold digit_val. lia.
Qed.

Lemma decimal_value_nonneg ip fp :
  all_in is_digit ip = true -> all_in is_digit fp = true -> (0 <= decimal_value ip fp)%Q.
Proof.
  intros Hi Hf. unfold decimal_value.
  assert (H : 0 <= digits_value (ip +:+ fp) 0).
  { apply digits_value_nonneg; [lia|]. rewrite all_in_app, Hi, Hf. reflexivity. }
  assert (P : 0 < 10 ^ len fp) by (apply Z.pow_pos_nonneg; unfold len; lia).
  apply Qle_shift_div_l.
  - change 0%Q with (inject_Z 0). rewrite <- Zlt_Qlt. exact P.
  - assert (E : (0 * inject_Z (10 ^ len fp) == inject_Z 0)%Q) by ring.
    rewrite E. rewrite <- Zle_Qle. exact H.
Qed.

Lemma fl_nonneg q r : (0 <= q)%Q -> fl q = Finite r -> (0 <= r)%Q.
Proof.
  intros Hq. unfold fl. cbv zeta. destruct (Qle_bool _ _); [discriminate|].
  intros [= <-]. apply rnd_nonneg. exact Hq.
Qed.

Lemma Qtrunc_nonneg v : (0 <= v)%Q -> 0 <= Qtrunc v.
Proof.
  destruct v as [n d]. unfold Qle, Qtrunc. cbn [Qnum Qden]. intros H.
  apply Z.quot_pos; lia.
Qed.

Lemma well_formed_digits ip fp u :
  well_formed_size ip fp u -> all_in is_digit (fraction_digits fp) = true.
Proof.
  intros (_ & _ & Hf & _). destruct fp as [f|]; [|reflexivity]. apply (Hf f eq_refl).
Qed.

Lemma unit_multiplier_pos u :
  (forall c, u = Some c -> one_of "KMGT" c = true) -> 0 < unit_multiplier u.
Proof.
  intros Hu. destruct u as [c|]; [|reflexivity].
  destruct (prefix_cases c (Hu c eq_refl)) as [-> | [-> | [-> | ->]]]; reflexivity.
Qed.

(** The float the parser truncates is not negative. *)
Lemma float_size_nonneg ip fp u v :
  well_formed_size ip fp u -> float_size ip fp u = Finite v -> (0 <= v)%Q.
Proof.
  intros Hw. assert (Hd := decimal_value_nonneg ip (fraction_digits fp)
                             (proj1 (proj2 Hw)) (well_formed_digits _ _ _ Hw)).
  assert (Hm := unit_multiplier_pos u (proj2 (proj2 (proj2 Hw)))).
  unfold float_size.
  destruct (fl (decimal_value ip (fraction_digits fp))) as [r| |] eqn:E.
  - assert (Hr := fl_nonneg _ _ Hd E). cbn [fmul]. apply fl_nonneg.
    apply Qmult_le_0_compat; [exact Hr|]. change 0%Q with (inject_Z 0).
    rewrite <- Zle_Qle. lia.
  - cbn [fmul]. destruct (Qeq_bool _ _); discriminate.
  - discriminate.
Qed.

Lemma valid_size_shape s :
  _is_valid_file_size s = true ->
  exists ip fp u nl, well_formed_size ip fp u /\ upper s = size_text ip fp u nl.
Proof. intros H. apply is_valid_matches, size_pattern_matches in H. exact H. Qed.

(** The outcomes of the size parser. *)
Lemma parse_size_cases s :
  (_is_valid_file_size s = false /\
   _parse_file_size_to_bytes s = Raise (ConfigError (InvalidSizeFormat s))) \/
  (_is_valid_file_size s = true /\
   ((exists n, 0 <= n /\ _parse_file_size_to_bytes s = Ok n) \/
    _parse_file_size_to_bytes s = Raise OverflowError)).
Proof.
  destruct (_is_valid_file_size s) eqn:Hv.
  - right. split; [reflexivity|].
    destruct (valid_size_shape s Hv) as (ip & fp & u & nl & Hw & E).
    rewrite (parse_size_text s ip fp u nl Hw E).
    destruct (float_size_cases ip fp u (proj2 (proj2 (proj2 Hw)))) as [[v Hf] | [sg Hf]].
    + left. exists (Qtrunc v). rewrite Hf. split; [|reflexivity].
      apply Qtrunc_nonneg. exact (float_size_nonneg ip fp u v Hw Hf).
    + right. rewrite Hf. reflexivity.
  - left. split; [reflexivity|]. apply parse_invalid. exact Hv.
Qed.

(** X1.  [_parse_file_size_to_bytes] has three outcomes only: the
    invalid-format error on a string that is not a size, a byte count that
    is not negative, or the [OverflowError] of [int] on an infinite
    product.  The [except (ValueError, KeyError)] clause and the second
    [re.match] check never fire. *)
Theorem parse_file_size_outcomes s :
  (_is_valid_file_size s = false /\
   _parse_file_size_to_bytes s = Raise (ConfigError (InvalidSizeFormat s))) \/
  (_is_valid_file_size s = true /\
   ((exists n, 0 <= n /\ _parse_file_size_to_bytes s = Ok n) \/
    _parse_file_size_to_bytes s = Raise OverflowError)).
Proof. exact (parse_size_cases s). Qed.

(** ** Loading a configuration *)

(** When a load succeeds. *)
Lemma Config_init_iff ld dot env ur :
  let E := effective_environ ld dot env in
  (exists self, Config_init ld dot env ur = Ok self) <->
  (exists raw bytes,
     E !! "ANTHROPIC_API_KEY" = Some raw /\
     startswith (strip raw) "sk-" = true /\
     _parse_file_size_to_bytes (_get_optional_env E "MAX_FILE_SIZE" "10MB") = Ok bytes /\
     startswith (_get_optional_env E "SUPPORTED_FILE_TYPES" ".pdf") "." = true).
Proof.
  intros E. rewrite Config_init_unfold. fold E. cbv zeta.
  change DEFAULT_MAX_FILE_SIZE with "10MB". change DEFAULT_SUPPORTED_FILE_TYPES with ".pdf".
  set (size := _get_optional_env E "MAX_FILE_SIZE" "10MB").
  set (types := _get_optional_env E "SUPPORTED_FILE_TYPES" ".pdf").
  split.
  - intros [self H].
    destruct (required_env_cases E "ANTHROPIC_API_KEY")
      as [[_ R] | [(raw & _ & _ & R) | (raw & Hr & Hn & R)]];
      rewrite R in H; cbn [mbind except_bind] in H; try discriminate.
    destruct (_parse_file_size_to_bytes size) as [bytes|] eqn:Hp; [|discriminate].
    cbn [mbind except_bind] in H.
    destruct (startswith (strip raw) "sk-") eqn:Hk; [|discriminate]. cbn [negb] in H.
    destruct (_is_valid_file_size size); [|discriminate]. cbn [negb] in H.
    destruct (startswith types ".") eqn:Ht; [|discriminate].
    exists raw, bytes. auto.
  - intros (raw & bytes & Hr & Hk & Hp & Ht).
    assert (Hn : strip raw <> EmptyString) by (intros E0; rewrite E0 in Hk; discriminate).
    rewrite (required_env_value E _ raw Hr Hn). cbn [mbind except_bind].
    rewrite Hp. cbn [mbind except_bind]. rewrite Hk, Ht. cbn [negb].
    destruct (_is_valid_file_size size) eqn:Hv; [eauto|].
    rewrite (parse_invalid size Hv) in Hp. discriminate.
Qed.

(** X2.  A load succeeds exactly when the API key is set and starts with
    [sk-] once trimmed, the size text parses, and the file types start
    with a dot. *)
Theorem Config_init_succeeds_iff ld dot env ur :
  let E := effective_environ ld dot env in
  (exists self, Config_init ld dot env ur = Ok self) <->
  (exists raw bytes,
     E !! "ANTHROPIC_API_KEY" = Some raw /\
     startswith (strip raw) "sk-" = true /\
     _parse_file_size_to_bytes (_get_optional_env E "MAX_FILE_SIZE" "10MB") = Ok bytes /\
     startswith (_get_optional_env E "SUPPORTED_FILE_TYPES" ".pdf") "." = true).
Proof. exact (Config_init_iff ld dot env ur). Qed.

(** X3.  A load ends with the object or with one of six errors; the
    error of [validate] for the size text is never among them, since the
    parser has rejected such a text before [validate] runs. *)
Theorem Config_init_outcomes ld dot env ur :
  let E := effective_environ ld dot env in
  let size := _get_optional_env E "MAX_FILE_SIZE" "10MB" in
  let types := _get_optional_env E "SUPPORTED_FILE_TYPES" ".pdf" in
  (exists self, Config_init ld dot env ur = Ok self) \/
  (exists e, Config_init ld dot env ur = Raise e /\ In e (load_error size types)) .
Proof.
  intros E size types. rewrite Config_init_unfold. fold E. cbv zeta.
  change DEFAULT_MAX_FILE_SIZE with "10MB". change DEFAULT_SUPPORTED_FILE_TYPES with ".pdf".
  fold size types. unfold load_error.
  destruct (required_env_cases E "ANTHROPIC_API_KEY")
    as [[_ R] | [(raw & _ & _ & R) | (raw & Hr & Hn & R)]];
    rewrite R; cbn [mbind except_bind].
  - right. eexists. split; [reflexivity|]. cbn [In]. tauto.
  - right. eexists. split; [reflexivity|]. cbn [In]. tauto.
  - destruct (parse_size_cases size) as [[Hv Hp] | [Hv [(n & _ & Hp) | Hp]]];
      rewrite Hp; cbn [mbind except_bind].
    + right. eexists. split; [reflexivity|]. cbn [In]. tauto.
    + rewrite Hv. cbn [negb].
      destruct (startswith (strip raw) "sk-"); cbn [negb].
      * destruct (startswith types "."); cbn [negb]; [left; eauto|].
        right. eexists. split; [reflexivity|]. cbn [In]. tauto.
      * right. eexists. split; [reflexivity|]. cbn [In]. tauto.
    + right. eexists. split; [reflexivity|]. cbn [In]. tauto.
Qed.

(** X4.  The size text is checked before the prefix of the API key: with
    a key that is set and not blank, a text that is not a size ends the
    load with the parser's invalid-format error, whatever the key. *)
Theorem Config_init_size_error_first ld dot env ur raw :
  let E := effective_environ ld dot env in
  let size := _get_optional_env E "MAX_FILE_SIZE" "10MB" in
  E !! "ANTHROPIC_API_KEY" = Some raw ->
  strip raw <> EmptyString ->
  _is_valid_file_size size = false ->
  Config_init ld dot env ur = Raise (ConfigError (InvalidSizeFormat size)).
Proof.
  intros E size Hr Hn Hv. rewrite Config_init_unfold. fold E. cbv zeta.
  change DEFAULT_MAX_FILE_SIZE with "10MB". fold size.
  rewrite (required_env_value E _ raw Hr Hn). cbn [mbind except_bind].
  rewrite (parse_invalid size Hv). reflexivity.
Qed.

Lemma Config_init_size_error_first_witness :
  Config_init false ∅ (<["ANTHROPIC_API_KEY" := "abc"]> (<["MAX_FILE_SIZE" := "10XB"]> ∅))
    sample_urandom = Raise (ConfigError (InvalidSizeFormat "10XB")).
Proof.
  assert (H1 : effective_environ false ∅
                 (<["ANTHROPIC_API_KEY" := "abc"]> (<["MAX_FILE_SIZE" := "10XB"]> ∅))
               !! "ANTHROPIC_API_KEY" = Some "abc") by reflexivity.
  assert (H2 : strip "abc" <> EmptyString) by discriminate.
  assert (H3 : _is_valid_file_size
                 (_get_optional_env
                    (effective_environ false ∅
                       (<["ANTHROPIC_API_KEY" := "abc"]> (<["MAX_FILE_SIZE" := "10XB"]> ∅)))
                    "MAX_FILE_SIZE" "10MB") = false) by (vm_compute; reflexivity).
  exact (Config_init_size_error_first false ∅ _ sample_urandom "abc" H1 H2 H3).
Defined.

(** X5.  What a loaded configuration holds: a trimmed API key that
    starts with [sk-], a secret that is not empty, a size text of the
    documented shape with its byte count, which is not negative, file
    types that start with a dot, and the frozen flag. *)
Theorem Config_loaded_invariants ld dot env ur self :
  Config_init ld dot env ur = Ok self ->
  exists key secret size types bytes,
    self !! "anthropic_api_key" = Some (PStr key) /\
    self !! "flask_secret_key" = Some (PStr secret) /\
    self !! "max_file_size" = Some (PStr size) /\
    self !! "supported_file_types" = Some (PStr types) /\
    self !! "max_file_size_bytes" = Some (PInt bytes) /\
    self !! "_frozen" = Some (PBool true) /\
    startswith key "sk-" = true /\ strip key = key /\
    nonempty secret = true /\
    matches_ignoring_case size_pattern size /\
    _parse_file_size_to_bytes size = Ok bytes /\ 0 <= bytes /\
    startswith types "." = true.
Proof.
  intros H.
  assert (Hex : exists s, Config_init ld dot env ur = Ok s) by eauto.
  apply Config_init_iff in Hex as (raw & bytes & Hr & Hk & Hp & Ht).
  destruct (Config_init_inv _ _ _ _ _ H) as (key & bytes' & Rk & _ & Hp' & ->).
  cbv zeta in Rk, Hp'. change DEFAULT_MAX_FILE_SIZE with "10MB" in *.
  change DEFAULT_SUPPORTED_FILE_TYPES with ".pdf" in *.
  assert (Hn : strip raw <> EmptyString) by (intros E0; rewrite E0 in Hk; discriminate).
  rewrite (required_env_value _ _ raw Hr Hn) in Rk. injection Rk as <-.
  rewrite Hp in Hp'. injection Hp' as <-.
  set (E := effective_environ ld dot env) in *.
  exists (strip raw), (_get_optional_env E "FLASK_SECRET_KEY" (_generate_secret_key ur)),
    (_get_optional_env E "MAX_FILE_SIZE" "10MB"),
    (_get_optional_env E "SUPPORTED_FILE_TYPES" ".pdf"), bytes.
  repeat (split; [reflexivity|]).
  split; [exact Hk|]. split; [apply strip_idem|]. split.
  { destruct (optional_env_cases E "FLASK_SECRET_KEY" (_generate_secret_key ur))
      as [-> | (r & _ & Hne & ->)].
    - unfold _generate_secret_key.
      assert (L := proj1 (token_hex_spec ur 32)).
      destruct (token_hex ur 32); [discriminate L | reflexivity].
    - destruct (strip r); [congruence | reflexivity]. }
  destruct (parse_size_cases (_get_optional_env E "MAX_FILE_SIZE" "10MB"))
    as [[_ Hp'] | [Hv [(n & Hn0 & Hp') | Hp']]]; rewrite Hp' in Hp; try discriminate.
  injection Hp as <-.
  split; [apply is_valid_spec; exact Hv|]. split; [exact Hp'|]. split; [exact Hn0 | exact Ht].
Qed.

Lemma Config_loaded_invariants_witness :
  exists key secret size types bytes,
    sample_config !! "anthropic_api_key" = Some (PStr key) /\
    sample_config !! "flask_secret_key" = Some (PStr secret) /\
    sample_config !! "max_file_size" = Some (PStr size) /\
    sample_config !! "supported_file_types" = Some (PStr types) /\
    sample_config !! "max_file_size_bytes" = Some (PInt bytes) /\
    sample_config !! "_frozen" = Some (PBool true) /\
    startswith key "sk-" = true /\ strip key = key /\
    nonempty secret = true /\
    matches_ignoring_case size_pattern size /\
    _parse_file_size_to_bytes size = Ok bytes /\ 0 <= bytes /\
    startswith types "." = true.
Proof.
  apply (Config_loaded_invariants false ∅ sample_environ sample_urandom sample_config).
  exact (sample_environ_load sample_urandom).
Defined.

(** ** [Config.to_dict] *)




(** ** The size parser: letter case *)

Lemma upper_lower_char c : upper_char (lower_char c) = upper_char c.
Proof. destruct c as [[] [] [] [] [] [] [] []]; reflexivity. Qed.

Lemma upper_lower s : upper (lower s) = upper s.
Proof.
  induction s as [|c s IH]; [reflexivity|].
  unfold upper, lower in *. cbn [str_map]. now rewrite upper_lower_char, IH.
Qed.

Lemma parse_upper_eq s t :
  upper s = upper t -> _is_valid_file_size s = true ->
  _is_valid_file_size t = true /\ _parse_file_size_to_bytes t = _parse_file_size_to_bytes s.
Proof.
  intros E Hv.
  assert (Hv' : _is_valid_file_size t = true) by (unfold _is_valid_file_size in *; now rewrite <- E).
  split; [exact Hv'|]. unfold _parse_file_size_to_bytes. rewrite Hv, Hv'. cbn [negb]. cbv zeta.
  rewrite E. reflexivity.
Qed.

(** X7.  The parser does not look at the case of the letters: a size
    text, the same text in upper case and in lower case are valid
    together and give the same byte count. *)
Theorem parse_file_size_ignores_case s :
  _is_valid_file_size s = true ->
  _is_valid_file_size (upper s) = true /\ _is_valid_file_size (lower s) = true /\
  _parse_file_size_to_bytes (upper s) = _parse_file_size_to_bytes s /\
  _parse_file_size_to_bytes (lower s) = _parse_file_size_to_bytes s.
Proof.
  intros Hv.
  destruct (parse_upper_eq s (upper s) (eq_sym (upper_idem s)) Hv) as [V1 P1].
  destruct (parse_upper_eq s (lower s) (eq_sym (upper_lower s)) Hv) as [V2 P2].
  auto.
Qed.

Lemma parse_file_size_ignores_case_witness :
  _is_valid_file_size (upper "10Mb") = true /\ _is_valid_file_size (lower "10Mb") = true /\
  _parse_file_size_to_bytes (upper "10Mb") = _parse_file_size_to_bytes "10Mb" /\
  _parse_file_size_to_bytes (lower "10Mb") = _parse_file_size_to_bytes "10Mb".
Proof. apply (parse_file_size_ignores_case "10Mb"). vm_compute. reflexivity. Defined.

Local Open Scope Q_scope.

(** ** Rounding respects equality of rationals *)

Lemma ilog2_unique a k : 0 < a -> 2 ^ k <= a -> a < 2 ^ (k + 1) -> ilog2 a = k.
Proof.
  intros Ha H1 H2. destruct (ilog2_spec a Ha) as [L1 L2].
  destruct (Z.lt_trichotomy (ilog2 a) k) as [C|[C|C]]; [exfalso | exact C | exfalso].
  - assert (2 ^ (ilog2 a + 1) <= 2 ^ k) by (apply pow2_le; lia). lra.
  - assert (2 ^ (k + 1) <= 2 ^ ilog2 a) by (apply pow2_le; lia). lra.
Qed.

Lemma ilog2_comp a b : 0 < a -> a == b -> ilog2 a = ilog2 b.
Proof.
  intros Ha E. assert (Hb : 0 < b) by (rewrite <- E; exact Ha).
  destruct (ilog2_spec b Hb) as [L1 L2].
  apply ilog2_unique; [exact Ha | rewrite E; exact L1 | rewrite E; exact L2].
Qed.

Lemma rnd_zero q : q == 0 -> rnd q = 0.
Proof.
  intros Hq. unfold rnd. cbv zeta. generalize (ulp_exp q). intros e.
  assert (P := pow2_pos e).
  rewrite (rne_comp (q / 2 ^ e) 0) by (rewrite Hq; field; lra).
  change (rne 0) with 0%Z. transitivity (Qred 0); [apply Qred_complete; ring | reflexivity].
Qed.

Lemma rnd_comp q q' : q == q' -> rnd q = rnd q'.
Proof.
  intros E. destruct (Qeq_dec q 0) as [Z0|NZ].
  - rewrite (rnd_zero q Z0), (rnd_zero q'); [reflexivity | rewrite <- E; exact Z0].
  - assert (HA : 0 < Qabs q).
    { destruct (Qle_lt_or_eq _ _ (Qabs_nonneg q)) as [H|H]; [exact H|].
      exfalso. apply NZ.
      assert (A := Qle_Qabs q). assert (B := Qle_Qabs (- q)). rewrite Qabs_opp in B.
      apply Qle_antisym; lra. }
    assert (EA : Qabs q == Qabs q') by (rewrite E; reflexivity).
    assert (Ee : ulp_exp q = ulp_exp q').
    { unfold ulp_exp. rewrite (ilog2_comp _ _ HA EA). reflexivity. }
    unfold rnd. cbv zeta. rewrite <- Ee. generalize (ulp_exp q). intros e.
    rewrite (rne_comp (q / 2 ^ e) (q' / 2 ^ e)) by (rewrite E; reflexivity).
    reflexivity.
Qed.

Lemma fl_comp q q' : q == q' -> fl q = fl q'.
Proof. intros E. unfold fl. rewrite (rnd_comp q q' E). reflexivity. Qed.

(** ** The size parser on whole numbers *)

(** A whole number below [2^53], times a power of two, is a binary64
    number. *)
Lemma rnd_scaled N k :
  (0 <= N < 2 ^ 53)%Z -> (0 <= k)%Z -> rnd (inject_Z (N * 2 ^ k)) = inject_Z (N * 2 ^ k).
Proof.
  intros [H0 H1] Hk.
  assert (Hid : forall m, Qred (inject_Z m) = inject_Z m).
  { intros m. apply Qcanon.Qred_identity. simpl. apply Z.gcd_1_r. }
  destruct (Z.eq_dec N 0%Z) as [-> | HN]; [rewrite Z.mul_0_l; reflexivity|].
  assert (Hpos : (0 < N)%Z) by lia.
  assert (P2 : (0 < 2 ^ k)%Z) by (apply Z.pow_pos_nonneg; lia).
  set (n := (N * 2 ^ k)%Z). assert (Hn : (0 < n)%Z) by (unfold n; lia).
  assert (HLN : (0 <= Z.log2 N <= 52)%Z).
  { split; [apply Z.log2_nonneg|]. assert (Z.log2 N < 53)%Z; [|lia].
    apply Z.log2_lt_pow2; lia. }
  assert (HL : Z.log2 n = (k + Z.log2 N)%Z) by (unfold n; apply Z.log2_mul_pow2; lia).
  assert (Ei : ilog2 (Qabs (inject_Z n)) = Z.log2 n).
  { rewrite Qabs_nonneg_eq by (change 0 with (inject_Z 0); rewrite <- Zle_Qle; lia).
    unfold ilog2. cbn [Qnum Qden inject_Z]. change (Z.log2 1) with 0%Z. rewrite Z.sub_0_r.
    assert (T : Qle_bool (2 ^ Z.log2 n) (inject_Z n) = true).
    { apply Qle_bool_iff. rewrite <- Z_pow2_Q by lia. rewrite <- Zle_Qle.
      apply Z.log2_spec; lia. }
    change (n # 1) with (inject_Z n). now rewrite T. }
  unfold rnd, ulp_exp. rewrite Ei. rewrite Z.max_l by lia. cbv zeta.
  remember (Z.log2 n - 52)%Z as e eqn:Ee.
  assert (Pe := pow2_pos e).
  (* the integer [inject_Z n / 2^e] *)
  assert (Hm : exists m, inject_Z n == inject_Z m * 2 ^ e).
  { destruct (Z_le_gt_dec 0 e) as [C|C].
    - exists (N * 2 ^ (k - e))%Z. unfold n. rewrite !inject_Z_mult.
      rewrite !Z_pow2_Q by lia.
      assert (E2 : 2 ^ k == 2 ^ (k - e) * 2 ^ e).
      { rewrite <- Qpower_plus by (intro H; discriminate H).
        replace (k - e + e)%Z with k by lia. reflexivity. }
      rewrite E2. ring.
    - exists (n * 2 ^ (- e))%Z. rewrite inject_Z_mult, Z_pow2_Q by lia.
      assert (E2 : 2 ^ (- e) * 2 ^ e == 1).
      { rewrite <- Qpower_plus by (intro H; discriminate H).
        replace (- e + e)%Z with 0%Z by lia. reflexivity. }
      rewrite <- Qmult_assoc, E2. ring. }
  destruct Hm as [m Em].
  assert (Ex : inject_Z n / 2 ^ e == inject_Z m) by (rewrite Em; field; lra).
  rewrite (rne_comp _ _ Ex), rne_int.
  rewrite <- (Hid n). apply Qred_complete. rewrite Em. reflexivity.
Qed.

Lemma fl_scaled N k :
  (0 <= N < 2 ^ 53)%Z -> (0 <= k <= 40)%Z ->
  fl (inject_Z (N * 2 ^ k)) = Finite (inject_Z (N * 2 ^ k)).
Proof.
  intros HN Hk. assert (E := rnd_scaled N k HN ltac:(lia)).
  assert (P2 : (0 < 2 ^ k)%Z) by (apply Z.pow_pos_nonneg; lia).
  assert (B : (N * 2 ^ k <= 2 ^ 53 * 2 ^ 40)%Z).
  { apply Z.mul_le_mono_nonneg; try lia. apply Z.pow_le_mono_r; lia. }
  rewrite <- E at 2. apply fl_finite.
  - change 0 with (inject_Z 0). rewrite <- Zle_Qle. lia.
  - rewrite E. apply Qle_lt_trans with (inject_Z (2 ^ 53 * 2 ^ 40)).
    + rewrite <- Zle_Qle. exact B.
    + apply Qlt_alt. vm_compute. reflexivity.
Qed.

Lemma unit_multiplier_pow2 u :
  (forall c, u = Some c -> one_of "KMGT" c = true) ->
  exists k, (0 <= k <= 40)%Z /\ unit_multiplier u = (2 ^ k)%Z.
Proof.
  intros Hu. destruct u as [c|]; [|exists 0%Z; split; [lia | reflexivity]].
  destruct (prefix_cases c (Hu c eq_refl)) as [-> | [-> | [-> | ->]]];
    [exists 10%Z | exists 20%Z | exists 30%Z | exists 40%Z]; (split; [lia | reflexivity]).
Qed.

Lemma Qtrunc_int n : Qtrunc (inject_Z n) = n.
Proof. unfold Qtrunc, inject_Z. cbn [Qnum Qden]. apply Z.quot_1_r. Qed.

(** X8.  On a whole number below [2^53] the parser is exact: it returns
    the number times the multiplier of the unit. *)
Theorem parse_whole_size_exact s ip u nl :
  nonempty ip = true -> all_in is_digit ip = true ->
  (forall c, u = Some c -> one_of "KMGT" c = true) ->
  (digits_value ip 0 < 2 ^ 53)%Z ->
  upper s = size_text ip None u nl ->
  _parse_file_size_to_bytes s = Ok (digits_value ip 0 * unit_multiplier u)%Z.
Proof.
  intros Hn Hd Hu Hb E.
  assert (Hw : well_formed_size ip None u).
  { split; [exact Hn|]. split; [exact Hd|]. split; [intros f [=] | exact Hu]. }
  rewrite (parse_size_text s ip None u nl Hw E).
  destruct (unit_multiplier_pow2 u Hu) as (k & Hk & Em).
  assert (H0 : (0 <= digits_value ip 0)%Z) by (apply digits_value_nonneg; [lia | exact Hd]).
  set (N := digits_value ip 0) in *.
  assert (Ed : decimal_value ip (fraction_digits None) == inject_Z N).
  { unfold decimal_value. cbn [fraction_digits]. rewrite app_nil_r_str. fold N.
    change (inject_Z (10 ^ len EmptyString)) with 1. field. }
  unfold float_size. rewrite (fl_comp _ _ Ed).
  assert (F1 : fl (inject_Z N) = Finite (inject_Z N)).
  { assert (F := fl_scaled N 0 ltac:(lia) ltac:(lia)).
    rewrite Z.pow_0_r, Z.mul_1_r in F. exact F. }
  rewrite F1, Em. cbn [fmul].
  rewrite (fl_comp (inject_Z N * inject_Z (2 ^ k)) (inject_Z (N * 2 ^ k)))
    by (rewrite inject_Z_mult; reflexivity).
  rewrite (fl_scaled N k ltac:(lia) Hk). cbn [int_of_float]. rewrite Qtrunc_int. reflexivity.
Qed.

Lemma parse_whole_size_exact_witness :
  _parse_file_size_to_bytes "100kb" = Ok (digits_value "100" 0 * unit_multiplier (Some "K"%char))%Z.
Proof.
  apply (parse_whole_size_exact "100kb" "100" (Some "K"%char) false).
  - reflexivity.
  - reflexivity.
  - intros c [= <-]. reflexivity.
  - vm_compute. reflexivity.
  - reflexivity.
Defined.

Local Open Scope Z_scope.

(** ** Proposals *)

(** The validation of a proposal, on the fields of the object. *)
Lemma RFPProposal_validate_obj id fn c ed sc cr :
  RFPProposal_validate (proposal_obj id fn c ed sc cr) =
  if is_none id || negb (truthy id) then model_error_raise (MissingField "id") else
  if is_none fn || negb (truthy fn) then model_error_raise (MissingField "filename") else
  if is_none c || negb (truthy c) then model_error_raise (MissingField "content") else
  if negb (is_str id) then model_error_raise (NotAString "id") else
  if negb (is_str fn) then model_error_raise (NotAString "filename") else
  if negb (is_str c) then model_error_raise (NotAString "content") else
  filename ← as_str fn;
  content ← as_str c;
  if contains "../" filename || contains "\" filename then model_error_raise PathTraversal else
  if negb (endswith (lower filename) ".pdf") then model_error_raise NotPdf else
  if len content >? 10000000 then model_error_raise ContentTooLarge else
  if negb (is_none sc) then
    if negb (is_number sc) then model_error_raise ScoreNotANumber else
    ok ← between 0 sc 100;
    if negb ok then model_error_raise AnalysisScoreRange else Ok tt
  else Ok tt.
Proof. reflexivity. Qed.

Lemma is_str_inv v : is_str v = true -> exists s, v = PStr s.
Proof. destruct v; try discriminate. eauto. Qed.

(** X9.  What a constructed proposal holds: an id, a filename and
    a content that are strings and not empty; a filename without [../]
    and without a backslash that ends in [.pdf] in any letter case; a
    content of at most 10,000,000 characters; and a score that is [None]
    or a number within [0, 100]. *)
Theorem RFPProposal_constructed_invariants kwargs now p :
  RFPProposal_new kwargs now = Ok p ->
  exists id fn c sc,
    p !! "id" = Some (PStr id) /\ p !! "filename" = Some (PStr fn) /\
    p !! "content" = Some (PStr c) /\ p !! "analysis_score" = Some sc /\
    nonempty id = true /\ nonempty fn = true /\ nonempty c = true /\
    contains "../" fn = false /\ contains "\" fn = false /\
    endswith (lower fn) ".pdf" = true /\
    len c <= 10000000 /\
    (sc = PNone \/ (is_number sc = true /\ score_in_range sc)).
Proof.
  intros H. destruct (RFPProposal_new_inv _ _ _ H) as [-> Hv]. clear H.
  set (id := kwarg kwargs "id" PNone) in *. set (fn := kwarg kwargs "filename" PNone) in *.
  set (c := kwarg kwargs "content" PNone) in *.
  set (ed := kwarg kwargs "extracted_data" (PDict [])) in *.
  set (sc := kwarg kwargs "analysis_score" PNone) in *.
  set (cr := kwarg kwargs "created_at" (PDatetime now)) in *.
  clearbody id fn c ed sc cr. rewrite RFPProposal_validate_obj in Hv.
  destruct (is_none id || negb (truthy id)) eqn:M1; [discriminate|].
  destruct (is_none fn || negb (truthy fn)) eqn:M2; [discriminate|].
  destruct (is_none c || negb (truthy c)) eqn:M3; [discriminate|].
  destruct (is_str id) eqn:S1; [|discriminate].
  destruct (is_str fn) eqn:S2; [|discriminate].
  destruct (is_str c) eqn:S3; [|discriminate].
  destruct (is_str_inv _ S1) as [id' ->]. destruct (is_str_inv _ S2) as [fn' ->].
  destruct (is_str_inv _ S3) as [c' ->].
  cbn [negb as_str mbind except_bind is_none truthy orb] in *.
  destruct (contains "../" fn' || contains "\" fn') eqn:T; [discriminate|].
  apply orb_false_elim in T as [T1 T2].
  destruct (endswith (lower fn') ".pdf") eqn:P; [|discriminate]. cbn [negb] in Hv.
  destruct (len c' >? 10000000) eqn:L; [discriminate|].
  exists id', fn', c', sc.
  repeat (split; [reflexivity|]).
  split; [now destruct (nonempty id')|]. split; [now destruct (nonempty fn')|].
  split; [now destruct (nonempty c')|]. split; [exact T1|]. split; [exact T2|].
  split; [exact P|]. split; [rewrite Z.gtb_ltb in L; apply Z.ltb_ge in L; exact L|].
  destruct sc; try (left; reflexivity); right; cbn [is_none negb is_number] in *;
    try discriminate;
    (split; [reflexivity|]); unfold score_in_range;
    match type of Hv with
    | context [between 0 ?v 100] => destruct (between 0 v 100) as [[]|]; [reflexivity | discriminate..]
    end.
Qed.

Lemma RFPProposal_constructed_invariants_witness :
  exists id fn c sc,
    sample_proposal !! "id" = Some (PStr id) /\ sample_proposal !! "filename" = Some (PStr fn) /\
    sample_proposal !! "content" = Some (PStr c) /\ sample_proposal !! "analysis_score" = Some sc /\
    nonempty id = true /\ nonempty fn = true /\ nonempty c = true /\
    contains "../" fn = false /\ contains "\" fn = false /\
    endswith (lower fn) ".pdf" = true /\
    len c <= 10000000 /\
    (sc = PNone \/ (is_number sc = true /\ score_in_range sc)).
Proof.
  apply (RFPProposal_constructed_invariants sample_proposal_kwargs sample_now sample_proposal).
  reflexivity.
Defined.

(** X10.  The three presence checks come before the three type checks:
    with an id that is truthy but not a string, a missing filename is
    reported first, then a missing content, and the type of the id only
    when both are there. *)
Theorem RFPProposal_presence_before_type id fn c ed sc cr now :
  is_str id = false -> truthy id = true ->
  RFPProposal_new (proposal_kwargs id fn c ed sc cr) now
  = Raise (ModelValidationError
             (if negb (truthy fn) then MissingField "filename"
              else if negb (truthy c) then MissingField "content"
              else NotAString "id")).
Proof.
  intros Hs Ht. rewrite RFPProposal_new_kwargs, RFPProposal_validate_obj.
  assert (N1 : is_none id = false) by (destruct id; try reflexivity; discriminate).
  rewrite N1, Ht, Hs. cbn [negb orb].
  destruct (truthy fn) eqn:Hf; cbn [negb]; [|rewrite orb_true_r; reflexivity].
  assert (N2 : is_none fn = false) by (destruct fn; try reflexivity; discriminate).
  rewrite N2. cbn [orb].
  destruct (truthy c) eqn:Hc; cbn [negb]; [|rewrite orb_true_r; reflexivity].
  assert (N3 : is_none c = false) by (destruct c; try reflexivity; discriminate).
  rewrite N3. reflexivity.
Qed.

Lemma RFPProposal_presence_before_type_witness :
  RFPProposal_new (proposal_kwargs (PInt 5) PNone (PStr "x") (PDict []) PNone PNone) sample_now
  = Raise (ModelValidationError (MissingField "filename")).
Proof.
  apply (RFPProposal_presence_before_type (PInt 5) PNone (PStr "x") (PDict []) PNone PNone
           sample_now); reflexivity.
Defined.

(** ** [from_dict]: unknown keys *)

Lemma mem_eqb k k' known : String.eqb k' k = true -> mem k' known = mem k known.
Proof. intros E. apply String.eqb_eq in E. now subst. Qed.

Lemma filter_known_cons known k v (d : list (string * pyval)) :
  filter_known known ((k, v) :: d)
  = if mem k known then (k, v) :: filter_known known d else filter_known known d.
Proof. reflexivity. Qed.

Lemma dict_get_filter known k (d : list (string * pyval)) :
  mem k known = true -> dict_get k (filter_known known d) = dict_get k d.
Proof.
  intros Hk. induction d as [|[k' v] d IH]; [reflexivity|].
  rewrite filter_known_cons. cbn [dict_get].
  destruct (mem k' known) eqn:Hm.
  - cbn [dict_get]. now rewrite IH.
  - rewrite IH. destruct (String.eqb k' k) eqn:E; [|reflexivity].
    rewrite (mem_eqb k k' known E) in Hm. congruence.
Qed.

Lemma dict_set_filter known k v (d : list (string * pyval)) :
  mem k known = true ->
  filter_known known (dict_set k v d) = dict_set k v (filter_known known d).
Proof.
  intros Hk. induction d as [|[k' v'] d IH].
  - cbn [dict_set]. rewrite filter_known_cons, Hk. reflexivity.
  - cbn [dict_set]. destruct (String.eqb k' k) eqn:E.
    + rewrite !filter_known_cons. rewrite (mem_eqb k k' known E), Hk.
      cbn [dict_set]. now rewrite E.
    + rewrite !filter_known_cons. destruct (mem k' known).
      * cbn [dict_set]. now rewrite E, IH.
      * exact IH.
Qed.

Lemma filter_known_idem known (d : list (string * pyval)) :
  filter_known known (filter_known known d) = filter_known known d.
Proof.
  induction d as [|[k v] d IH]; [reflexivity|].
  rewrite filter_known_cons. destruct (mem k known) eqn:E; [|exact IH].
  rewrite filter_known_cons. now rewrite E, IH.
Qed.

(** Parsing the timestamp and dropping the unknown keys commute. *)
Lemma parse_created_at_filter known d :
  mem "created_at" known = true ->
  parse_created_at (filter_known known d) =
  (data ← parse_created_at d; Ok (filter_known known data)).
Proof.
  intros Hk. unfold parse_created_at. rewrite (dict_get_filter known _ d Hk).
  destruct (dict_get "created_at" d) as [[ | | | | s | | | | ]|]; try reflexivity.
  destruct (fromisoformat _) as [t|e]; [|reflexivity].
  cbn [mbind except_bind]. now rewrite dict_set_filter.
Qed.

Lemma RFPProposal_from_dict_filter d now :
  RFPProposal_from_dict (filter_known RFPProposal_fields d) now = RFPProposal_from_dict d now.
Proof.
  unfold RFPProposal_from_dict. rewrite parse_created_at_filter by reflexivity.
  destruct (parse_created_at d) as [data|e]; [|reflexivity].
  cbn [mbind except_bind]. cbv zeta. now rewrite filter_known_idem.
Qed.

Lemma AnalysisResult_from_dict_filter d now :
  AnalysisResult_from_dict (filter_known AnalysisResult_fields d) now
  = AnalysisResult_from_dict d now.
Proof.
  unfold AnalysisResult_from_dict. rewrite parse_created_at_filter by reflexivity.
  destruct (parse_created_at d) as [data|e]; [|reflexivity].
  cbn [mbind except_bind]. cbv zeta. now rewrite filter_known_idem.
Qed.

(** X11.  [RFPProposal.from_dict] reads the six known keys only: two
    dictionaries that agree on them give the same result, so any other
    key can be added or removed. *)
Theorem RFPProposal_from_dict_known_keys d d' now :
  filter_known RFPProposal_fields d = filter_known RFPProposal_fields d' ->
  RFPProposal_from_dict d now = RFPProposal_from_dict d' now.
Proof.
  intros E. rewrite <- (RFPProposal_from_dict_filter d), <- (RFPProposal_from_dict_filter d').
  now rewrite E.
Qed.

Lemma RFPProposal_from_dict_known_keys_witness :
  RFPProposal_from_dict (("owner", PStr "me") :: sample_proposal_kwargs) sample_now
  = RFPProposal_from_dict sample_proposal_kwargs sample_now.
Proof.
  apply (RFPProposal_from_dict_known_keys (("owner", PStr "me") :: sample_proposal_kwargs)
           sample_proposal_kwargs sample_now).
  reflexivity.
Defined.

(** X12.  [AnalysisResult.from_dict] reads the seven known keys only;
    a [_frozen] key, for one, is dropped. *)
Theorem AnalysisResult_from_dict_known_keys d d' now :
  filter_known AnalysisResult_fields d = filter_known AnalysisResult_fields d' ->
  AnalysisResult_from_dict d now = AnalysisResult_from_dict d' now.
Proof.
  intros E.
  rewrite <- (AnalysisResult_from_dict_filter d), <- (AnalysisResult_from_dict_filter d').
  now rewrite E.
Qed.

Lemma AnalysisResult_from_dict_known_keys_witness :
  AnalysisResult_from_dict (("_frozen", PBool true) :: sample_analysis_kwargs) sample_now
  = AnalysisResult_from_dict sample_analysis_kwargs sample_now.
Proof.
  apply (AnalysisResult_from_dict_known_keys (("_frozen", PBool true) :: sample_analysis_kwargs)
           sample_analysis_kwargs sample_now).
  reflexivity.
Defined.

(** ** [from_dict]: timestamps *)

Lemma replace_char_app old new s t :
  replace_char old new (s +:+ t) = replace_char old new s +:+ replace_char old new t.
Proof.
  induction s as [|c s IH]; [reflexivity|]. rewrite app_cons. cbn [replace_char].
  destruct (Ascii.eqb c old); rewrite IH; [now rewrite app_assoc_str | reflexivity].
Qed.

Lemma isoformat_with_offset t :
  utcoffset t = None -> isoformat (with_offset t 0) = isoformat t +:+ "+00:00".
Proof.
  intros H. unfold isoformat. cbn [with_offset year month day hour minute second microsecond utcoffset].
  rewrite H. rewrite !app_assoc_str. reflexivity.
Qed.

Lemma valid_with_offset t :
  utcoffset t = None -> valid_datetime t = true -> valid_datetime (with_offset t 0) = true.
Proof.
  unfold valid_datetime.
  cbn [with_offset year month day hour minute second microsecond utcoffset].
  intros ->. rewrite !andb_true_r. intros ->. reflexivity.
Qed.

(** A timestamp that ends in [Z] is read as one at offset zero. *)
Lemma parse_Z_suffix t :
  utcoffset t = None -> valid_datetime t = true ->
  fromisoformat (replace_char "Z" "+00:00" (isoformat t +:+ "Z")) = Ok (with_offset t 0).
Proof.
  intros Ho Hv. rewrite replace_char_app.
  rewrite (replace_char_absent _ _ (isoformat t)) by apply isoformat_no_Z.
  change (replace_char "Z" "+00:00" "Z") with "+00:00".
  rewrite <- (isoformat_with_offset t Ho). unfold fromisoformat.
  now rewrite parse_iso_isoformat, valid_with_offset by (auto using valid_with_offset).
Qed.

(** X13.  Both [from_dict]s read a [created_at] text that ends in [Z],
    as JSON writers produce for UTC, as the same time at offset zero. *)
Theorem from_dict_reads_Z_as_utc t now :
  utcoffset t = None -> valid_datetime t = true ->
  (forall id fn c ed sc,
     RFPProposal_from_dict (proposal_kwargs id fn c ed sc (PStr (isoformat t +:+ "Z"))) now
     = RFPProposal_new (proposal_kwargs id fn c ed sc (PDatetime (with_offset t 0))) now) /\
  (forall pid cs os st co rr,
     AnalysisResult_from_dict (analysis_dict pid cs os st co rr (PStr (isoformat t +:+ "Z"))) now
     = AnalysisResult_new (analysis_dict pid cs os st co rr (PDatetime (with_offset t 0))) now).
Proof.
  intros Ho Hv. split.
  - intros id fn c ed sc. unfold RFPProposal_from_dict, parse_created_at.
    change (dict_get "created_at" (proposal_kwargs id fn c ed sc (PStr (isoformat t +:+ "Z"))))
      with (Some (PStr (isoformat t +:+ "Z"))).
    cbv beta iota. rewrite (parse_Z_suffix t Ho Hv). reflexivity.
  - intros pid cs os st co rr. unfold AnalysisResult_from_dict, parse_created_at.
    change (dict_get "created_at" (analysis_dict pid cs os st co rr (PStr (isoformat t +:+ "Z"))))
      with (Some (PStr (isoformat t +:+ "Z"))).
    cbv beta iota. rewrite (parse_Z_suffix t Ho Hv). reflexivity.
Qed.

Lemma from_dict_reads_Z_as_utc_witness :
  (forall id fn c ed sc,
     RFPProposal_from_dict
       (proposal_kwargs id fn c ed sc (PStr (isoformat sample_now +:+ "Z"))) sample_now
     = RFPProposal_new
         (proposal_kwargs id fn c ed sc (PDatetime (with_offset sample_now 0))) sample_now) /\
  (forall pid cs os st co rr,
     AnalysisResult_from_dict
       (analysis_dict pid cs os st co rr (PStr (isoformat sample_now +:+ "Z"))) sample_now
     = AnalysisResult_new
         (analysis_dict pid cs os st co rr (PDatetime (with_offset sample_now 0))) sample_now).
Proof. apply (from_dict_reads_Z_as_utc sample_now sample_now); reflexivity. Defined.

(** ** [created_at] is not validated *)

(** X14.  The constructor of a proposal does not look at [created_at]:
    where a datetime is accepted, so is a value of type [NoneType],
    [bool], [int], [float], [str], [list] or [dict], none of which has an
    [isoformat] method, and [to_dict] of that proposal then fails with
    [AttributeError]. *)
Theorem RFPProposal_created_at_unchecked id fn c ed sc cr cr' now p :
  RFPProposal_new (proposal_kwargs id fn c ed sc cr) now = Ok p ->
  In (type_of cr')
     [NoneType; bool_type; int_type; float_type; str_type; list_type; dict_type] ->
  exists p',
    RFPProposal_new (proposal_kwargs id fn c ed sc cr') now = Ok p' /\
    p' !! "created_at" = Some cr' /\
    RFPProposal_to_dict p' = Raise AttributeError.
Proof.
  intros H Hd. rewrite RFPProposal_new_kwargs in *.
  rewrite RFPProposal_validate_obj in *.
  match type of H with
  | mbind _ ?m = _ => destruct m as [[]|e] eqn:Hv; [|discriminate]
  end.
  exists (proposal_obj id fn c ed sc cr'). split; [reflexivity|]. split; [reflexivity|].
  destruct cr'; try reflexivity; exfalso; cbn [type_of In] in Hd;
    intuition discriminate.
Qed.

Lemma RFPProposal_created_at_unchecked_witness :
  exists p',
    RFPProposal_new (proposal_kwargs (PStr "prop-001") (PStr "test.pdf") (PStr "test content")
                       (PDict [("vendor", PStr "ACME Corp")]) (PInt 85) (PStr "yesterday"))
      sample_now = Ok p' /\
    p' !! "created_at" = Some (PStr "yesterday") /\
    RFPProposal_to_dict p' = Raise AttributeError.
Proof.
  apply (RFPProposal_created_at_unchecked (PStr "prop-001") (PStr "test.pdf")
           (PStr "test content") (PDict [("vendor", PStr "ACME Corp")]) (PInt 85)
           (PDatetime sample_now) (PStr "yesterday") sample_now sample_proposal).
  - reflexivity.
  - cbn [type_of In]. tauto.
Defined.

(** ** [AnalysisResult]: construction *)

Lemma AnalysisResult_new_dict pid cs os st co rr cr now :
  AnalysisResult_new (analysis_dict pid cs os st co rr cr) now
  = AnalysisResult_post_init (analysis_obj pid cs os st co rr cr).
Proof. reflexivity. Qed.

(** The loop of [_validate] passes exactly when every score is a number
    between 0 and 100. *)
Lemma validate_scores_Forall cs :
  validate_scores cs = Ok tt <->
  Forall (fun kv => is_number (snd kv) = true /\ between 0 (snd kv) 100 = Ok true) cs.
Proof.
  induction cs as [|[c s] cs IH].
  - split; [constructor | reflexivity].
  - cbn [validate_scores]. split.
    + intros H. destruct (is_number s) eqn:N; [|discriminate H]. cbn [negb] in H.
      destruct (between 0 s 100) as [[]|] eqn:B; try discriminate H.
      cbn [mbind except_bind negb] in H. constructor; [now split | now apply IH].
    + intros H. inversion H as [|x l [N B] F]; subst. cbn [snd] in N, B.
      rewrite N, B. cbn [negb mbind except_bind]. now apply IH.
Qed.

(** X15.  Without an explicit overall score and with at most [2^32]
    criteria, the construction of an analysis result succeeds exactly when
    the proposal id is truthy, the mapping of scores is not empty and every
    score is a number between 0 and 100: the calculation of the score
    cannot fail on validated scores. *)
Theorem AnalysisResult_new_succeeds_iff pid cs st co rr cr now :
  (Z.of_nat (length cs) <= 2 ^ 32)%Z ->
  (exists a, AnalysisResult_new (analysis_dict pid (PDict cs) PNone st co rr cr) now = Ok a)
  <->
  truthy pid = true /\ cs <> [] /\
  Forall (fun kv => is_number (snd kv) = true /\ between 0 (snd kv) 100 = Ok true) cs.
Proof.
  intros Hb. rewrite AnalysisResult_new_dict, AnalysisResult_post_init_computed,
    AnalysisResult_validate_obj.
  cbn [is_none negb items mbind except_bind]. split.
  - intros [a H]. destruct (truthy pid); [|discriminate H].
    destruct (truthy (PDict cs)) eqn:Ht; [|discriminate H]. cbn [negb] in H.
    destruct (validate_scores cs) as [[]|] eqn:Hv; [|discriminate H].
    split; [reflexivity|]. split; [intros ->; discriminate Ht|].
    now apply validate_scores_Forall.
  - intros (Hp & Hne & Hf). apply validate_scores_Forall in Hf.
    destruct (calculate_score cs Hne Hf Hb) as (T & W & q & _ & _ & _ & _ & _ & _ & Hc).
    rewrite Hp. assert (Ht : truthy (PDict cs) = true) by (destruct cs; [congruence | reflexivity]).
    rewrite Ht, Hf. cbn [negb mbind except_bind].
    rewrite (Hc (analysis_obj pid (PDict cs) PNone st co rr cr) eq_refl).
    cbn [mbind except_bind]. eexists. reflexivity.
Qed.

Lemma AnalysisResult_new_succeeds_iff_witness :
  (exists a, AnalysisResult_new
               (analysis_dict (PStr "prop-001") (PDict named_scores) PNone (PList []) (PList [])
                  PNone (PDatetime sample_now)) sample_now = Ok a)
  <->
  truthy (PStr "prop-001") = true /\ named_scores <> [] /\
  Forall (fun kv => is_number (snd kv) = true /\ between 0 (snd kv) 100 = Ok true) named_scores.
Proof.
  apply (AnalysisResult_new_succeeds_iff (PStr "prop-001") named_scores (PList []) (PList [])
           PNone (PDatetime sample_now) sample_now).
  vm_compute. discriminate.
Defined.

(** ** [AnalysisResult]: round trip of a computed score *)

(** X16.  [from_dict] of [to_dict] succeeds on every constructed analysis
    result of at most [2^32] criteria whose [created_at] is a datetime,
    also on one whose score was computed: the stored score passes the
    range check of the second construction and is not computed again.
    The result has the same fields; its timestamp is the one that was
    written, the same wall-clock time and offset. *)
Theorem AnalysisResult_round_trip kwargs now a cs t :
  AnalysisResult_new kwargs now = Ok a ->
  dict_get "criteria_scores" kwargs = Some (PDict cs) ->
  (Z.of_nat (length cs) <= 2 ^ 32)%Z ->
  a !! "created_at" = Some (PDatetime t) ->
  valid_datetime t = true ->
  exists d o,
    AnalysisResult_to_dict a = Ok d /\
    a !! "overall_score" = Some o /\ dict_get "overall_score" d = Some o /\
    dict_get "created_at" d = Some (PStr (isoformat t)) /\
    forall now', exists a' t',
      AnalysisResult_from_dict d now' = Ok a' /\
      (forall name, name <> "created_at" -> a' !! name = a !! name) /\
      a' !! "created_at" = Some (PDatetime t') /\ isoformat t' = isoformat t.
Proof.
  intros Hnew Hcs Hb Hc Hv.
  destruct (AnalysisResult_new_valid _ _ _ _ Hnew Hcs) as [Hne Hvs].
  destruct (AnalysisResult_new_inv _ _ _ Hnew) as (pid & cs' & _ & Hcs' & Hp).
  rewrite Hcs in Hcs'. injection Hcs' as <-.
  set (os := kwarg kwargs "overall_score" PNone) in *.
  set (st := kwarg kwargs "strengths" (PList [])) in *.
  set (co := kwarg kwargs "concerns" (PList [])) in *.
  set (rr := kwarg kwargs "recommendation_rank" PNone) in *.
  set (cr := kwarg kwargs "created_at" (PDatetime now)) in *.
  clearbody os st co rr cr.
  assert (Hval : AnalysisResult_validate (analysis_obj pid (PDict cs) os st co rr cr) = Ok tt).
  { unfold AnalysisResult_post_init in Hp.
    destruct (AnalysisResult_validate _) as [[]|]; [reflexivity | discriminate Hp]. }
  destruct (is_none os) eqn:Hn.
  - assert (os = PNone) by (destruct os; try discriminate Hn; reflexivity). subst os.
    rewrite AnalysisResult_post_init_computed, Hval in Hp. cbn [mbind except_bind] in Hp.
    destruct (calculate_score cs Hne Hvs Hb) as (T & W & q & _ & _ & _ & _ & Hq & _ & Hcalc).
    rewrite (Hcalc (analysis_obj pid (PDict cs) PNone st co rr cr) eq_refl) in Hp.
    cbn [mbind except_bind] in Hp. injection Hp as <-.
    assert (Hcr : cr = PDatetime t).
    { change ((<["_frozen" := PBool true]>
                 (analysis_obj pid (PDict cs) (PFloat (Finite q)) st co rr cr)) !! "created_at")
        with (Some cr) in Hc. congruence. }
    subst cr.
    exists (analysis_dict pid (PDict cs) (PFloat (Finite q)) st co rr (PStr (isoformat t))),
      (PFloat (Finite q)).
    split; [apply AnalysisResult_to_dict_obj|]. split; [reflexivity|]. split; [reflexivity|].
    split; [reflexivity|].
    intros now'.
    exists (<["_frozen" := PBool true]>
              (analysis_obj pid (PDict cs) (PFloat (Finite q)) st co rr (PDatetime t))), t.
    split; [|split; [reflexivity | split; reflexivity]].
    rewrite (AnalysisResult_from_dict_obj _ _ _ _ _ _ _ _ Hv).
    rewrite AnalysisResult_post_init_explicit by reflexivity.
    rewrite AnalysisResult_validate_obj in Hval |- *.
    destruct (truthy pid); [|discriminate Hval].
    destruct (truthy (PDict cs)); [|discriminate Hval].
    cbn [negb is_none mbind except_bind] in Hval |- *.
    rewrite (between_finite q Hq). cbn [negb mbind except_bind items] in Hval |- *.
    rewrite Hval. reflexivity.
  - assert (Hp' := Hp). rewrite (AnalysisResult_post_init_explicit _ _ _ _ _ _ _ Hn), Hval in Hp'.
    cbn [mbind except_bind] in Hp'. injection Hp' as <-.
    assert (Hcr : cr = PDatetime t).
    { change ((<["_frozen" := PBool true]>
                 (analysis_obj pid (PDict cs) os st co rr cr)) !! "created_at")
        with (Some cr) in Hc. congruence. }
    subst cr.
    exists (analysis_dict pid (PDict cs) os st co rr (PStr (isoformat t))), os.
    split; [apply AnalysisResult_to_dict_obj|]. split; [reflexivity|]. split; [reflexivity|].
    split; [reflexivity|].
    intros now'.
    exists (<["_frozen" := PBool true]> (analysis_obj pid (PDict cs) os st co rr (PDatetime t))), t.
    split; [|split; [reflexivity | split; reflexivity]].
    rewrite (AnalysisResult_from_dict_obj _ _ _ _ _ _ _ _ Hv). exact Hp.
Qed.

Lemma AnalysisResult_round_trip_witness :
  exists d o,
    AnalysisResult_to_dict named_analysis = Ok d /\
    named_analysis !! "overall_score" = Some o /\ dict_get "overall_score" d = Some o /\
    dict_get "created_at" d = Some (PStr (isoformat sample_now)) /\
    forall now', exists a' t',
      AnalysisResult_from_dict d now' = Ok a' /\
      (forall name, name <> "created_at" -> a' !! name = named_analysis !! name) /\
      a' !! "created_at" = Some (PDatetime t') /\ isoformat t' = isoformat sample_now.
Proof.
  apply (AnalysisResult_round_trip (scores_kwargs named_scores) sample_now named_analysis
           named_scores sample_now named_scores_new).
  - reflexivity.
  - vm_compute. discriminate.
  - reflexivity.
  - reflexivity.
Defined.

(** ** [AnalysisResult]: errors that are not validation errors *)

(** X17.  An overall score of type [str], [list], [dict] or [datetime]
    leaves the constructor, and so [from_dict], with the [TypeError] of
    the comparison [0 <= overall_score], not with a
    [ModelValidationError]. *)
Theorem AnalysisResult_score_type_error pid cs os st co rr cr now :
  truthy pid = true -> truthy cs = true ->
  In (type_of os) [str_type; list_type; dict_type; datetime_type] ->
  AnalysisResult_new (analysis_dict pid cs os st co rr cr) now = Raise TypeError.
Proof.
  intros Hp Hc Ht. rewrite AnalysisResult_new_dict. unfold AnalysisResult_post_init.
  rewrite AnalysisResult_validate_obj, Hp, Hc. cbn [negb].
  destruct os; try reflexivity; exfalso; cbn [type_of In] in Ht; intuition discriminate.
Qed.

Lemma AnalysisResult_score_type_error_witness :
  AnalysisResult_new (analysis_dict (PStr "prop-001") (PDict [("price", PInt 90)]) (PStr "85")
                        (PList []) (PList []) PNone (PDatetime sample_now)) sample_now
  = Raise TypeError.
Proof.
  apply (AnalysisResult_score_type_error (PStr "prop-001") (PDict [("price", PInt 90)])
           (PStr "85") (PList []) (PList []) PNone (PDatetime sample_now) sample_now).
  - reflexivity.
  - reflexivity.
  - cbn [type_of In]. tauto.
Defined.

(** X18.  Scores that are truthy and of type [bool], [int], [float],
    [str], [list] or [datetime], a list of numbers for one, pass the
    presence check and then fail at [.items()] with [AttributeError], not
    with a [ModelValidationError]; the overall score is [None] or a number
    of the model within [0, 100]. *)
Theorem AnalysisResult_scores_attribute_error pid cs os st co rr cr now :
  truthy pid = true -> truthy cs = true ->
  In (type_of cs) [bool_type; int_type; float_type; str_type; list_type; datetime_type] ->
  is_none os = true \/ between 0 os 100 = Ok true ->
  AnalysisResult_new (analysis_dict pid cs os st co rr cr) now = Raise AttributeError.
Proof.
  intros Hp Hc Hd Ho. rewrite AnalysisResult_new_dict. unfold AnalysisResult_post_init.
  rewrite AnalysisResult_validate_obj, Hp, Hc. cbn [negb].
  assert (Hi : items cs = Raise AttributeError).
  { destruct cs; try reflexivity; exfalso; cbn [type_of In] in Hd; intuition discriminate. }
  destruct Ho as [Hn | Hb].
  - rewrite Hn, Hi. reflexivity.
  - rewrite Hb, Hi. destruct (is_none os); reflexivity.
Qed.

Lemma AnalysisResult_scores_attribute_error_witness :
  AnalysisResult_new (analysis_dict (PStr "prop-001") (PList [PInt 90]) PNone
                        (PList []) (PList []) PNone (PDatetime sample_now)) sample_now
  = Raise AttributeError.
Proof.
  apply (AnalysisResult_scores_attribute_error (PStr "prop-001") (PList [PInt 90]) PNone
           (PList []) (PList []) PNone (PDatetime sample_now) sample_now).
  - reflexivity.
  - reflexivity.
  - cbn [type_of In]. tauto.
  - left. reflexivity.
Defined.

Local Open Scope Q_scope.

(** ** Equal scores

    The loop on criteria that all have the score [s], at least 1, under a
    rounding [rd] of relative error [u] above [lo]. *)

Section Unanimity.

Variables (u lo wlo K s : Q) (rd : Q -> Q).

Hypothesis u_pos : 0 < u.
Hypothesis u_small : (8 * K + 5) * u <= 1 # 2.
Hypothesis K_ge_1 : 1 <= K.
Hypothesis wlo_pos : 0 < wlo.
Hypothesis lo_le : 2 * lo <= wlo.
Hypothesis s_ge_1 : 1 <= s.

Hypothesis rd_le : forall x, lo <= x -> rd x <= x * (1 + u).
Hypothesis rd_ge : forall x, lo <= x -> x * (1 - u) <= rd x.

Lemma near_step k acc w :
  0 <= k -> k + 1 <= K -> wlo <= w -> q_near u s k acc ->
  q_near u s (k + 1) (q_step rd acc (s, w)) /\ wlo * (1 # 2) <= snd (q_step rd acc (s, w)).
Proof.
  intros Hk HkK Hw (HW0 & HTl & HTu). destruct acc as [T W].
  unfold q_step, q_near. cbn [fst snd] in *.
  assert (Hu1 : u <= 1 # 16) by (clear - u_pos u_small K_ge_1; nra).
  assert (Hku : 0 <= k * u) by (apply Qmult_le_0_compat; lra).
  assert (HKu : 8 * (k * u) + 5 * u <= 1 # 2) by nra.
  remember (k * u) as a eqn:Ea.
  assert (Ea1 : 4 * k * u == 4 * a) by (rewrite Ea; ring).
  assert (Ea2 : 4 * (k + 1) * u == 4 * a + 4 * u) by (rewrite Ea; ring).
  rewrite Ea1 in HTl, HTu. rewrite Ea2. clear Ea Ea1 Ea2 Hk HkK.
  assert (HA0 : 0 <= s * W) by (apply Qmult_le_0_compat; lra).
  assert (HBw : w <= s * w) by nra.
  remember (s * W) as A eqn:EA. remember (s * w) as B eqn:EB.
  assert (HT0 : 0 <= T) by nra.
  assert (Hp1 : rd B <= B * (1 + u)) by (apply rd_le; lra).
  assert (Hp2 : B * (1 - u) <= rd B) by (apply rd_ge; lra).
  remember (rd B) as p eqn:Ep. clear Ep.
  assert (Hp3 : wlo * (1 # 2) <= p) by nra.
  assert (HS1 : rd (T + p) <= (T + p) * (1 + u)) by (apply rd_le; lra).
  assert (HS2 : (T + p) * (1 - u) <= rd (T + p)) by (apply rd_ge; lra).
  remember (rd (T + p)) as T' eqn:ET. clear ET.
  assert (HX1 : rd (W + w) <= (W + w) * (1 + u)) by (apply rd_le; lra).
  assert (HX2 : (W + w) * (1 - u) <= rd (W + w)) by (apply rd_ge; lra).
  remember (rd (W + w)) as W' eqn:EW'. clear EW'.
  assert (HC1 : s * W' <= (A + B) * (1 + u)).
  { assert (E : (A + B) * (1 + u) == s * ((W + w) * (1 + u))) by (rewrite EA, EB; ring).
    rewrite E. apply Qmult_le_l; lra. }
  assert (HC2 : (A + B) * (1 - u) <= s * W').
  { assert (E : (A + B) * (1 - u) == s * ((W + w) * (1 - u))) by (rewrite EA, EB; ring).
    rewrite E. apply Qmult_le_l; lra. }
  assert (HW' : wlo * (1 # 2) <= W') by nra.
  remember (s * W') as C eqn:EC. clear EC EA EB HX1 HX2.
  set (Y := A + B) in *. assert (HY : 0 <= Y) by (unfold Y; lra).
  assert (HYu : 0 <= Y * u) by (apply Qmult_le_0_compat; lra).
  assert (HYa : 0 <= Y * a) by (apply Qmult_le_0_compat; lra).
  assert (HAu : 0 <= A * u) by (apply Qmult_le_0_compat; lra).
  assert (HBa : 0 <= B * a) by (apply Qmult_le_0_compat; lra).
  assert (HB0 : 0 <= B) by lra.
  (* the sum before rounding *)
  assert (U1 : T + p <= Y * (1 + 4 * a + u)) by (unfold Y; nra).
  assert (L1 : Y * (1 - 4 * a - u) <= T + p) by (unfold Y; nra).
  clearbody Y. clear HTl HTu Hp1 Hp2 HAu HBa.
  assert (G0 : 0 <= 1 - 4 * a - 4 * u) by lra.
  assert (U2 : T' <= Y * (1 + 4 * a + u) * (1 + u)).
  { apply Qle_trans with (1 := HS1). apply Qmult_le_compat_r; lra. }
  assert (L2 : Y * (1 - 4 * a - u) * (1 - u) <= T').
  { apply Qle_trans with (2 := HS2). apply Qmult_le_compat_r; lra. }
  assert (U3 : Y * (1 + 4 * a + u) * (1 + u) <= Y * (1 - u) * (1 + (4 * a + 4 * u))).
  { assert (D : Y * (1 - u) * (1 + (4 * a + 4 * u)) - Y * (1 + 4 * a + u) * (1 + u)
                == (Y * u) * (1 - 8 * a - 5 * u)) by ring.
    assert (0 <= (Y * u) * (1 - 8 * a - 5 * u)) by (apply Qmult_le_0_compat; lra). lra. }
  assert (L3 : Y * (1 + u) * (1 - (4 * a + 4 * u)) <= Y * (1 - 4 * a - u) * (1 - u)).
  { assert (D : Y * (1 - 4 * a - u) * (1 - u) - Y * (1 + u) * (1 - (4 * a + 4 * u))
                == (Y * u) * (1 + 8 * a + 5 * u)) by ring.
    assert (0 <= (Y * u) * (1 + 8 * a + 5 * u)) by (apply Qmult_le_0_compat; lra). lra. }
  assert (U4 : Y * (1 - u) * (1 + (4 * a + 4 * u)) <= C * (1 + (4 * a + 4 * u))).
  { apply Qmult_le_compat_r; lra. }
  assert (L4 : C * (1 - (4 * a + 4 * u)) <= Y * (1 + u) * (1 - (4 * a + 4 * u))).
  { apply Qmult_le_compat_r; lra. }
  split; [|exact HW']. split; [lra|]. split; lra.
Qed.

End Unanimity.

(** One turn of the loop in binary64 on a score [s] of at least 1. *)
Lemma near_step64 s k acc w :
  1 <= s -> 0 <= k -> k + 1 <= max_count -> wlo64 <= w -> q_near u64 s k acc ->
  q_near u64 s (k + 1) (q_step rnd acc (s, w)) /\
  wlo64 * (1 # 2) <= snd (q_step rnd acc (s, w)).
Proof.
  intros Hs. apply (near_step u64 (2 ^ (-1022)) wlo64 max_count s rnd).
  - apply pow2_pos.
  - apply Qle_bool_iff. vm_compute. reflexivity.
  - apply Qle_bool_iff. vm_compute. reflexivity.
  - apply pow2_pos.
  - apply Qle_bool_iff. vm_compute. reflexivity.
  - exact Hs.
  - intros x Hx. assert (E := rnd_error_normal x Hx). apply Qabs_Qle_condition in E. lra.
  - intros x Hx. assert (E := rnd_error_normal x Hx). apply Qabs_Qle_condition in E. lra.
Qed.

Lemma near_fold (count : nat) (s : Z) :
  (1 <= count)%nat -> (Z.of_nat count <= 2 ^ 32)%Z -> (1 <= s)%Z ->
  forall its k acc,
    Forall (fun kv : string * pyval => snd kv = PInt s) its ->
    0 <= k -> k + inject_Z (Z.of_nat (length its)) <= max_count ->
    q_near u64 (inject_Z s) k acc ->
    q_near u64 (inject_Z s) (k + inject_Z (Z.of_nat (length its)))
      (fold_left (q_step rnd) (map (item_q count) its) acc).
Proof.
  intros H1 H2 Hs.
  assert (Hs' : 1 <= inject_Z s) by (change 1 with (inject_Z 1); rewrite <- Zle_Qle; exact Hs).
  induction its as [|[c v] its IH]; intros k acc Hf Hk HK Hi.
  - cbn [map fold_left length]. change (inject_Z (Z.of_nat 0)) with 0.
    destruct Hi as (A & B & C). unfold q_near.
    assert (E : k + 0 == k) by ring. rewrite E. auto.
  - inversion Hf as [|x l Hv Hf']; subst. cbn [snd] in Hv. subst v.
    assert (EL := length_Q (c, PInt s) its). assert (L0 := length_Q_nonneg its).
    destruct (weight_spec count c H1 H2) as (_ & _ & Hw & _).
    assert (HK1 : k + 1 <= max_count) by lra.
    destruct (near_step64 (inject_Z s) k acc (weight_q count c) Hs' Hk HK1 Hw Hi)
      as [Hi' _].
    assert (I := IH (k + 1) _ Hf' ltac:(lra) ltac:(lra) Hi').
    cbn [map fold_left].
    change (item_q count (c, PInt s)) with (inject_Z s, weight_q count c).
    destruct I as (A & B & C). unfold q_near.
    assert (EK : k + inject_Z (Z.of_nat (length ((c, PInt s) :: its)))
                 == k + 1 + inject_Z (Z.of_nat (length its))) by (rewrite EL; ring).
    rewrite EK. auto.
Qed.

Lemma rne_lower x n : inject_Z n - (1 # 2) < x -> (n <= rne x)%Z.
Proof.
  intros H. assert (S := rne_spec x). apply Qabs_Qle_condition in S.
  assert (L : inject_Z (n - 1) < inject_Z (rne x)).
  { unfold Z.sub. rewrite inject_Z_plus. change (inject_Z (- (1))) with (- (1)). lra. }
  rewrite <- Zlt_Qlt in L. lia.
Qed.

(** A quotient near a whole score rounds to that score. *)
Lemma round2_near (s : Z) k T W :
  (1 <= s <= 100)%Z -> 0 <= k -> k <= max_count -> 0 < W ->
  q_near u64 (inject_Z s) k (T, W) ->
  round2 (Finite (rnd (T / W))) = Finite (inject_Z s).
Proof.
  intros [Hs1 Hs2] Hk HK HW (_ & Hl & Hu). cbn [fst snd] in Hl, Hu.
  assert (S1 : 1 <= inject_Z s) by (change 1 with (inject_Z 1); rewrite <- Zle_Qle; exact Hs1).
  assert (S2 : inject_Z s <= 100)
    by (change 100 with (inject_Z 100); rewrite <- Zle_Qle; exact Hs2).
  assert (E100 : inject_Z (100 * s) == 100 * inject_Z s) by (rewrite inject_Z_mult; reflexivity).
  remember (inject_Z s) as z eqn:Ez.
  assert (U := u64_val). assert (M := max_count_val). destruct eta64_le as [E0 E1].
  assert (MU : max_count * u64 <= 1 # 2097152) by (apply Qle_bool_iff; vm_compute; reflexivity).
  assert (Hku : 0 <= k * u64) by (apply Qmult_le_0_compat; lra).
  assert (HKu : k * u64 <= max_count * u64) by (apply Qmult_le_compat_r; lra).
  remember (k * u64) as a eqn:Ea.
  assert (Ea' : 4 * k * u64 == 4 * a) by (rewrite Ea; ring).
  rewrite Ea' in Hl, Hu. clear Ea Ea'.
  assert (Hza : z * a <= 100 * a) by (apply Qmult_le_compat_r; lra).
  assert (Hza0 : 0 <= z * a) by (apply Qmult_le_0_compat; lra).
  assert (X1 : z * (1 - 4 * a) <= T / W).
  { apply Qle_shift_div_l; [exact HW|].
    assert (E : z * (1 - 4 * a) * W == z * W * (1 - 4 * a)) by ring. rewrite E. exact Hl. }
  assert (X2 : T / W <= z * (1 + 4 * a)).
  { apply Qle_shift_div_r; [exact HW|].
    assert (E : z * (1 + 4 * a) * W == z * W * (1 + 4 * a)) by ring. rewrite E. exact Hu. }
  remember (T / W) as x eqn:Ex. clear Ex Hl Hu.
  assert (P33 : 2 ^ (-33) <= 1 # 2) by (apply Qle_bool_iff; vm_compute; reflexivity).
  assert (X0 : 0 <= x) by lra.
  assert (Up := rnd_upper x X0). assert (Lo := rnd_lower x ltac:(lra)).
  assert (Xu : x * u64 <= 101 * u64) by (apply Qmult_le_compat_r; lra).
  assert (Xu0 : 0 <= x * u64) by (apply Qmult_le_0_compat; lra).
  remember (rnd x) as q eqn:Eq. clear Eq.
  cbn [round2].
  assert (R : rne (q * 100) = (100 * s)%Z).
  { apply Z.le_antisymm.
    - apply rne_upper. rewrite E100. lra.
    - apply rne_lower. rewrite E100. lra. }
  rewrite R. rewrite (fl_comp (inject_Z (100 * s) / 100) z) by (rewrite E100; field).
  subst z. rewrite (fl_small (inject_Z s) 100).
  - rewrite rnd_int; [reflexivity|]. split; [lia|]. apply Z.le_lt_trans with 100%Z; [lia|reflexivity].
  - lra.
  - rewrite rnd_int; [lra|]. split; [lia|]. apply Z.le_lt_trans with 100%Z; [lia|reflexivity].
  - apply Qle_bool_iff. reflexivity.
Qed.

(** With scores that are all 0 the total stays 0. *)
Lemma zero_fold (count : nat) its :
  forall acc, fst acc = 0 ->
    Forall (fun kv : string * pyval => snd kv = PInt 0) its ->
    fst (fold_left (q_step rnd) (map (item_q count) its) acc) = 0.
Proof.
  induction its as [|[c v] its IH]; intros acc Ha Hf; [exact Ha|].
  inversion Hf as [|x l Hv Hf']; subst. cbn [snd] in Hv. subst v.
  cbn [map fold_left]. apply IH; [|exact Hf'].
  unfold q_step, item_q. cbn [fst snd score_q]. rewrite Ha.
  apply rnd_zero. rewrite (rnd_zero (inject_Z 0 * weight_q count c)); [reflexivity|].
  change (inject_Z 0) with 0. ring.
Qed.

Lemma round2_zero W : round2 (Finite (rnd (0 / W))) = Finite 0.
Proof.
  rewrite (rnd_zero (0 / W)) by (unfold Qdiv; ring). vm_compute. reflexivity.
Qed.

(** X19.  When every criterion has the same whole score, that score is
    the overall score, whatever the criteria and their weights are, for up
    to [2^32] criteria: the rounding errors of the loop do not reach the
    second decimal. *)
Theorem AnalysisResult_unanimous_score pid cs (s : Z) st co rr cr now :
  truthy pid = true -> cs <> [] -> (Z.of_nat (length cs) <= 2 ^ 32)%Z ->
  (0 <= s <= 100)%Z ->
  Forall (fun kv : string * pyval => snd kv = PInt s) cs ->
  AnalysisResult_new (analysis_dict pid (PDict cs) PNone st co rr cr) now
  = Ok (<["_frozen" := PBool true]>
          (analysis_obj pid (PDict cs) (PFloat (Finite (inject_Z s))) st co rr cr)).
Proof.
  intros Hp Hne Hb Hs Hf.
  assert (Hv : validate_scores cs = Ok tt).
  { apply validate_scores_Forall. eapply List.Forall_impl; [|exact Hf].
    intros [c v] Hcv. cbn [snd] in *. subst v. split; [reflexivity|].
    unfold between. cbn [int_le_val val_le_int mbind except_bind].
    destruct (Z.leb_spec 0 s); [|lia]. destruct (Z.leb_spec s 100); [reflexivity | lia]. }
  assert (H1 : (1 <= length cs)%nat) by (destruct cs; [congruence | cbn [length]; lia]).
  assert (I0 : q_inv u64 0 (0, 0)).
  { unfold q_inv. cbn [fst snd]. repeat split; apply Qle_bool_iff; reflexivity. }
  assert (L0 := length_Q_nonneg cs).
  assert (L : 0 + inject_Z (Z.of_nat (length cs)) <= max_count).
  { unfold max_count. assert (E : 0 + inject_Z (Z.of_nat (length cs))
                                   == inject_Z (Z.of_nat (length cs))) by ring.
    rewrite E. rewrite <- Zle_Qle. exact Hb. }
  destruct (accumulate_link (length cs) H1 Hb cs 0 (0, 0) Hv ltac:(lra) L I0)
    as (A1 & _ & _ & A4 & A5).
  cbv zeta in A1, A4, A5. cbn [fst snd] in A1.
  assert (R : round2 (Finite (rnd (fst (fold_left (q_step rnd) (map (item_q (length cs)) cs) (0, 0))
                                   / snd (fold_left (q_step rnd) (map (item_q (length cs)) cs) (0, 0)))))
              = Finite (inject_Z s)).
  { destruct (Z.eq_dec s 0%Z) as [-> | Hs0].
    - rewrite (zero_fold (length cs) cs (0, 0) eq_refl Hf). apply round2_zero.
    - assert (N0 : q_near u64 (inject_Z s) 0 (0, 0)).
      { unfold q_near. cbn [fst snd]. split; [lra|]. split; nra. }
      assert (N := near_fold (length cs) s H1 Hb ltac:(lia) cs 0 (0, 0) Hf (Qle_refl 0) L N0).
      destruct (fold_left (q_step rnd) (map (item_q (length cs)) cs) (0, 0)) as [T W].
      cbn [fst snd] in *.
      destruct (quotient_in_range (0 + inject_Z (Z.of_nat (length cs))) T W ltac:(lra) L A4 (A5 Hne)) as (W0 & _).
      apply (round2_near s (0 + inject_Z (Z.of_nat (length cs))) T W ltac:(lia) ltac:(lra) L W0 N). }
  destruct (fold_left (q_step rnd) (map (item_q (length cs)) cs) (0, 0)) as [T W] eqn:ER.
  cbn [fst snd] in *.
  destruct (quotient_in_range (0 + inject_Z (Z.of_nat (length cs))) T W ltac:(lra) L A4 (A5 Hne)) as (W0 & Ft & Fd & _).
  rewrite AnalysisResult_new_dict, AnalysisResult_post_init_computed, AnalysisResult_validate_obj.
  assert (Ht : truthy (PDict cs) = true) by (destruct cs; [congruence | reflexivity]).
  rewrite Hp, Ht. cbn [negb is_none mbind except_bind items]. rewrite Hv. cbn [mbind except_bind].
  rewrite (_calculate_overall_score_items (analysis_obj pid (PDict cs) PNone st co rr cr) cs eq_refl).
  rewrite A1. cbn [mbind except_bind]. rewrite Ft, Fd. cbn [mbind except_bind]. rewrite R.
  reflexivity.
Qed.

Lemma AnalysisResult_unanimous_score_witness :
  AnalysisResult_new
    (analysis_dict (PStr "prop-001")
       (PDict [("price", PInt 70); ("support", PInt 70); ("risk", PInt 70)])
       PNone (PList []) (PList []) PNone (PDatetime sample_now)) sample_now
  = Ok (<["_frozen" := PBool true]>
          (analysis_obj (PStr "prop-001")
             (PDict [("price", PInt 70); ("support", PInt 70); ("risk", PInt 70)])
             (PFloat (Finite (inject_Z 70))) (PList []) (PList []) PNone (PDatetime sample_now))).
Proof.
  apply (AnalysisResult_unanimous_score (PStr "prop-001")
           [("price", PInt 70); ("support", PInt 70); ("risk", PInt 70)] 70
           (PList []) (PList []) PNone (PDatetime sample_now) sample_now).
  - reflexivity.
  - discriminate.
  - vm_compute. discriminate.
  - lia.
  - repeat constructor.
Defined.

Local Open Scope Z_scope.

(** ** White space around the values of the environment *)

Lemma lookup_stripped ld (dot env : gmap string string) key :
  effective_environ ld dot (strip <$> env) !! key
  = match env !! key with
    | Some v => Some (strip v)
    | None => effective_environ ld dot env !! key
    end.
Proof.
  unfold effective_environ. destruct ld.
  - rewrite !lookup_union, lookup_fmap.
    destruct (env !! key); [destruct (dot !! key)|]; reflexivity.
  - rewrite lookup_fmap. destruct (env !! key); reflexivity.
Qed.

Lemma lookup_effective ld (dot env : gmap string string) key v :
  env !! key = Some v -> effective_environ ld dot env !! key = Some v.
Proof.
  intros H. unfold effective_environ. destruct ld; [|exact H].
  rewrite lookup_union, H. destruct (dot !! key); reflexivity.
Qed.

Lemma required_env_stripped ld dot env key :
  _get_required_env (effective_environ ld dot (strip <$> env)) key
  = _get_required_env (effective_environ ld dot env) key.
Proof.
  unfold _get_required_env. rewrite lookup_stripped.
  destruct (env !! key) as [v|] eqn:E; [|reflexivity].
  rewrite (lookup_effective ld dot env key v E). cbv zeta. now rewrite strip_idem.
Qed.

Lemma optional_env_stripped ld dot env key default :
  _get_optional_env (effective_environ ld dot (strip <$> env)) key default
  = _get_optional_env (effective_environ ld dot env) key default.
Proof.
  unfold _get_optional_env. rewrite lookup_stripped.
  destruct (env !! key) as [v|] eqn:E; [|reflexivity].
  rewrite (lookup_effective ld dot env key v E). cbv zeta. now rewrite strip_idem.
Qed.

(** X20.  White space around the values of the environment does not
    count: the constructor gives the same result, object or error, on an
    environment and on the one with every value stripped. *)
Theorem Config_init_strips_environment ld dot env ur :
  Config_init ld dot (strip <$> env) ur = Config_init ld dot env ur.
Proof.
  unfold Config_init. cbv zeta.
  rewrite required_env_stripped, !optional_env_stripped. reflexivity.
Qed.
